(** * Gateway event processor, VPS sandbox provider and git operations:
    model and properties

    A shallow embedding of

    - [apps/gateway/src/hub/event-processor.ts] (class [EventProcessor] and
      the helpers [getOpenCodeErrorMessage] and [isAbortLikeOpenCodeError]);
    - the [VPSProvider] methods [ensureSandbox], [checkSandboxes],
      [execCommand], [snapshot], [pause] and [testServiceCommands];
    - [buildGitCredentialsMap];
    - [apps/gateway/src/hub/git-operations.ts] (class [GitOperations] without
      [getStatus], and the parsers [parseLogOutput] and [parseBusyState]).

    The processor is a state machine: [process] takes the processor's fields
    and one SSE event and yields the new fields together with the effects it
    performed, in order.  Effects are the messages handed to
    [callbacks.broadcast], the optional telemetry hooks, and two logger
    records that the properties refer to.  What the code reads from its
    surroundings during one call (the readings of [Date.now()] and the value of
    [callbacks.getOpenCodeSessionId()]) is an explicit input of the call. *)

From stdpp Require Import gmap strings list fin_maps pretty.
From Stdlib Require Import Ascii.

Local Open Scope Z_scope.

(** ** JavaScript strings and truthiness *)

Module Js.

(** [!!s] for a string: only the empty string is falsy. *)
Definition truthy (s : string) : bool := negb (bool_decide (s = "")).

(** Truthiness of a field that holds a string or is absent. *)
Definition truthy_opt (o : option string) : bool :=
  match o with Some s => truthy s | None => false end.

(** [a || b] on string-or-absent values. *)
Definition or_else (a b : option string) : option string :=
  if truthy_opt a then a else b.

(** What a template literal prints for a string-or-undefined value. *)
Definition tmpl (o : option string) : string := default "undefined" o.

(** [String.prototype.toLowerCase] restricted to the letters A-Z.  The
    strings the processor compares against are lower-case ASCII without
    the letter k, and the only non-ASCII code points whose lower case
    contains an ASCII letter map to k or to i followed by a combining
    mark, so leaving every other byte alone does not change any of the
    comparisons made below. *)
Definition lower_ascii (c : ascii) : ascii :=
  let n := nat_of_ascii c in
  if (Nat.leb 65 n && Nat.leb n 90)%bool then ascii_of_nat (n + 32) else c.

Fixpoint toLowerCase (s : string) : string :=
  match s with
  | EmptyString => EmptyString
  | String c t => String (lower_ascii c) (toLowerCase t)
  end.

Fixpoint startsWith (s p : string) : bool :=
  match p, s with
  | EmptyString, _ => true
  | String a p', String b s' => bool_decide (a = b) && startsWith s' p'
  | String _ _, EmptyString => false
  end.

(** [hay.includes(needle)] *)
Fixpoint includes (hay needle : string) : bool :=
  startsWith hay needle ||
  match hay with
  | EmptyString => false
  | String _ t => includes t needle
  end.

(** [parts.join(sep)] *)
Fixpoint join (sep : string) (parts : list string) : string :=
  match parts with
  | [] => ""
  | [x] => x
  | x :: rest => x +:+ sep +:+ join sep rest
  end.

End Js.

(** ** Events received from the agent (types of [../types], as the code
    reads them)

    Every field the code tests before use is optional here, so that an event
    with missing fields is an input like any other. *)

(** The value of an [error] field, typed [unknown] in the code. *)
Inductive ErrVal :=
  | ErrAbsent                                   (* undefined, null, 0, false *)
  | ErrStr (s : string)
  | ErrObj (name message dataMessage : option string)
  | ErrOther (repr : string).    (* a truthy number, boolean, ...; [repr] is String(error) *)

Record MessageInfo := {
  info_id : option string;
  info_role : option string;
  info_sessionID : option string;
  info_sessionId : option string;
  info_error : ErrVal;
  info_completed : bool                     (* truthiness of info.time?.completed *)
}.

Record SummaryItemState := {
  sis_status : option string;
  sis_title : option string
}.

Record SummaryItem := {
  si_id : option string;
  si_tool : option string;
  si_state : option SummaryItemState
}.

Record Metadata := { md_summary : option (list SummaryItem) }.

Record PartState := {
  ps_status : option string;
  ps_input : option (list (string * string));
  ps_output : option string;
  ps_error : option string;
  ps_title : option string;
  ps_metadata : option Metadata
}.

Record Part := {
  part_id : option string;
  part_messageID : option string;
  part_type : option string;
  part_sessionID : option string;
  part_callID : option string;
  part_tool : option string;
  part_text : option string;
  part_state : option PartState
}.

(** [event.properties]: the fields any of the handlers reads. *)
Record Props := {
  p_info : option MessageInfo;
  p_part : option Part;
  p_delta : option string;
  p_status_type : option string;            (* properties.status?.type *)
  p_error : ErrVal
}.

Record OpenCodeEvent := {
  ev_type : option string;
  ev_properties : option Props
}.

(** What one call of [process] reads from outside the processor. *)
Record Env := {
  clock_heartbeat : Z;      (* Date.now() in maybeBroadcastToolProgressHeartbeat *)
  clock_created : Z;        (* Date.now() for createdAt of a new assistant message *)
  clock_tool : Z;           (* Date.now() in handleToolPart *)
  openCodeSessionId : option string   (* callbacks.getOpenCodeSessionId() *)
}.

(** ** Messages for clients and other effects *)

Inductive ServerMessage :=
  | MsgMessage (id : string) (createdAt : Z)
  | MsgToken (messageId partId token : string)
  | MsgTextPartComplete (messageId partId text : string)
  | MsgToolStart (messageId partId toolCallId tool : string) (args : list (string * string))
  | MsgToolMetadata (toolCallId tool : string) (title : option string) (metadata : Metadata)
  | MsgToolEnd (partId toolCallId tool result : string) (durationMs : Z)
  | MsgMessageComplete (messageId : string)
  | MsgError (message : string)
  | MsgStatus (status message : string).

Inductive Out :=
  | Broadcast (m : ServerMessage)
  | OnToolStart (toolCallId : string)
  | OnMessageComplete
  | OnTextPartComplete (text : string)
  | OnToolMetadata (title : option string)
  | LogHeartbeat (toolCallId : string)       (* "Broadcasted tool progress heartbeat" *)
  | LogProcessingError (eventType : option string).   (* "Error processing event" *)

(** ** Processor state *)

Inductive ToolStatus := Running | Completed | Errored.

Global Instance ToolStatus_eq_dec : EqDecision ToolStatus.
Proof. solve_decision. Defined.

Record ToolState := {
  startEmitted : bool;
  argsEmitted : bool;
  endEmitted : bool;
  status : ToolStatus
}.

Record ToolWatch := {
  toolName : string;
  startedAt : Z;
  lastUpdateAt : Z;
  lastStatusBroadcastAt : Z
}.

(** [toolStates] and [sentToolEvents] are only looked up, extended, sized and
    cleared; [runningToolWatch] is also iterated, in insertion order, so it is
    kept as the ordered list of its entries. *)
Record State := {
  currentAssistantMessageId : option string;
  currentOpenCodeUserMessageId : option string;
  toolStates : gmap string ToolState;
  runningToolWatch : list (string * ToolWatch);
  sentToolEvents : gset string
}.

Definition initial : State := {|
  currentAssistantMessageId := None;
  currentOpenCodeUserMessageId := None;
  toolStates := ∅;
  runningToolWatch := [];
  sentToolEvents := ∅
|}.

(** ** The JavaScript [Map] operations used on [runningToolWatch] *)

Module Watch.

(** [m.set(k, w)]: an existing key keeps its place, a new one goes last. *)
Fixpoint set (k : string) (w : ToolWatch) (m : list (string * ToolWatch))
  : list (string * ToolWatch) :=
  match m with
  | [] => [(k, w)]
  | (k', w') :: rest =>
      if bool_decide (k' = k) then (k, w) :: rest else (k', w') :: set k w rest
  end.

Fixpoint delete (k : string) (m : list (string * ToolWatch))
  : list (string * ToolWatch) :=
  match m with
  | [] => []
  | (k', w') :: rest =>
      if bool_decide (k' = k) then rest else (k', w') :: delete k rest
  end.

(** [const watch = m.get(k); if (watch) { watch.lastUpdateAt = now;
    watch.toolName = name; }] *)
Fixpoint touch (k : string) (now : Z) (name : string) (m : list (string * ToolWatch))
  : list (string * ToolWatch) :=
  match m with
  | [] => []
  | (k', w) :: rest =>
      if bool_decide (k' = k)
      then (k', {| toolName := name; startedAt := startedAt w;
                   lastUpdateAt := now;
                   lastStatusBroadcastAt := lastStatusBroadcastAt w |}) :: rest
      else (k', w) :: touch k now name rest
  end.

End Watch.

(** ** Error classification *)

(** [getOpenCodeErrorMessage] *)
Definition getOpenCodeErrorMessage (error : ErrVal) : option string :=
  match error with
  | ErrAbsent => None
  | ErrStr s => if Js.truthy s then Some s else None
  | ErrOther repr => Some repr
  | ErrObj name message dataMessage =>
      if Js.truthy_opt dataMessage then dataMessage
      else if Js.truthy_opt message then message
      else if Js.truthy_opt name then name
      else None
  end.

(** The [details] record built at the head of [isAbortLikeOpenCodeError];
    [None] when [!error] holds. *)
Definition errorDetails (error : ErrVal)
  : option (option string * option string * option string) :=
  match error with
  | ErrAbsent => None
  | ErrStr s => if Js.truthy s then Some (None, Some s, None) else None
  | ErrObj name message dataMessage => Some (name, message, dataMessage)
  | ErrOther repr => Some (None, Some repr, None)
  end.

Definition abortName (normalizedName : string) : bool :=
  bool_decide (normalizedName = "messageabortederror")
  || bool_decide (normalizedName = "aborterror").

Definition abortMessage (message : string) : bool :=
  Js.includes message "operation was aborted"
  || Js.includes message "signal is aborted"
  || bool_decide (message = "aborterror").

(** [isAbortLikeOpenCodeError] *)
Definition isAbortLikeOpenCodeError (error : ErrVal) : bool :=
  match errorDetails error with
  | None => false
  | Some (name, message, dataMessage) =>
      if from_option (λ n, abortName (Js.toLowerCase n)) false name then true
      else
        let messages := Js.toLowerCase <$> omap id [message; dataMessage] in
        existsb abortMessage messages
  end.

(** ** The processor's methods *)

Definition with_assistant (s : State) (v : option string) : State :=
  {| currentAssistantMessageId := v;
     currentOpenCodeUserMessageId := currentOpenCodeUserMessageId s;
     toolStates := toolStates s;
     runningToolWatch := runningToolWatch s;
     sentToolEvents := sentToolEvents s |}.

Definition with_user (s : State) (v : option string) : State :=
  {| currentAssistantMessageId := currentAssistantMessageId s;
     currentOpenCodeUserMessageId := v;
     toolStates := toolStates s;
     runningToolWatch := runningToolWatch s;
     sentToolEvents := sentToolEvents s |}.

Definition with_watch (s : State) (v : list (string * ToolWatch)) : State :=
  {| currentAssistantMessageId := currentAssistantMessageId s;
     currentOpenCodeUserMessageId := currentOpenCodeUserMessageId s;
     toolStates := toolStates s;
     runningToolWatch := v;
     sentToolEvents := sentToolEvents s |}.

Definition with_sent (s : State) (v : gset string) : State :=
  {| currentAssistantMessageId := currentAssistantMessageId s;
     currentOpenCodeUserMessageId := currentOpenCodeUserMessageId s;
     toolStates := toolStates s;
     runningToolWatch := runningToolWatch s;
     sentToolEvents := v |}.

(** [resetForNewPrompt] *)
Definition resetForNewPrompt (s : State) : State :=
  {| currentAssistantMessageId := None;
     currentOpenCodeUserMessageId := None;
     toolStates := ∅;
     runningToolWatch := [];
     sentToolEvents := ∅ |}.

(** [getCurrentAssistantMessageId] *)
Definition getCurrentAssistantMessageId (s : State) : option string :=
  currentAssistantMessageId s.

(** [clearCurrentAssistantMessageId] *)
Definition clearCurrentAssistantMessageId (s : State) : State :=
  {| currentAssistantMessageId := None;
     currentOpenCodeUserMessageId := currentOpenCodeUserMessageId s;
     toolStates := ∅;
     runningToolWatch := [];
     sentToolEvents := ∅ |}.

(** [hasRunningTools] *)
Definition hasRunningTools (s : State) : bool :=
  bool_decide (map_Exists (λ _ st, status st = Running) (toolStates s)).

(** The block [if (!this.currentAssistantMessageId) { ... broadcast message }]
    that opens the assistant branch of [handleMessageUpdate] and of
    [handleTextPart] and all of [handleToolPart].  Returns the slot's value
    after the block as well. *)
Definition ensureAssistantMessage (s : State) (env : Env) (messageId : string)
  : State * list Out * string :=
  match currentAssistantMessageId s with
  | Some cur =>
      if Js.truthy cur then (s, [], cur)
      else (with_assistant s (Some messageId),
            [Broadcast (MsgMessage messageId (clock_created env))], messageId)
  | None =>
      (with_assistant s (Some messageId),
       [Broadcast (MsgMessage messageId (clock_created env))], messageId)
  end.

(** [completeCurrentMessage] *)
Definition completeCurrentMessage (s : State) : State * list Out :=
  match currentAssistantMessageId s with
  | None => (s, [])
  | Some cur =>
      if negb (Js.truthy cur) then (s, [])
      else if hasRunningTools s then (s, [])
      else
        let hadTools := bool_decide (0 < size (toolStates s))%nat in
        ({| currentAssistantMessageId := if hadTools then None else Some cur;
            currentOpenCodeUserMessageId := currentOpenCodeUserMessageId s;
            toolStates := ∅;
            runningToolWatch := [];
            sentToolEvents := ∅ |},
         [OnMessageComplete; Broadcast (MsgMessageComplete cur)])
  end.

(** The session id a [message.updated] carries: [info.sessionID] if it is a
    string, else [info.sessionId]. *)
Definition infoSessionId (info : MessageInfo) : option string :=
  match info_sessionID info with
  | Some x => Some x
  | None => info_sessionId info
  end.

(** [handleMessageUpdate] *)
Definition handleMessageUpdate (s : State) (env : Env) (properties : option Props)
  : State * list Out :=
  match properties ≫= p_info with
  | None => (s, [])
  | Some info =>
      match info_id info, info_role info with
      | Some messageId, Some role =>
          if negb (Js.truthy messageId) || negb (Js.truthy role) then (s, [])
          else if Js.truthy_opt (openCodeSessionId env)
                  && Js.truthy_opt (infoSessionId info)
                  && negb (bool_decide (infoSessionId info = openCodeSessionId env))
          then (s, [])
          else if bool_decide (role = "user") then
            match currentOpenCodeUserMessageId s with
            | None => (with_user s (Some messageId), [])
            | Some _ => (s, [])
            end
          else if negb (bool_decide (role = "assistant")) then (s, [])
          else
            let '(s1, out1, cur) := ensureAssistantMessage s env messageId in
            if negb (bool_decide (cur = messageId)) then (s1, out1)
            else
              let out2 :=
                match getOpenCodeErrorMessage (info_error info) with
                | Some errorMessage =>
                    if negb (Js.truthy errorMessage) then []
                    else if isAbortLikeOpenCodeError (info_error info) then []
                    else [Broadcast (MsgError errorMessage)]
                | None => []
                end in
              if info_completed info then
                let '(s2, out3) := completeCurrentMessage s1 in
                (s2, out1 ++ out2 ++ out3)
              else (s1, out1 ++ out2)
      | _, _ => (s, [])
      end
  end.

(** [handleTextPart], called with the validated [part.id] and
    [part.messageID]. *)
Definition handleTextPart (s : State) (env : Env)
    (partId messageID : string) (part : Part) (delta : option string)
  : State * list Out :=
  let s0 :=
    match currentOpenCodeUserMessageId s with
    | None => with_user s (Some messageID)
    | Some _ => s
    end in
  if bool_decide (currentOpenCodeUserMessageId s0 = Some messageID) then (s0, [])
  else
    let '(s1, out1, cur) := ensureAssistantMessage s0 env messageID in
    let complete :=
      match part_text part with
      | Some text =>
          if Js.truthy text
          then [Broadcast (MsgTextPartComplete cur partId text); OnTextPartComplete text]
          else []
      | None => []
      end in
    match delta with
    | Some d =>
        if Js.truthy d then (s1, out1 ++ [Broadcast (MsgToken cur partId d)])
        else (s1, out1 ++ complete)
    | None => (s1, out1 ++ complete)
    end.

(** Result of a handler that may throw: the fields as the handler left them,
    the effects performed before it returned or threw, and whether it threw. *)
Record Res := {
  res_state : State;
  res_out : list Out;
  res_thrown : bool
}.

Definition returned (r : State * list Out) : Res :=
  {| res_state := r.1; res_out := r.2; res_thrown := false |}.

(** First part of [handleToolPart]: "Emit tool_start on first sighting" and
    the args update. *)
Definition toolStartPhase (s : State) (now : Z)
    (cur partId toolCallId tool : string) (args : list (string * string))
  : State * list Out :=
  let hasArgs := bool_decide (0 < length args)%nat in
  let startKey := partId +:+ ":start" in
  let argsKey := partId +:+ ":args" in
  if negb (bool_decide (startKey ∈ sentToolEvents s)) then
    let sent1 := {[startKey]} ∪ sentToolEvents s in
    let sent2 := if hasArgs then {[argsKey]} ∪ sent1 else sent1 in
    ({| currentAssistantMessageId := currentAssistantMessageId s;
        currentOpenCodeUserMessageId := currentOpenCodeUserMessageId s;
        toolStates :=
          <[toolCallId := {| startEmitted := true; argsEmitted := hasArgs;
                             endEmitted := false; status := Running |}]> (toolStates s);
        runningToolWatch :=
          Watch.set toolCallId
            {| toolName := tool; startedAt := now; lastUpdateAt := now;
               lastStatusBroadcastAt := 0 |} (runningToolWatch s);
        sentToolEvents := sent2 |},
     [Broadcast (MsgToolStart cur partId toolCallId tool args);
      OnToolStart toolCallId])
  else if hasArgs && negb (bool_decide (argsKey ∈ sentToolEvents s)) then
    (with_watch (with_sent s ({[argsKey]} ∪ sentToolEvents s))
       (Watch.touch toolCallId now tool (runningToolWatch s)),
     [Broadcast (MsgToolStart cur partId toolCallId tool args)])
  else (s, []).

(** One entry of [summarySignature]; [None] when [item.state] is missing, in
    which case reading [item.state.status] throws. *)
Definition summaryEntry (item : SummaryItem) : option string :=
  st ← si_state item;
  Some (Js.tmpl (si_id item) +:+ ":" +:+ Js.tmpl (si_tool item) +:+ ":"
        +:+ Js.tmpl (sis_status st) +:+ ":" +:+ default "" (sis_title st)).

(** Second part of [handleToolPart]: "Handle metadata". *)
Definition toolMetadataPhase (s : State) (now : Z)
    (partId toolCallId tool : string) (state : option PartState) : Res :=
  match state ≫= ps_metadata with
  | None => returned (s, [])
  | Some metadata =>
      match md_summary metadata with
      | None => returned (s, [])
      | Some summary =>
          match mapM summaryEntry summary with
          | None => {| res_state := s; res_out := []; res_thrown := true |}
          | Some entries =>
              let summarySignature := Js.join "|" entries in
              let title := state ≫= ps_title in
              let summaryTitle := default "" title in
              let summaryKey :=
                partId +:+ ":summary:" +:+ summaryTitle +:+ ":" +:+ summarySignature in
              if negb (bool_decide (summaryKey ∈ sentToolEvents s)) then
                returned
                  (with_watch (with_sent s ({[summaryKey]} ∪ sentToolEvents s))
                     (Watch.touch toolCallId now tool (runningToolWatch s)),
                   [Broadcast (MsgToolMetadata toolCallId tool title metadata);
                    OnToolMetadata title])
              else returned (s, [])
          end
      end
  end.

Definition endStatus (st : ToolState) (completed : bool) : ToolState :=
  {| startEmitted := startEmitted st; argsEmitted := argsEmitted st;
     endEmitted := true;
     status := if completed then Completed else Errored |}.

(** Third part of [handleToolPart]: "Handle completion". *)
Definition toolEndPhase (s : State)
    (partId toolCallId tool : string) (state : option PartState)
  : State * list Out :=
  let status := state ≫= ps_status in
  let endKey := partId +:+ ":end" in
  if bool_decide (status = Some "completed") || bool_decide (status = Some "error") then
    if negb (bool_decide (endKey ∈ sentToolEvents s)) then
      let result :=
        default " " (Js.or_else (state ≫= ps_output) (Js.or_else (state ≫= ps_error) None)) in
      ({| currentAssistantMessageId := currentAssistantMessageId s;
          currentOpenCodeUserMessageId := currentOpenCodeUserMessageId s;
          toolStates :=
            alter (λ st, endStatus st (bool_decide (status = Some "completed")))
                  toolCallId (toolStates s);
          runningToolWatch := Watch.delete toolCallId (runningToolWatch s);
          sentToolEvents := {[endKey]} ∪ sentToolEvents s |},
       [Broadcast (MsgToolEnd partId toolCallId tool result 0)])
    else (s, [])
  else (s, []).

(** [handleToolPart], called with the validated [part.id] and
    [part.messageID]. *)
Definition handleToolPart (s : State) (env : Env)
    (partId messageID : string) (part : Part) (toolCallId toolName : string) : Res :=
  let '(s1, out1, cur) := ensureAssistantMessage s env messageID in
  let args := default [] (part_state part ≫= ps_input) in
  let now := clock_tool env in
  let '(s2, out2) := toolStartPhase s1 now cur partId toolCallId toolName args in
  let r := toolMetadataPhase s2 now partId toolCallId toolName (part_state part) in
  if res_thrown r then
    {| res_state := res_state r; res_out := out1 ++ out2 ++ res_out r; res_thrown := true |}
  else
    let '(s4, out4) := toolEndPhase (res_state r) partId toolCallId toolName (part_state part) in
    {| res_state := s4; res_out := out1 ++ out2 ++ res_out r ++ out4; res_thrown := false |}.

(** [handlePartUpdate].  Destructuring missing properties throws. *)
Definition handlePartUpdate (s : State) (env : Env) (props : option Props) : Res :=
  match props with
  | None => {| res_state := s; res_out := []; res_thrown := true |}
  | Some props =>
      match p_part props with
      | None => returned (s, [])
      | Some part =>
          match part_id part, part_messageID part, part_type part with
          | Some partId, Some messageID, Some type =>
              if negb (Js.truthy partId) || negb (Js.truthy messageID)
                 || negb (Js.truthy type)
              then returned (s, [])
              else if Js.truthy_opt (openCodeSessionId env)
                      && negb (bool_decide (part_sessionID part = openCodeSessionId env))
              then returned (s, [])
              else if bool_decide (type = "text")
              then returned (handleTextPart s env partId messageID part (p_delta props))
              else
                match part_callID part, part_tool part with
                | Some callID, Some tool =>
                    if Js.truthy callID && Js.truthy tool
                    then handleToolPart s env partId messageID part callID tool
                    else returned (s, [])
                | _, _ => returned (s, [])
                end
          | _, _, _ => returned (s, [])
          end
      end
  end.

(** [handleSessionIdle] *)
Definition handleSessionIdle (s : State) : State * list Out :=
  completeCurrentMessage s.

(** [handleSessionStatus] *)
Definition handleSessionStatus (s : State) (properties : option Props)
  : State * list Out :=
  match properties with
  | None => (s, [])
  | Some properties =>
      if bool_decide (p_status_type properties = Some "idle")
      then completeCurrentMessage s
      else (s, [])
  end.

(** The text [handleSessionError] broadcasts:
    [error?.data?.message || error?.name || "Unknown error"]. *)
Definition sessionErrorMessage (error : ErrVal) : string :=
  match error with
  | ErrObj name _ dataMessage =>
      default "Unknown error" (Js.or_else dataMessage (Js.or_else name None))
  | _ => "Unknown error"
  end.

(** [handleSessionError] *)
Definition handleSessionError (s : State) (properties : option Props)
  : State * list Out :=
  match properties with
  | None => (s, [])
  | Some properties =>
      if isAbortLikeOpenCodeError (p_error properties) then (s, [])
      else (s, [Broadcast (MsgError (sessionErrorMessage (p_error properties)))])
  end.

Definition toolProgressHeartbeatMs : Z := 15000.

(** The two tests of the heartbeat loop that [continue]. *)
Definition heartbeatDue (now : Z) (watch : ToolWatch) : bool :=
  negb (now - lastUpdateAt watch <? toolProgressHeartbeatMs)
  && negb (now - lastStatusBroadcastAt watch <? toolProgressHeartbeatMs).

Definition heartbeatMessage (now : Z) (watch : ToolWatch) : string :=
  let elapsedSeconds := Z.max 1 ((now - startedAt watch) `div` 1000) in
  let quietSeconds := Z.max 1 ((now - lastUpdateAt watch) `div` 1000) in
  "Working on " +:+ toolName watch +:+ " (" +:+ pretty elapsedSeconds
  +:+ "s elapsed, no update for " +:+ pretty quietSeconds +:+ "s)".

Definition stamped (now : Z) (watch : ToolWatch) : ToolWatch :=
  {| toolName := toolName watch; startedAt := startedAt watch;
     lastUpdateAt := lastUpdateAt watch; lastStatusBroadcastAt := now |}.

(** The [for ... of this.runningToolWatch] loop. *)
Fixpoint heartbeatLoop (now : Z) (watches : list (string * ToolWatch))
  : list (string * ToolWatch) * list Out :=
  match watches with
  | [] => ([], [])
  | (toolCallId, watch) :: rest =>
      let '(rest', out) := heartbeatLoop now rest in
      if heartbeatDue now watch
      then ((toolCallId, stamped now watch) :: rest',
            Broadcast (MsgStatus "running" (heartbeatMessage now watch))
              :: LogHeartbeat toolCallId :: out)
      else ((toolCallId, watch) :: rest', out)
  end.

(** [maybeBroadcastToolProgressHeartbeat] *)
Definition maybeBroadcastToolProgressHeartbeat (s : State) (env : Env)
  : State * list Out :=
  if bool_decide (length (runningToolWatch s) = 0%nat) then (s, [])
  else
    let '(watches, out) := heartbeatLoop (clock_heartbeat env) (runningToolWatch s) in
    (with_watch s watches, out).

(** The [switch] of [process]. *)
Definition dispatch (s : State) (env : Env) (event : OpenCodeEvent) : Res :=
  match ev_type event with
  | Some type =>
      if bool_decide (type = "server.connected") || bool_decide (type = "server.heartbeat")
      then returned (s, [])
      else if bool_decide (type = "message.updated")
      then returned (handleMessageUpdate s env (ev_properties event))
      else if bool_decide (type = "message.part.updated")
      then handlePartUpdate s env (ev_properties event)
      else if bool_decide (type = "session.idle")
      then returned (handleSessionIdle s)
      else if bool_decide (type = "session.status")
      then returned (handleSessionStatus s (ev_properties event))
      else if bool_decide (type = "session.error")
      then returned (handleSessionError s (ev_properties event))
      else returned (s, [])
  | None => returned (s, [])
  end.

(** [process]: the heartbeat, the switch, and the [catch] that logs. *)
Definition process (s : State) (env : Env) (event : OpenCodeEvent) : State * list Out :=
  let '(s1, out1) := maybeBroadcastToolProgressHeartbeat s env in
  let r := dispatch s1 env event in
  if res_thrown r
  then (res_state r, out1 ++ res_out r ++ [LogProcessingError (ev_type event)])
  else (res_state r, out1 ++ res_out r).

(** Feeding a sequence of events, each with what its call reads from outside;
    the effects of the calls, one list per call. *)
Fixpoint run (s : State) (calls : list (Env * OpenCodeEvent)) : State * list (list Out) :=
  match calls with
  | [] => (s, [])
  | (env, event) :: rest =>
      let '(s1, out) := process s env event in
      let '(s2, outs) := run s1 rest in
      (s2, out :: outs)
  end.

(** ** The VPS sandbox provider

    The provider talks to a Docker host over SSH.  An awaited promise either
    resolves or rejects; what the host answers is an input of the model.  Each
    method returns, besides its own outcome, the provider methods it called,
    so that "does not create a sandbox" can be stated. *)

Module Provider.

Inductive Promise (A : Type) :=
  | Resolved (a : A)
  | Rejected (reason : string).
Arguments Resolved {A} a.
Arguments Rejected {A} reason.

(** What [ssh.execCommand] resolves to; [code] is null when the remote
    process did not exit by itself. *)
Record SSHExecResponse := {
  ssh_stdout : string;
  ssh_stderr : string;
  ssh_code : option Z
}.

Record CreateSandboxOpts := {
  opt_sessionId : string;
  opt_snapshotId : option string;
  opt_currentSandboxId : option string
}.

Record CreateSandboxResult := {
  created_sandboxId : string;
  created_tunnelUrl : string;
  created_previewUrl : string;
  created_expiresAt : Z
}.

Record EnsureSandboxResult := {
  sandboxId : string;
  tunnelUrl : string;
  previewUrl : string;
  expiresAt : option Z;
  recovered : bool
}.

Record ExecOpts := {
  exec_cwd : option string;
  exec_timeoutMs : option Z;
  exec_env : option (list (string * string))
}.

Record ExecResult := {
  stdout : string;
  stderr : string;
  exitCode : Z
}.

Inductive Call :=
  | CallCheckSandboxes (sandboxIds : list string)
  | CallResolveTunnels (sandboxId : string)
  | CallCreateSandbox (opts : CreateSandboxOpts).

Definition asEnsured (result : CreateSandboxResult) : EnsureSandboxResult :=
  {| sandboxId := created_sandboxId result;
     tunnelUrl := created_tunnelUrl result;
     previewUrl := created_previewUrl result;
     expiresAt := Some (created_expiresAt result);
     recovered := false |}.

Definition creates (calls : list Call) : bool :=
  existsb (λ c, match c with CallCreateSandbox _ => true | _ => false end) calls.

Definition char (n : nat) : string := String (ascii_of_nat n) EmptyString.
Definition dquote : string := Eval cbv in char 34.
Definition newline : ascii := Eval cbv in ascii_of_nat 10.

(** White space for [trim], within ASCII: tab, line feed, vertical tab,
    form feed, carriage return and space. *)
Definition isSpace (c : ascii) : bool :=
  let n := nat_of_ascii c in
  (Nat.leb 9 n && Nat.leb n 13) || Nat.eqb n 32.

Fixpoint trimStart (s : string) : string :=
  match s with
  | EmptyString => EmptyString
  | String c t => if isSpace c then trimStart t else s
  end.

Fixpoint trimEnd (s : string) : string :=
  match s with
  | EmptyString => EmptyString
  | String c t =>
      match trimEnd t with
      | EmptyString => if isSpace c then EmptyString else String c EmptyString
      | t' => String c t'
      end
  end.

Definition trim (s : string) : string := trimEnd (trimStart s).

(** [s.split(sep)] for a one-character separator. *)
Fixpoint split (sep : ascii) (s : string) : list string :=
  match s with
  | EmptyString => [EmptyString]
  | String c t =>
      if bool_decide (c = sep) then EmptyString :: split sep t
      else
        match split sep t with
        | [] => [String c EmptyString]
        | piece :: pieces => String c piece :: pieces
        end
  end.

Section Host.

(** [sshPool.getConnection(this.host)] followed by [ssh.execCommand]:
    rejects when the host cannot be reached. *)
Variable ssh : string → Promise SSHExecResponse.

(** [shellEscape] of [../sandbox]. *)
Variable shellEscape : string → string.

(** [resolveTunnels]: its port numbers come from a regular-expression
    scan of the host's answer, and none of the properties below depends
    on which ports that finds. *)
Variable resolveTunnels : string → Promise (string * string).

(** [createSandbox]: container start-up and configuration, of which
    [ensureSandbox] only passes on the outcome. *)
Variable createSandbox : CreateSandboxOpts → Promise CreateSandboxResult.

Definition dockerPsRunning : string :=
  "docker ps --filter " +:+ dquote +:+ "status=running" +:+ dquote
  +:+ " --format " +:+ dquote +:+ "{{.ID}}" +:+ dquote.

(** [checkSandboxes] *)
Definition checkSandboxes (sandboxIds : list string) : Promise (list string) :=
  match ssh dockerPsRunning with
  | Rejected reason => Rejected reason
  | Resolved result =>
      let runningIds :=
        List.filter Js.truthy (split newline (trim (ssh_stdout result))) in
      Resolved
        (List.filter (λ id, existsb (λ rid, Js.startsWith rid id) runningIds)
           sandboxIds)
  end.

(** [ensureSandbox] *)
Definition ensureSandbox (opts : CreateSandboxOpts)
  : list Call * Promise EnsureSandboxResult :=
  let create (before : list Call) :=
    (before ++ [CallCreateSandbox opts],
     match createSandbox opts with
     | Rejected reason => Rejected reason
     | Resolved result =>
         Resolved {| sandboxId := created_sandboxId result;
                     tunnelUrl := created_tunnelUrl result;
                     previewUrl := created_previewUrl result;
                     expiresAt := Some (created_expiresAt result);
                     recovered := false |}
     end) in
  match opt_currentSandboxId opts with
  | Some current =>
      if Js.truthy current then
        match checkSandboxes [current] with
        | Rejected reason => ([CallCheckSandboxes [current]], Rejected reason)
        | Resolved alive =>
            if bool_decide (0 < length alive)%nat then
              ([CallCheckSandboxes [current]; CallResolveTunnels current],
               match resolveTunnels current with
               | Rejected reason => Rejected reason
               | Resolved (openCodeUrl, preview) =>
                   Resolved {| sandboxId := current;
                               tunnelUrl := openCodeUrl;
                               previewUrl := preview;
                               expiresAt := None;
                               recovered := true |}
               end)
            else create [CallCheckSandboxes [current]]
        end
      else create []
  | None => create []
  end.

(** [Math.ceil(timeoutMs / 1000)] for a whole number of milliseconds. *)
Definition ceilSeconds (timeoutMs : Z) : Z := - ((- timeoutMs) `div` 1000).

(** The command line [execCommand] sends to the host. *)
Definition execCommandLine (sandbox : string) (argv : list string)
    (opts : option ExecOpts) : string :=
  let cwd := opts ≫= exec_cwd in
  let timeoutMs := default 30000 (opts ≫= exec_timeoutMs) in
  let envVars :=
    match opts ≫= exec_env with
    | Some cmdEnv =>
        Js.join " " ((λ kv, shellEscape kv.1 +:+ "=" +:+ shellEscape kv.2) <$> cmdEnv)
    | None => ""
    end in
  let cwdFlag :=
    match cwd with
    | Some dir => if Js.truthy dir then "cd " +:+ dir +:+ " && " else ""
    | None => ""
    end in
  let timeoutFlag :=
    if bool_decide (timeoutMs = 0) then ""
    else "timeout " +:+ pretty (ceilSeconds timeoutMs) +:+ "s " in
  let cmd := Js.join " " (shellEscape <$> argv) in
  "docker exec " +:+ sandbox +:+ " sh -c '" +:+ cwdFlag +:+ envVars +:+ " "
  +:+ timeoutFlag +:+ cmd +:+ "'".

(** [execCommand] *)
Definition execCommand (sandbox : string) (argv : list string)
    (opts : option ExecOpts) : Promise ExecResult :=
  match ssh (execCommandLine sandbox argv opts) with
  | Rejected reason => Rejected reason
  | Resolved result =>
      Resolved {| stdout := ssh_stdout result;
                  stderr := ssh_stderr result;
                  exitCode := default (-1) (ssh_code result) |}
  end.

End Host.

End Provider.

(** ** Observations on the effects of a call *)

Definition isMessage (o : Out) : bool :=
  match o with Broadcast (MsgMessage _ _) => true | _ => false end.

Definition isToken (o : Out) : bool :=
  match o with Broadcast (MsgToken _ _ _) => true | _ => false end.

Definition isTextPartComplete (o : Out) : bool :=
  match o with Broadcast (MsgTextPartComplete _ _ _) => true | _ => false end.

Definition isToolStart (o : Out) : bool :=
  match o with Broadcast (MsgToolStart _ _ _ _ _) => true | _ => false end.

Definition isToolEnd (o : Out) : bool :=
  match o with Broadcast (MsgToolEnd _ _ _ _ _) => true | _ => false end.

Definition isMessageComplete (o : Out) : bool :=
  match o with Broadcast (MsgMessageComplete _) => true | _ => false end.

Definition isError (o : Out) : bool :=
  match o with Broadcast (MsgError _) => true | _ => false end.

(** The effects of the heartbeat: a [status: running] broadcast and its log
    record. *)
Definition isHeartbeat (o : Out) : bool :=
  match o with
  | Broadcast (MsgStatus st _) => bool_decide (st = "running")
  | LogHeartbeat _ => true
  | _ => false
  end.

(** How many of the effects satisfy [p]. *)
Definition count (p : Out → bool) (out : list Out) : nat :=
  length (List.filter p out).


Definition quietEnv : Env :=
  {| clock_heartbeat := 0; clock_created := 0; clock_tool := 0;
     openCodeSessionId := None |}.

(** ** Sample hosts for the provider *)

(** A host on which the container 3f2a... is running. *)
Definition hostWithContainer (cmd : string) : Provider.Promise Provider.SSHExecResponse :=
  Provider.Resolved
    {| Provider.ssh_stdout :=
         "3f2a9b1c0d4e" +:+ String Provider.newline "77aa10b2c3d4" +:+ String Provider.newline "";
       Provider.ssh_stderr := "";
       Provider.ssh_code := Some 0 |}.

Definition hostTunnels (sandbox : string) : Provider.Promise (string * string) :=
  Provider.Resolved ("http://vps:32768", "http://vps:32769").

Definition createdSandbox : Provider.CreateSandboxResult :=
  {| Provider.created_sandboxId := "9c41d7";
     Provider.created_tunnelUrl := "http://vps:40000";
     Provider.created_previewUrl := "http://vps:40001";
     Provider.created_expiresAt := 3600000 |}.

Definition hostCreates (opts : Provider.CreateSandboxOpts)
  : Provider.Promise Provider.CreateSandboxResult :=
  Provider.Resolved createdSandbox.

Definition recoverOpts : Provider.CreateSandboxOpts :=
  {| Provider.opt_sessionId := "s1"; Provider.opt_snapshotId := None;
     Provider.opt_currentSandboxId := Some "3f2a" |}.

Definition freshOpts : Provider.CreateSandboxOpts :=
  {| Provider.opt_sessionId := "s1"; Provider.opt_snapshotId := Some "snap-1";
     Provider.opt_currentSandboxId := None |}.

(** A host on which the command exits with code 2, and one on which it is
    killed before it exits. *)
Definition hostExits (cmd : string) : Provider.Promise Provider.SSHExecResponse :=
  Provider.Resolved
    {| Provider.ssh_stdout := ""; Provider.ssh_stderr := "boom";
       Provider.ssh_code := Some 2 |}.

Definition hostKilled (cmd : string) : Provider.Promise Provider.SSHExecResponse :=
  Provider.Resolved
    {| Provider.ssh_stdout := ""; Provider.ssh_stderr := ""; Provider.ssh_code := None |}.

(** ** Observations on sequences of calls *)

(** The assistant-message slot holds an id: [!!this.currentAssistantMessageId]. *)
Definition slotSet (s : State) : bool :=
  Js.truthy_opt (currentAssistantMessageId s).

(** For each call of a sequence: the fields before it, its effects, and the
    fields after it. *)
Fixpoint trace (s : State) (calls : list (Env * OpenCodeEvent))
  : list (State * list Out * State) :=
  match calls with
  | [] => []
  | (env, event) :: rest =>
      let r := process s env event in
      (s, r.2, r.1) :: trace r.1 rest
  end.


(** The effects of [handleToolPart] once the assistant message exists. *)
Definition isToolEffect (o : Out) : bool :=
  match o with
  | Broadcast (MsgToolStart _ _ _ _ _) | Broadcast (MsgToolMetadata _ _ _ _)
  | Broadcast (MsgToolEnd _ _ _ _ _) | OnToolStart _ | OnToolMetadata _ => true
  | _ => false
  end.

(** Tools are only tracked while the assistant-message slot holds an id.
    True of the initial fields and kept by every method. *)
Definition consistent (s : State) : Prop :=
  slotSet s = false → toolStates s = ∅.

(** What every call guarantees about the assistant message, the completion of
    a message, and the user-message and sent-event bookkeeping; [s] are the
    fields before, [out] the effects, [s'] the fields after. *)
Record Step (s : State) (out : list Out) (s' : State) : Prop := {
  step_message :
    (count isMessage out ≤ if slotSet s then 0 else 1)%nat;
  step_complete :
    (count isMessageComplete out ≤ 1)%nat;
  step_complete_tools :
    (0 < count isMessageComplete out)%nat →
    hasRunningTools s = false ∧ toolStates s' = ∅;
  step_slot_kept :
    count isMessageComplete out = 0%nat → slotSet s = true →
    currentAssistantMessageId s' = currentAssistantMessageId s;
  step_message_sets :
    count isMessage out = 1%nat →
    count isMessageComplete out = 0%nat ∨ consistent s → slotSet s' = true;
  step_set_message :
    slotSet s = false → slotSet s' = true → count isMessage out = 1%nat;
  step_consistent :
    consistent s → consistent s';
  step_sent :
    count isMessageComplete out = 0%nat → sentToolEvents s ⊆ sentToolEvents s';
  step_user :
    ∀ u, currentOpenCodeUserMessageId s = Some u →
         currentOpenCodeUserMessageId s' = Some u
}.

(** A part of [handleToolPart] leaves the two message ids alone, only adds
    sent-event keys, and has tool effects only. *)
Definition toolPhase (s : State) (out : list Out) (s' : State) : Prop :=
  forallb isToolEffect out = true
  ∧ currentAssistantMessageId s' = currentAssistantMessageId s
  ∧ currentOpenCodeUserMessageId s' = currentOpenCodeUserMessageId s
  ∧ sentToolEvents s ⊆ sentToolEvents s'.

(** ** Well-formed events, for stating scenarios *)

Definition messageUpdated (info : MessageInfo) : OpenCodeEvent :=
  {| ev_type := Some "message.updated";
     ev_properties :=
       Some {| p_info := Some info; p_part := None; p_delta := None;
               p_status_type := None; p_error := ErrAbsent |} |}.

Definition messageInfo (sessionID messageID role : string) : MessageInfo :=
  {| info_id := Some messageID; info_role := Some role;
     info_sessionID := Some sessionID; info_sessionId := None;
     info_error := ErrAbsent; info_completed := false |}.

Definition partUpdated (part : Part) (delta : option string) : OpenCodeEvent :=
  {| ev_type := Some "message.part.updated";
     ev_properties :=
       Some {| p_info := None; p_part := Some part; p_delta := delta;
               p_status_type := None; p_error := ErrAbsent |} |}.

Definition toolPart (sessionID messageID partID callID tool : string)
    (state : option PartState) : Part :=
  {| part_id := Some partID; part_messageID := Some messageID;
     part_type := Some "tool"; part_sessionID := Some sessionID;
     part_callID := Some callID; part_tool := Some tool;
     part_text := None; part_state := state |}.

Definition textPart (sessionID messageID partID : string) (text : option string) : Part :=
  {| part_id := Some partID; part_messageID := Some messageID;
     part_type := Some "text"; part_sessionID := Some sessionID;
     part_callID := None; part_tool := None;
     part_text := text; part_state := None |}.

(** A tool state without metadata. *)
Definition toolState (status : string) (input : list (string * string))
    (output : option string) : PartState :=
  {| ps_status := Some status; ps_input := Some input; ps_output := output;
     ps_error := None; ps_title := None; ps_metadata := None |}.

Definition sessionIdle : OpenCodeEvent :=
  {| ev_type := Some "session.idle"; ev_properties := None |}.

Definition sessionStatus (type : string) : OpenCodeEvent :=
  {| ev_type := Some "session.status";
     ev_properties :=
       Some {| p_info := None; p_part := None; p_delta := None;
               p_status_type := Some type; p_error := ErrAbsent |} |}.

(** The two ways the session reports idle. *)
Definition Idle (event : OpenCodeEvent) : Prop :=
  event = sessionIdle ∨ event = sessionStatus "idle".

(** The call does not take events of session [sessionID] for another
    session's. *)
Definition accepts (env : Env) (sessionID : string) : Prop :=
  openCodeSessionId env = None ∨ openCodeSessionId env = Some sessionID.

(** All effects of a sequence of calls. *)
Definition effects (s : State) (calls : list (Env * OpenCodeEvent)) : list Out :=
  concat (run s calls).2.

Definition final (s : State) (calls : list (Env * OpenCodeEvent)) : State :=
  (run s calls).1.

(** Reading [item.state.status] of a summary item without [state] throws. *)
Definition summaryThrows (state : option PartState) : bool :=
  match (state ≫= ps_metadata) ≫= md_summary with
  | Some summary => bool_decide (mapM summaryEntry summary = None)
  | None => false
  end.

Definition hasArgs (state : option PartState) : bool :=
  bool_decide (0 < length (default [] (state ≫= ps_input)))%nat.

Definition isCompletion (state : option PartState) : bool :=
  bool_decide (state ≫= ps_status = Some "completed")
  || bool_decide (state ≫= ps_status = Some "error").

(** The sent-event keys say that nothing is left to emit for this state of
    the part: processing it again emits neither [tool_start] nor [tool_end]. *)
Definition settled (partId : string) (state : option PartState) (s : State) : Prop :=
  partId +:+ ":start" ∈ sentToolEvents s
  ∧ (hasArgs state = true → partId +:+ ":args" ∈ sentToolEvents s)
  ∧ (isCompletion state = true → summaryThrows state = false →
     partId +:+ ":end" ∈ sentToolEvents s).

(** The fields after the tool has started and before it has ended. *)
Definition toolRunning (partID callID : string) (s : State) : Prop :=
  slotSet s = true
  ∧ (∃ st, toolStates s = {[callID := st]} ∧ status st = Running)
  ∧ partID +:+ ":start" ∈ sentToolEvents s
  ∧ partID +:+ ":end" ∉ sentToolEvents s.

(** The fields after the tool has ended. *)
Definition toolEnded (callID : string) (s : State) : Prop :=
  slotSet s = true
  ∧ ∃ st, toolStates s = {[callID := st]} ∧ status st ≠ Running.

(** ** Message ids in events and in broadcasts *)

(** The assistant-message id a broadcast carries, if any. *)
Definition carriedMessageId (o : Out) : option string :=
  match o with
  | Broadcast (MsgMessage id _) => Some id
  | Broadcast (MsgToken messageId _ _) => Some messageId
  | Broadcast (MsgTextPartComplete messageId _ _) => Some messageId
  | Broadcast (MsgToolStart messageId _ _ _ _) => Some messageId
  | Broadcast (MsgMessageComplete messageId) => Some messageId
  | _ => None
  end.

(** The message ids an event mentions: [info.id] and [part.messageID]. *)
Definition eventMessageIds (event : OpenCodeEvent) : list string :=
  match ev_properties event with
  | Some props =>
      omap id [p_info props ≫= info_id; p_part props ≫= part_messageID]
  | None => []
  end.

(** Every message id carried by the effects satisfies [P]. *)
Definition Carries (P : string → Prop) (out : list Out) : Prop :=
  ∀ o id, o ∈ out → carriedMessageId o = Some id → P id.

(** The assistant-message slot is empty or holds an id that satisfies [P]. *)
Definition slotIn (P : string → Prop) (s : State) : Prop :=
  ∀ id, currentAssistantMessageId s = Some id → P id.

(** Neither a [tool_start] nor a [tool_end] broadcast. *)
Definition notToolEvent (o : Out) : bool := negb (isToolStart o || isToolEnd o).

(** A finished shell command, as the agent reports it. *)
Definition finishedTool : OpenCodeEvent :=
  partUpdated
    (toolPart "ses" "msg_1" "prt_1" "call_1" "bash"
       (Some (toolState "completed" [("command", "ls")] (Some "ok")))) None.

(** ** Events the switch ignores *)




Definition serverHeartbeat : OpenCodeEvent :=
  {| ev_type := Some "server.heartbeat"; ev_properties := None |}.

(** A shell command that has started and not finished. *)
Definition startedTool : OpenCodeEvent :=
  partUpdated
    (toolPart "ses" "msg_1" "prt_1" "call_1" "bash"
       (Some (toolState "running" [("command", "make")] None))) None.

Definition at_ (now : Z) : Env :=
  {| clock_heartbeat := now; clock_created := now; clock_tool := now;
     openCodeSessionId := Some "ses" |}.

(** A tool part whose summary has an item without [state]. *)
Definition malformedSummary : OpenCodeEvent :=
  partUpdated
    (toolPart "ses" "msg_1" "prt_1" "call_1" "task"
       (Some {| ps_status := Some "running"; ps_input := None; ps_output := None;
                ps_error := None; ps_title := None;
                ps_metadata :=
                  Some {| md_summary :=
                            Some [{| si_id := Some "t1"; si_tool := Some "bash";
                                     si_state := None |}] |} |})) None.

(** ** Observations on the tool-progress heartbeat *)



(** The heartbeat's log record names its tool; its broadcast does not. *)
Definition isHeartbeatFor (toolCallId : string) (o : Out) : bool :=
  match o with LogHeartbeat id => bool_decide (id = toolCallId) | _ => false end.

(** What the handlers of the switch can emit: anything but the heartbeat's
    effects and the log record of the [catch]. *)
Definition isHandlerEffect (o : Out) : bool :=
  match o with
  | Broadcast (MsgStatus _ _) | LogHeartbeat _ | LogProcessingError _ => false
  | _ => true
  end.

Definition watchKeys (s : State) : list string := (runningToolWatch s).*1.


(** The heartbeat-clock readings of the calls that emitted a heartbeat for
    the tool, in order. *)
Fixpoint heartbeatTimes (toolCallId : string) (s : State)
    (calls : list (Env * OpenCodeEvent)) : list Z :=
  match calls with
  | [] => []
  | (env, event) :: rest =>
      replicate (count (isHeartbeatFor toolCallId) (process s env event).2)
                (clock_heartbeat env)
      ++ heartbeatTimes toolCallId (process s env event).1 rest
  end.



(** ** Abort-like errors, read off the texts of the error *)






(** ** A call of [process], with what the caller sees of it

    [process] is typed to take an event, but its caller can hand it [null] or
    [undefined]; reading [event.type] then throws.  A primitive value has no
    [type] and no [properties], like an event that lacks both.  In the
    handlers the callbacks and the logger are taken to return normally, so
    that their exceptions come from the shape of the event. *)






(** ** Tool events of one part *)

(** A [tool_start] broadcast for the part, carrying args or none. *)
Definition isToolStartOf (partId : string) (withArgs : bool) (o : Out) : bool :=
  match o with
  | Broadcast (MsgToolStart _ p _ _ args) =>
      bool_decide (p = partId) && Bool.eqb (bool_decide (0 < length args)%nat) withArgs
  | _ => false
  end.

(** A [tool_end] broadcast for the part. *)
Definition isToolEndOf (partId : string) (o : Out) : bool :=
  match o with
  | Broadcast (MsgToolEnd p _ _ _ _) => bool_decide (p = partId)
  | _ => false
  end.

(** What the sent-event keys leave to emit for a part: a [tool_start]
    without args as long as its start key is not sent, one with args as long
    as its start key or its args key is not sent, a [tool_end] as long as its
    end key is not sent. *)
Definition startPending (partId : string) (s : State) : nat :=
  if bool_decide (partId +:+ ":start" ∈ sentToolEvents s) then 0 else 1.

Definition argsPending (partId : string) (s : State) : nat :=
  if bool_decide (partId +:+ ":start" ∈ sentToolEvents s
                  ∧ partId +:+ ":args" ∈ sentToolEvents s) then 0 else 1.

Definition endPending (partId : string) (s : State) : nat :=
  if bool_decide (partId +:+ ":end" ∈ sentToolEvents s) then 0 else 1.

(** From [s] to [s'], the tool events in [out] for the part use up what was
    left to emit for it. *)
Definition usesUp (partId : string) (s : State) (out : list Out) (s' : State) : Prop :=
  (count (isToolStartOf partId false) out + startPending partId s'
   ≤ startPending partId s)%nat
  ∧ (count (isToolStartOf partId true) out + argsPending partId s'
     ≤ argsPending partId s)%nat
  ∧ (count (isToolEndOf partId) out + endPending partId s' ≤ endPending partId s)%nat.

(** A tool that reports completion with another output, for the same part. *)
Definition finishedToolAgain : OpenCodeEvent :=
  partUpdated
    (toolPart "ses" "msg_1" "prt_1" "call_1" "bash"
       (Some (toolState "completed" [("command", "ls")] (Some "ok, 2 files")))) None.

(** ** What clients see of a running tool *)






(** ** Calls of the public methods, in any order *)

(** One call of a public method that changes the fields. *)
Inductive Method :=
  | Process (env : Env) (event : OpenCodeEvent)
  | ResetForNewPrompt
  | ClearCurrentAssistantMessageId.

Definition invoke (s : State) (m : Method) : State * list Out :=
  match m with
  | Process env event => process s env event
  | ResetForNewPrompt => (resetForNewPrompt s, [])
  | ClearCurrentAssistantMessageId => (clearCurrentAssistantMessageId s, [])
  end.

(** The fields after a sequence of calls. *)
Definition after (s : State) (ms : list Method) : State :=
  foldl (λ s m, (invoke s m).1) s ms.

(** The heartbeat watches exactly the tools whose status is running, each of
    them once. *)
Definition watchesRunning (s : State) : Prop :=
  NoDup (watchKeys s)
  ∧ ∀ id, id ∈ watchKeys s ↔ ∃ st, toolStates s !! id = Some st ∧ status st = Running.

(** Neither the tool states nor the watches changed, or both were cleared. *)
Definition toolsKeptOrCleared (s s' : State) : Prop :=
  (toolStates s' = toolStates s ∧ runningToolWatch s' = runningToolWatch s)
  ∨ (toolStates s' = ∅ ∧ runningToolWatch s' = []).

(** ** Completion of a turn *)

(** What [completeCurrentMessage] emits when it completes message [cur]. *)
Definition completion (cur : string) : list Out :=
  [OnMessageComplete; Broadcast (MsgMessageComplete cur)].

(** The fields after the echoed prompt and one streamed token of the reply. *)
Definition textOnlyTurn : State :=
  final initial
    [(at_ 0, partUpdated (textPart "ses" "msg_0" "prt_0" (Some "hi")) None);
     (at_ 1, partUpdated (textPart "ses" "msg_1" "prt_1" None) (Some "Hello"))].

(** The fields after a shell command has started and finished. *)
Definition toolTurn : State :=
  final initial [(at_ 0, startedTool); (at_ 1, finishedTool)].

(** ** Further observations on the effects of a call *)

Definition isToolMetadata (o : Out) : bool :=
  match o with Broadcast (MsgToolMetadata _ _ _ _) => true | _ => false end.

(** A [tool_end] broadcast carries a non-empty result and no duration. *)
Definition toolEndWellFormed (o : Out) : bool :=
  match o with
  | Broadcast (MsgToolEnd _ _ _ result durationMs) =>
      Js.truthy result && bool_decide (durationMs = 0)
  | _ => true
  end.

(** An update of the assistant message [messageID] with the given [error]
    and [time.completed]. *)
Definition assistantUpdate (sessionID messageID : string) (error : ErrVal)
    (completed : bool) : OpenCodeEvent :=
  messageUpdated
    {| info_id := Some messageID; info_role := Some "assistant";
       info_sessionID := Some sessionID; info_sessionId := None;
       info_error := error; info_completed := completed |}.

(** A tool part with a task summary of one item. *)
Definition summarised (status : string) : OpenCodeEvent :=
  partUpdated
    (toolPart "ses" "msg_1" "prt_1" "call_1" "task"
       (Some {| ps_status := Some "running"; ps_input := None; ps_output := None;
                ps_error := None; ps_title := Some "Explore";
                ps_metadata :=
                  Some {| md_summary :=
                            Some [{| si_id := Some "t1"; si_tool := Some "grep";
                                     si_state :=
                                       Some {| sis_status := Some status;
                                               sis_title := None |} |}] |} |}))
    None.

(** ** The VPS provider: snapshots, pausing and service tests

    [snapshot], [pause] and [testServiceCommands] of [VPSProvider].  A method
    returns, besides its outcome, the commands it tried to run on the host,
    in order. *)

Module Lifecycle.

Import Provider.

(** The fields of a [SandboxProviderError]. *)
Record SandboxProviderError := {
  err_provider : string;
  err_operation : string;
  err_message : string;
  err_isRetryable : bool
}.

(** How a method ends: it returns, it throws a [SandboxProviderError] of its
    own, or an SSH call it awaited rejects. *)
Inductive Outcome (A : Type) :=
  | Returns (a : A)
  | Throws (e : SandboxProviderError)
  | Fails (reason : string).
Arguments Returns {A} a.
Arguments Throws {A} e.
Arguments Fails {A} reason.

(** [PrebuildServiceCommand] and [AutoStartOutputEntry], as
    [testServiceCommands] reads and builds them. *)
Record ServiceCommand := {
  cmd_name : string;
  cmd_command : string;
  cmd_cwd : option string;
  cmd_workspacePath : option string
}.

Record OutputEntry := {
  entry_name : string;
  entry_workspacePath : option string;
  entry_cwd : option string;
  entry_output : string;
  entry_exitCode : Z
}.

Section Host.

Variable ssh : string → Promise SSHExecResponse.
Variable shellEscape : string → string.

(** [capOutput] of [../sandbox]. *)
Variable capOutput : string → Z → string.

Definition snapshotName (sessionId : string) (now : Z) : string :=
  "shadow-snapshot-" +:+ sessionId +:+ "-" +:+ pretty now.

Definition commitCommand (sessionId sandboxId : string) (now : Z) : string :=
  "docker commit " +:+ sandboxId +:+ " " +:+ snapshotName sessionId now.

Definition stopCommand (sandboxId : string) : string := "docker stop " +:+ sandboxId.

(** [snapshot]; [now] is the reading of [Date.now()] that names the image.
    Returns the [snapshotId]. *)
Definition snapshot (now : Z) (sessionId sandboxId : string)
  : list string * Outcome string :=
  let cmd := commitCommand sessionId sandboxId now in
  match ssh cmd with
  | Rejected reason => ([cmd], Fails reason)
  | Resolved result =>
      if negb (bool_decide (ssh_code result = Some 0))
      then ([cmd],
            Throws {| err_provider := "vps"; err_operation := "snapshot";
                      err_message := "Failed to create snapshot: " +:+ ssh_stderr result;
                      err_isRetryable := true |})
      else ([cmd], Returns (snapshotName sessionId now))
  end.

(** [pause]: snapshot, then stop the container.  Returns the [snapshotId]. *)
Definition pause (now : Z) (sessionId sandboxId : string)
  : list string * Outcome string :=
  match snapshot now sessionId sandboxId with
  | (cmds, Returns snapshotId) =>
      match ssh (stopCommand sandboxId) with
      | Rejected reason => (cmds ++ [stopCommand sandboxId], Fails reason)
      | Resolved _ => (cmds ++ [stopCommand sandboxId], Returns snapshotId)
      end
  | (cmds, Throws e) => (cmds, Throws e)
  | (cmds, Fails reason) => (cmds, Fails reason)
  end.

(** The options [testServiceCommands] passes to [execCommand]. *)
Definition serviceExecOpts (cmd : ServiceCommand) (timeoutMs : Z) : option ExecOpts :=
  Some {| exec_cwd := cmd_cwd cmd; exec_timeoutMs := Some timeoutMs; exec_env := None |}.

(** [testServiceCommands] *)
Fixpoint testServiceCommands (sandboxId : string) (commands : list ServiceCommand)
    (timeoutMs : Z) : Promise (list OutputEntry) :=
  match commands with
  | [] => Resolved []
  | cmd :: rest =>
      match execCommand ssh shellEscape sandboxId (split " " (cmd_command cmd))
              (serviceExecOpts cmd timeoutMs) with
      | Rejected reason => Rejected reason
      | Resolved result =>
          match testServiceCommands sandboxId rest timeoutMs with
          | Rejected reason => Rejected reason
          | Resolved results =>
              Resolved
                ({| entry_name := cmd_name cmd;
                    entry_workspacePath := cmd_workspacePath cmd;
                    entry_cwd := cmd_cwd cmd;
                    entry_output := capOutput (stdout result +:+ stderr result) 10000;
                    entry_exitCode := exitCode result |} :: results)
          end
      end
  end.

End Host.

End Lifecycle.

(** ** What [docker ps] prints, and sample hosts *)

(** The output of [docker ps --format "{{.ID}}"]: one id per line. *)
Definition dockerPsOutput (running : list string) : string :=
  foldr (λ rid rest, rid +:+ String Provider.newline rest) "" running.

Fixpoint noSpace (s : string) : bool :=
  match s with
  | EmptyString => true
  | String c t => negb (Provider.isSpace c) && noSpace t
  end.

(** Every character is a 7-bit one. *)
Fixpoint asciiOnly (s : string) : bool :=
  match s with
  | EmptyString => true
  | String c t => Nat.ltb (nat_of_ascii c) 128 && asciiOnly t
  end.

(** A container id as docker prints it: not empty, 7-bit characters, no
    white space. *)
Definition containerId (rid : string) : bool :=
  Js.truthy rid && noSpace rid && asciiOnly rid.

(** A host that commits images but fails to stop containers. *)
Definition hostCommits (cmd : string) : Provider.Promise Provider.SSHExecResponse :=
  Provider.Resolved
    {| Provider.ssh_stdout := ""; Provider.ssh_stderr := "";
       Provider.ssh_code := if Js.startsWith cmd "docker stop" then Some 1 else Some 0 |}.

(** A host on which every command exits with code 1 and prints its name. *)
Definition hostFails (cmd : string) : Provider.Promise Provider.SSHExecResponse :=
  Provider.Resolved
    {| Provider.ssh_stdout := ""; Provider.ssh_stderr := "failed";
       Provider.ssh_code := Some 1 |}.

Definition serviceCommands : list Lifecycle.ServiceCommand :=
  [{| Lifecycle.cmd_name := "web"; Lifecycle.cmd_command := "pnpm dev";
      Lifecycle.cmd_cwd := Some "/home/user/workspace";
      Lifecycle.cmd_workspacePath := None |};
   {| Lifecycle.cmd_name := "db"; Lifecycle.cmd_command := "docker compose up";
      Lifecycle.cmd_cwd := None; Lifecycle.cmd_workspacePath := Some "." |}].

(** ** Credential-helper keys for repository URLs

    [buildGitCredentialsMap] and [addCredentialVariant]. *)

Module Credentials.

(** The fields of a [RepoSpec] that the gateway reads. *)
Record RepoSpec := {
  repoUrl : string;
  token : option string;
  workspacePath : string
}.

(** [s.endsWith(suffix)] *)
Fixpoint endsWith (s suffix : string) : bool :=
  bool_decide (s = suffix) ||
  match s with
  | EmptyString => false
  | String _ t => endsWith t suffix
  end.

(** [s.replace(/\/+$/, "")]: without the slashes at its end. *)
Fixpoint dropTrailingSlashes (s : string) : string :=
  match s with
  | EmptyString => EmptyString
  | String c t =>
      match dropTrailingSlashes t with
      | EmptyString => if bool_decide (c = "/"%char) then EmptyString else String c EmptyString
      | t' => String c t'
      end
  end.

(** [s.replace(/\.git$/, "")]: without one [.git] at its end. *)
Fixpoint dropGitSuffix (s : string) : string :=
  if bool_decide (s = ".git") then EmptyString
  else
    match s with
    | EmptyString => EmptyString
    | String c t => String c (dropGitSuffix t)
    end.

(** [addCredentialVariant].  The assignment [target[url] = token] creates
    no property for the key [__proto__], whose setter ignores a string. *)
Definition addCredentialVariant (target : gmap string string) (url token : string)
  : gmap string string :=
  if negb (Js.truthy url) then target
  else if bool_decide (url = "__proto__") then target
  else <[url := token]> target.

(** The six keys the loop body adds for the trimmed URL [raw], in order. *)
Definition variants (raw : string) : list string :=
  let noTrailingSlash := dropTrailingSlashes raw in
  let withoutGit := dropGitSuffix noTrailingSlash in
  let withGit := if endsWith withoutGit ".git" then withoutGit else withoutGit +:+ ".git" in
  [raw; noTrailingSlash; withoutGit; withGit; withoutGit +:+ "/"; withGit +:+ "/"].

(** One iteration of the loop of [buildGitCredentialsMap]. *)
Definition addRepo (credentials : gmap string string) (repo : RepoSpec)
  : gmap string string :=
  match token repo with
  | None => credentials
  | Some tok =>
      if negb (Js.truthy tok) then credentials
      else
        let raw := Provider.trim (repoUrl repo) in
        if negb (Js.truthy raw) then credentials
        else foldl (λ target url, addCredentialVariant target url tok)
                   credentials (variants raw)
  end.

(** [buildGitCredentialsMap] *)
Definition buildGitCredentialsMap (repos : list RepoSpec) : gmap string string :=
  foldl addRepo ∅ repos.

(** The four forms of a repository URL that git asks credentials for. *)
Definition forms (base : string) : list string :=
  [base; base +:+ "/"; base +:+ ".git"; base +:+ ".git/"].

(** A URL of 7-bit characters without white space that ends neither in a
    slash nor in [.git]. *)
Definition bare (base : string) : Prop :=
  base ≠ "" ∧ base ≠ "__proto__" ∧ noSpace base = true ∧ asciiOnly base = true
  ∧ endsWith base "/" = false ∧ endsWith base ".git" = false.

End Credentials.

(** ** Git operations of the gateway

    [apps/gateway/src/hub/git-operations.ts]: class [GitOperations], which
    turns git actions into calls of the provider's [execCommand], and the
    parsers of git's output.

    A method is a function from the calls made so far to its outcome and
    the calls made by then.  The provider's answer to a call may depend on
    the call and on all calls before it. *)

Module GitOps.

Import Provider.

Inductive GitResultCode :=
  | SUCCESS | BRANCH_EXISTS | UNKNOWN_ERROR | NOTHING_TO_COMMIT | MERGE_CONFLICT
  | REPO_BUSY | AUTH_FAILED | SHALLOW_PUSH_FAILED | NO_REMOTE | MULTIPLE_REMOTES
  | GH_NOT_AVAILABLE | NOT_GITHUB_REMOTE.

Record GitActionResult := {
  success : bool;
  code : GitResultCode;
  message : string;
  prUrl : option string
}.

Record GitIdentity := { id_name : string; id_email : string }.

(** One call of [provider.execCommand(this.sandboxId, argv, opts)]. *)
Record Call := {
  call_argv : list string;
  call_cwd : option string;
  call_timeoutMs : Z;
  call_env : list (string * string)
}.

(** An [async] method: from the calls made so far to the outcome of its
    promise and the calls made by then. *)
Definition M (A : Type) : Type := list Call → Promise A * list Call.

Definition ret {A} (a : A) : M A := λ log, (Resolved a, log).

Definition throw {A} (reason : string) : M A := λ log, (Rejected reason, log).

Definition bind {A B} (m : M A) (f : A → M B) : M B :=
  λ log,
    match m log with
    | (Resolved a, log') => f a log'
    | (Rejected reason, log') => (Rejected reason, log')
    end.

(** [try { await m } catch {}] *)
Definition ignoringErrors (m : M unit) : M unit :=
  λ log,
    match m log with
    | (Resolved _, log') => (Resolved tt, log')
    | (Rejected _, log') => (Resolved tt, log')
    end.

Notation "'await' x ':=' m 'in' k" := (bind m (λ x, k))
  (at level 10, x name, m at level 100, k at level 200,
   format "'[v' 'await'  x  ':='  m  'in' '/' k ']'").

Definition failure (code : GitResultCode) (message : string) : GitActionResult :=
  {| success := false; code := code; message := message; prUrl := None |}.

Definition succeeded (message : string) (prUrl : option string) : GitActionResult :=
  {| success := true; code := SUCCESS; message := message; prUrl := prUrl |}.

(** [a || b] for a string [a]. *)
Definition orElse (a b : string) : string := if Js.truthy a then a else b.

Definition GIT_BASE_ENV : list (string * string) :=
  [("GIT_TERMINAL_PROMPT", "0"); ("GH_PAGER", "cat"); ("LC_ALL", "C")].

Definition GIT_READONLY_ENV : list (string * string) :=
  GIT_BASE_ENV ++ [("GIT_OPTIONAL_LOCKS", "0")].

Section Operations.

(** [this.provider.execCommand], if the provider has one. *)
Variable provider : option (list Call → Call → Promise ExecResult).
Variable gitIdentity : option GitIdentity.
Variable repos : list Credentials.RepoSpec.

(** [shellEscape] of the shared sandbox package. *)
Variable shellEscape : string → string.

(** [Buffer.from(JSON.stringify(credentials)).toString("base64")] *)
Variable encodeCredentials : gmap string string → string.

(** [WORKSPACE_DIR] and Node's [path.resolve]. *)
Variable WORKSPACE_DIR : string.
Variable pathResolve : string → string → string.

(** [resolveGitDir]; a rejection stands for the [Error] it throws. *)
Definition resolveGitDir (workspacePath : option string) : Promise string :=
  match workspacePath with
  | None => Resolved WORKSPACE_DIR
  | Some wp =>
      if negb (Js.truthy wp) || bool_decide (wp = ".") then Resolved WORKSPACE_DIR
      else
        let resolved := pathResolve WORKSPACE_DIR wp in
        if negb (Js.startsWith resolved (WORKSPACE_DIR +:+ "/"))
           && negb (bool_decide (resolved = WORKSPACE_DIR))
        then Rejected "Invalid workspace path"
        else Resolved resolved
  end.

(** [exec] *)
Definition exec (argv : list string) (cwd : option string) (timeoutMs : Z)
    (env : list (string * string)) : M ExecResult :=
  λ log,
    match provider with
    | None => (Rejected "Provider does not support execCommand", log)
    | Some execCommand =>
        let call := {| call_argv := argv; call_cwd := cwd;
                       call_timeoutMs := timeoutMs; call_env := env |} in
        (execCommand log call, log ++ [call])
    end.

(** [getGitIdentityEnv] *)
Definition getGitIdentityEnv : list (string * string) :=
  match gitIdentity with
  | None => []
  | Some identity =>
      [("GIT_AUTHOR_NAME", id_name identity); ("GIT_AUTHOR_EMAIL", id_email identity);
       ("GIT_COMMITTER_NAME", id_name identity); ("GIT_COMMITTER_EMAIL", id_email identity)]
  end.

(** [getMutableEnv] and [getReadOnlyEnv]; the keys spread into one object
    are all different, so the object is the concatenation. *)
Definition getMutableEnv : list (string * string) := GIT_BASE_ENV ++ getGitIdentityEnv.

Definition getReadOnlyEnv : list (string * string) := GIT_READONLY_ENV ++ getGitIdentityEnv.

(** [repo.token] if it is truthy. *)
Definition truthyToken (repo : Credentials.RepoSpec) : option string :=
  match Credentials.token repo with
  | Some tok => if Js.truthy tok then Some tok else None
  | None => None
  end.

Definition hasToken (repo : Credentials.RepoSpec) : bool :=
  Js.truthy_opt (Credentials.token repo).

(** [getWorkspaceToken] *)
Definition getWorkspaceToken (workspacePath : option string) : option string :=
  if bool_decide (length repos = 0%nat) then None
  else
    let exact :=
      match workspacePath with
      | Some wp =>
          if Js.truthy wp && negb (bool_decide (wp = "."))
          then List.find (λ repo, bool_decide (Credentials.workspacePath repo = wp)) repos
               ≫= truthyToken
          else None
      | None => None
      end in
    match exact with
    | Some tok => Some tok
    | None =>
        let single :=
          if bool_decide (length repos = 1%nat) then head repos ≫= truthyToken else None in
        match single with
        | Some tok => Some tok
        | None =>
            match List.find (λ repo, bool_decide (Credentials.workspacePath repo = ".")
                                     && hasToken repo) repos ≫= truthyToken with
            | Some tok => Some tok
            | None => List.find hasToken repos ≫= truthyToken
            end
        end
    end.

(** [getAuthEnv] *)
Definition getAuthEnv (workspacePath : option string) : list (string * string) :=
  match getWorkspaceToken workspacePath with
  | None => []
  | Some tok => [("GIT_TOKEN", tok); ("GH_TOKEN", tok); ("GIT_USERNAME", "x-access-token")]
  end.

(** [refreshGitCredentialsFile] *)
Definition refreshGitCredentialsFile : M unit :=
  let credentials := Credentials.buildGitCredentialsMap repos in
  let encoded := encodeCredentials credentials in
  await _ := exec ["sh"; "-c";
                   "umask 077 && echo " +:+ shellEscape encoded
                   +:+ " | base64 -d > /tmp/.git-credentials.json"]
                  None 10000 getMutableEnv in
  ret tt.

(** A synchronous step that may throw, inside an [async] method. *)
Definition lift {A} (p : Promise A) : M A := λ log, (p, log).

(** [createBranch] *)
Definition createBranch (name : string) (workspacePath : option string)
  : M GitActionResult :=
  await cwd := lift (resolveGitDir workspacePath) in
  await check := exec ["git"; "show-ref"; "--verify"; "refs/heads/" +:+ name]
                      (Some cwd) 10000 getMutableEnv in
  if bool_decide (exitCode check = 0)
  then ret (failure BRANCH_EXISTS ("Branch '" +:+ name +:+ "' already exists"))
  else
    await result := exec ["git"; "checkout"; "-b"; name] (Some cwd) 15000 getMutableEnv in
    if negb (bool_decide (exitCode result = 0))
    then ret (failure UNKNOWN_ERROR (orElse (stderr result) "Failed to create branch"))
    else ret (succeeded ("Created and switched to branch '" +:+ name +:+ "'") None).

(** The arguments of the [git add] that [commit] runs. *)
Definition addArgv (includeUntracked : bool) (files : option (list string)) : list string :=
  match files with
  | Some (file :: more) => ["git"; "add"; "--"] ++ file :: more
  | _ => if includeUntracked then ["git"; "add"; "-A"] else ["git"; "add"; "-u"]
  end.

(** [commit] *)
Definition commit (message : string) (includeUntracked : bool)
    (files : option (list string)) (workspacePath : option string)
  : M GitActionResult :=
  await cwd := lift (resolveGitDir workspacePath) in
  await addResult := exec (addArgv includeUntracked files) (Some cwd) 15000 getMutableEnv in
  if negb (bool_decide (exitCode addResult = 0))
  then ret (failure UNKNOWN_ERROR (orElse (stderr addResult) "Failed to stage files"))
  else
    await diffCheck := exec ["git"; "diff"; "--cached"; "--quiet"]
                            (Some cwd) 10000 getMutableEnv in
    if bool_decide (exitCode diffCheck = 0)
    then ret (failure NOTHING_TO_COMMIT "Nothing to commit")
    else if bool_decide (1 < exitCode diffCheck)
    then ret (failure UNKNOWN_ERROR
                (orElse (stderr diffCheck) "Failed to check staged changes"))
    else
      await commitResult := exec ["git"; "commit"; "-m"; message]
                                 (Some cwd) 30000 getMutableEnv in
      if negb (bool_decide (exitCode commitResult = 0))
      then
        let err := stderr commitResult in
        if Js.includes err "fix conflicts" || Js.includes err "Merge conflict"
        then ret (failure MERGE_CONFLICT "Resolve merge conflicts first")
        else if Js.includes err "index.lock"
        then ret (failure REPO_BUSY "Git is busy — try again in a moment")
        else ret (failure UNKNOWN_ERROR (orElse err "Commit failed"))
      else ret (succeeded "Changes committed" None).

(** [determinePushArgs]: the arguments after [git push], or the error. *)
Definition determinePushArgs (cwd branch : string)
  : M (list string + GitActionResult) :=
  await upstreamResult := exec ["git"; "rev-parse"; "--abbrev-ref"; "@{upstream}"]
                               (Some cwd) 10000 getMutableEnv in
  if bool_decide (exitCode upstreamResult = 0) then ret (inl [])
  else
    await remoteResult := exec ["git"; "remote"] (Some cwd) 10000 getMutableEnv in
    let remotes := List.filter Js.truthy (split newline (trim (stdout remoteResult))) in
    match remotes with
    | [] => ret (inr (failure NO_REMOTE "No remote configured"))
    | first :: others =>
        if bool_decide ("origin" ∈ remotes) then ret (inl ["-u"; "origin"; branch])
        else if bool_decide (length remotes = 1%nat) then ret (inl ["-u"; first; branch])
        else ret (inr (failure MULTIPLE_REMOTES
                         ("Multiple remotes found (" +:+ Js.join ", " remotes
                          +:+ "). Set an upstream or push to a specific remote.")))
    end.

Definition authFailure (err : string) : bool :=
  Js.includes err "Authentication failed"
  || Js.includes err "could not read Username"
  || Js.includes err "Invalid credentials".

(** The end of [push], from the outcome of the last [git push]. *)
Definition pushOutcome (branch : string) (result : ExecResult) : GitActionResult :=
  if negb (bool_decide (exitCode result = 0)) then
    if authFailure (stderr result) then failure AUTH_FAILED "Authentication failed"
    else failure UNKNOWN_ERROR (orElse (stderr result) "Push failed")
  else succeeded ("Pushed to " +:+ branch) None.

(** [push] *)
Definition push (workspacePath : option string) : M GitActionResult :=
  await cwd := lift (resolveGitDir workspacePath) in
  let authEnv := getAuthEnv workspacePath in
  let hasEnvToken := bool_decide (getWorkspaceToken workspacePath ≠ None) in
  if negb hasEnvToken && bool_decide (0 < length repos)%nat
  then ret (failure AUTH_FAILED
              "No push-capable token available. Check that the GitHub App has write access to this repository.")
  else
    await _ := ignoringErrors refreshGitCredentialsFile in
    let commandEnv := getMutableEnv ++ authEnv in
    await branchResult := exec ["git"; "rev-parse"; "--abbrev-ref"; "HEAD"]
                               (Some cwd) 10000 commandEnv in
    let branch := trim (stdout branchResult) in
    if negb (Js.truthy branch) || bool_decide (branch = "HEAD")
    then ret (failure UNKNOWN_ERROR "Cannot push from detached HEAD")
    else
      await pushStrategy := determinePushArgs cwd branch in
      match pushStrategy with
      | inr error => ret error
      | inl args =>
          await result := exec (["git"; "push"] ++ args) (Some cwd) 60000 commandEnv in
          if negb (bool_decide (exitCode result = 0))
             && Js.includes (stderr result) "shallow update not allowed"
          then
            await _ := exec ["git"; "fetch"; "--deepen"; "100"]
                            (Some cwd) 30000 commandEnv in
            await again := exec (["git"; "push"] ++ args) (Some cwd) 60000 commandEnv in
            if negb (bool_decide (exitCode again = 0))
               && Js.includes (stderr again) "shallow"
            then ret (failure SHALLOW_PUSH_FAILED "Push failed due to shallow clone")
            else ret (pushOutcome branch again)
          else ret (pushOutcome branch result)
      end.

(** [createPr] *)
Definition createPr (title : string) (body baseBranch workspacePath : option string)
  : M GitActionResult :=
  await cwd := lift (resolveGitDir workspacePath) in
  let authEnv := getAuthEnv workspacePath in
  let commandEnv := getMutableEnv ++ authEnv ++ [("GH_PROMPT_DISABLED", "1")] in
  await pushResult := push workspacePath in
  if negb (success pushResult) then ret pushResult
  else
    let args :=
      ["gh"; "pr"; "create"; "--title"; title; "--body";
       if Js.truthy_opt body then default "" body else ""]
      ++ match baseBranch with
         | Some base => if Js.truthy base then ["--base"; base] else []
         | None => []
         end in
    await result := exec args (Some cwd) 30000 commandEnv in
    if bool_decide (exitCode result = 127)
    then ret (failure GH_NOT_AVAILABLE "GitHub CLI (gh) is not available")
    else if negb (bool_decide (exitCode result = 0))
    then
      if Js.includes (stderr result) "not a GitHub repository"
         || Js.includes (stderr result) "not a git repository"
      then ret (failure NOT_GITHUB_REMOTE "Remote is not a GitHub repository")
      else ret (failure UNKNOWN_ERROR (orElse (stderr result) "Failed to create PR"))
    else
      await urlResult := exec ["gh"; "pr"; "view"; "--json"; "url"; "--jq"; ".url"]
                              (Some cwd) 10000 commandEnv in
      let prUrl :=
        if bool_decide (exitCode urlResult = 0) then trim (stdout urlResult)
        else trim (stdout result) in
      ret (succeeded "Pull request created" (Some prUrl)).

End Operations.

End GitOps.

(** ** Observations on git operations, and a scripted provider *)

(** The calls a method made, given the calls before and after it. *)
Definition callsMade (before after : list GitOps.Call) : list GitOps.Call :=
  drop (length before) after.

(** Every call a method makes satisfies [P]; it never drops a call that was
    made before. *)
Definition makes {A} (P : GitOps.Call → Prop) (m : GitOps.M A) : Prop :=
  ∀ log, ∃ calls, (m log).2 = log ++ calls ∧ Forall P calls.

(** The call runs in [dir], or it is a shell command run in no directory,
    and its environment contains every variable of [env]. *)
Definition confined (dir : string) (env : list (string * string)) (c : GitOps.Call) : Prop :=
  (GitOps.call_cwd c = Some dir
   ∨ (GitOps.call_cwd c = None ∧ head (GitOps.call_argv c) = Some "sh"))
  ∧ env ⊆ GitOps.call_env c.

Definition isGitPush (c : GitOps.Call) : bool :=
  match GitOps.call_argv c with
  | "git" :: "push" :: _ => true
  | _ => false
  end.

Definition isGhPrCreate (c : GitOps.Call) : bool :=
  match GitOps.call_argv c with
  | "gh" :: "pr" :: "create" :: _ => true
  | _ => false
  end.

(** A provider that answers the n-th call with the n-th exit code and
    output of a script, and rejects once the script is used up. *)
Definition scripted (answers : list (Z * string)) (log : list GitOps.Call)
    (call : GitOps.Call) : Provider.Promise Provider.ExecResult :=
  match answers !! length log with
  | Some (code, out) =>
      Provider.Resolved
        {| Provider.stdout := out; Provider.stderr := ""; Provider.exitCode := code |}
  | None => Provider.Rejected "no answer"
  end.

(** Whatever the provider prints on standard output consists of 7-bit
    characters. *)
Definition printsAscii
    (provider : option (list GitOps.Call → GitOps.Call
                        → Provider.Promise Provider.ExecResult)) : Prop :=
  ∀ execCommand log call result,
    provider = Some execCommand →
    execCommand log call = Provider.Resolved result →
    asciiOnly (Provider.stdout result) = true.

Definition sampleRepos : list Credentials.RepoSpec :=
  [{| Credentials.repoUrl := "https://github.com/acme/app";
      Credentials.token := None; Credentials.workspacePath := "." |};
   {| Credentials.repoUrl := "https://github.com/acme/docs";
      Credentials.token := Some "ghs_docs"; Credentials.workspacePath := "docs" |}].

Definition sampleIdentity : option GitOps.GitIdentity :=
  Some {| GitOps.id_name := "pablonyx"; GitOps.id_email := "pablo@example.com" |}.

(** [path.resolve] on a directory and a name without dots or slashes. *)
Definition joinPath (dir name : string) : string := dir +:+ "/" +:+ name.

(** ** Parsers of git's output

    [parseLogOutput] and [parseBusyState] of
    [apps/gateway/src/hub/git-operations.ts]. *)

Module GitParse.

Import Provider.

Record GitCommitSummary := {
  sha : string;
  commit_message : string;
  author : string;
  date : string
}.

(** The record and field separators of the log format, [\x1e] and [\x1f]. *)
Definition RS : ascii := Eval cbv in ascii_of_nat 30.
Definition US : ascii := Eval cbv in ascii_of_nat 31.

(** The body of the loop of [parseLogOutput]: the commit of one record, if
    the record is not skipped. *)
Definition parseRecord (record : string) : option GitCommitSummary :=
  let trimmed := trim record in
  if negb (Js.truthy trimmed) then None
  else
    match split US trimmed with
    | f0 :: f1 :: f2 :: f3 :: _ =>
        Some {| sha := f0; commit_message := f1; author := f2; date := f3 |}
    | _ => None
    end.

(** [parseLogOutput] *)
Definition parseLogOutput (output : string) : list GitCommitSummary :=
  if negb (Js.truthy (trim output)) then []
  else omap parseRecord (split RS output).

Record BusyState := {
  isShallow : bool;
  isBusy : bool;
  rebaseInProgress : bool;
  mergeInProgress : bool
}.

(** [s.slice(n)] *)
Fixpoint slice (n : nat) (s : string) : string :=
  match n, s with
  | O, _ => s
  | S n', String _ t => slice n' t
  | S _, EmptyString => EmptyString
  end.

(** The body of the loop of [parseBusyState]. *)
Definition parseBusyLine (result : BusyState) (line : string) : BusyState :=
  if Js.startsWith line "shallow:" then
    {| isShallow := bool_decide (trim (slice 8 line) = "true");
       isBusy := isBusy result; rebaseInProgress := rebaseInProgress result;
       mergeInProgress := mergeInProgress result |}
  else if Js.startsWith line "lock:" then
    {| isShallow := isShallow result;
       isBusy := bool_decide (trim (slice 5 line) = "1");
       rebaseInProgress := rebaseInProgress result;
       mergeInProgress := mergeInProgress result |}
  else if Js.startsWith line "rebase:" then
    {| isShallow := isShallow result; isBusy := isBusy result;
       rebaseInProgress := bool_decide (trim (slice 7 line) = "1");
       mergeInProgress := mergeInProgress result |}
  else if Js.startsWith line "merge:" then
    {| isShallow := isShallow result; isBusy := isBusy result;
       rebaseInProgress := rebaseInProgress result;
       mergeInProgress := bool_decide (trim (slice 6 line) = "1") |}
  else result.

(** [parseBusyState] *)
Definition parseBusyState (output : string) : BusyState :=
  foldl parseBusyLine
    {| isShallow := false; isBusy := false; rebaseInProgress := false;
       mergeInProgress := false |}
    (split newline output).

End GitParse.

(** ** What git prints, for the parsers *)

Fixpoint noChar (sep : ascii) (s : string) : bool :=
  match s with
  | EmptyString => true
  | String c t => negb (bool_decide (c = sep)) && noChar sep t
  end.

(** The fields of one record of [git log --format=%x1e%H%x1f%s%x1f%an%x1f%aI],
    and the record, which git ends with a line feed. *)
Definition logFields (c : GitParse.GitCommitSummary) : string :=
  GitParse.sha c +:+ String GitParse.US
    (GitParse.commit_message c +:+ String GitParse.US
       (GitParse.author c +:+ String GitParse.US (GitParse.date c))).

Definition logRecord (c : GitParse.GitCommitSummary) : string :=
  String GitParse.RS (logFields c +:+ String Provider.newline "").

Definition logOutput (commits : list GitParse.GitCommitSummary) : string :=
  foldr (λ c rest, logRecord c +:+ rest) "" commits.

(** No field contains a separator; the hash and the date are not empty and
    have no white space. *)
Definition printable (c : GitParse.GitCommitSummary) : bool :=
  let plain s := noChar GitParse.RS s && noChar GitParse.US s in
  plain (GitParse.sha c) && plain (GitParse.commit_message c)
  && plain (GitParse.author c) && plain (GitParse.date c)
  && containerId (GitParse.sha c) && containerId (GitParse.date c).

(** The value of [field] in the last line that starts with [prefix]. *)
Definition lastValue (prefix : string) (lines : list string) : option string :=
  (λ line, Provider.trim (GitParse.slice (String.length prefix) line))
  <$> last (List.filter (λ line, Js.startsWith line prefix) lines).

(** Output of the busy-state script: a lock line overridden by a later one,
    and a line of no kind. *)
Definition busyOutput : string :=
  Js.join (String Provider.newline "")
    ["shallow:true"; "lock:0"; "branch:main"; "lock: 1 "; "rebase:"; ""].


(** * Properties *)

(** ** Counting effects *)

Lemma count_app p l1 l2 : count p (l1 ++ l2) = (count p l1 + count p l2)%nat.
Proof. unfold count. by rewrite List.filter_app, length_app. Qed.

Lemma count_excluded (p q : Out → bool) l :
  (∀ o, q o = true → p o = false) → forallb q l = true → count p l = 0%nat.
Proof.
  intros Hpq. induction l as [|o l IH]; simpl; [done|].
  intros [Ho Hl]%andb_prop. unfold count in *. simpl.
  rewrite (Hpq o Ho). by apply IH.
Qed.

(** ** The heartbeat touches nothing but the watch list *)

Lemma heartbeatLoop_out now ws : forallb isHeartbeat (heartbeatLoop now ws).2 = true.
Proof.
  induction ws as [|[k w] ws IH]; simpl; [done|].
  destruct (heartbeatLoop now ws) as [ws' out]. simpl in *.
  destruct (heartbeatDue now w); simpl; by rewrite ?IH.
Qed.

Lemma heartbeat_out s env :
  forallb isHeartbeat (maybeBroadcastToolProgressHeartbeat s env).2 = true.
Proof.
  unfold maybeBroadcastToolProgressHeartbeat. case_bool_decide; [done|].
  pose proof (heartbeatLoop_out (clock_heartbeat env) (runningToolWatch s)) as Hloop.
  by destruct (heartbeatLoop _ _).
Qed.

Lemma heartbeat_state s env :
  (maybeBroadcastToolProgressHeartbeat s env).1
  = with_watch s (heartbeatLoop (clock_heartbeat env) (runningToolWatch s)).1.
Proof.
  unfold maybeBroadcastToolProgressHeartbeat. case_bool_decide as Hlen.
  - destruct s as [a u t w e]. simpl in *. by destruct w.
  - by destruct (heartbeatLoop _ _).
Qed.

Lemma heartbeat_count p s env :
  (∀ o, isHeartbeat o = true → p o = false) →
  count p (maybeBroadcastToolProgressHeartbeat s env).2 = 0%nat.
Proof. intros Hp. eapply count_excluded; [exact Hp|apply heartbeat_out]. Qed.

Lemma process_unfold s env event :
  process s env event =
  let h := maybeBroadcastToolProgressHeartbeat s env in
  let r := dispatch h.1 env event in
  (res_state r,
   h.2 ++ res_out r ++ (if res_thrown r then [LogProcessingError (ev_type event)] else [])).
Proof.
  unfold process. destruct (maybeBroadcastToolProgressHeartbeat s env) as [s1 o1]. simpl.
  destruct (res_thrown _); [done|]. by rewrite app_nil_r.
Qed.


(** ** Abort suppression *)


Lemma string_app_nil_l (t : string) : "" +:+ t = t.
Proof. done. Qed.

Lemma string_app_cons c (s t : string) : String c s +:+ t = String c (s +:+ t).
Proof. done. Qed.











(** ** The sandbox provider *)

Section ProviderProperties.

Import Provider.

Variable ssh : string → Promise SSHExecResponse.
Variable shellEscape : string → string.
Variable resolveTunnels : string → Promise (string * string).
Variable createSandbox : CreateSandboxOpts → Promise CreateSandboxResult.

Lemma ensureSandbox_alive opts current alive openCodeUrl preview :
  opt_currentSandboxId opts = Some current →
  current ≠ "" →
  checkSandboxes ssh [current] = Resolved alive →
  alive ≠ [] →
  resolveTunnels current = Resolved (openCodeUrl, preview) →
  ensureSandbox ssh resolveTunnels createSandbox opts =
  ([CallCheckSandboxes [current]; CallResolveTunnels current],
   Resolved {| sandboxId := current; tunnelUrl := openCodeUrl; previewUrl := preview;
               expiresAt := None; recovered := true |}).
Proof.
  intros Hcur Hne Hcheck Halive Htun. unfold ensureSandbox. rewrite Hcur.
  unfold Js.truthy. rewrite bool_decide_eq_false_2 by done. simpl.
  rewrite Hcheck. destruct alive as [|a alive]; [done|].
  rewrite bool_decide_eq_true_2 by (simpl; lia). by rewrite Htun.
Qed.

Lemma ensureSandbox_not_alive opts :
  opt_currentSandboxId opts = None
  ∨ opt_currentSandboxId opts = Some ""
  ∨ (∃ current, opt_currentSandboxId opts = Some current
                ∧ checkSandboxes ssh [current] = Resolved []) →
  ∃ calls,
    ensureSandbox ssh resolveTunnels createSandbox opts =
    (calls ++ [CallCreateSandbox opts],
     match createSandbox opts with
     | Rejected reason => Rejected reason
     | Resolved result => Resolved (asEnsured result)
     end).
Proof.
  unfold ensureSandbox.
  intros [Hcur | [Hcur | (current & Hcur & Hcheck)]]; rewrite Hcur.
  - by exists [].
  - by exists [].
  - destruct (Js.truthy current); [|by exists []].
    rewrite Hcheck. simpl. by exists [CallCheckSandboxes [current]].
Qed.

(** C7, as amended.  If [opts.currentSandboxId] is set and the liveness probe
    finds it among the running containers, [ensureSandbox] resolves (once the
    tunnels are resolved) to that sandbox id with [recovered = true], carrying
    [sandboxId], [tunnelUrl], [previewUrl] and [recovered] but no [expiresAt],
    and [createSandbox] is not called.  If it is unset, or the probe finds it
    dead, [ensureSandbox] calls [createSandbox] and resolves to its result
    (all of [sandboxId], [tunnelUrl], [previewUrl], [expiresAt]) with
    [recovered = false]. *)
Theorem ensureSandbox_recovers_or_creates opts :
  (∀ current alive openCodeUrl preview,
     opt_currentSandboxId opts = Some current →
     current ≠ "" →
     checkSandboxes ssh [current] = Resolved alive →
     alive ≠ [] →
     resolveTunnels current = Resolved (openCodeUrl, preview) →
     ∃ calls,
       ensureSandbox ssh resolveTunnels createSandbox opts =
       (calls,
        Resolved {| sandboxId := current; tunnelUrl := openCodeUrl;
                    previewUrl := preview; expiresAt := None; recovered := true |})
       ∧ creates calls = false)
  ∧ (∀ result,
       opt_currentSandboxId opts = None
       ∨ opt_currentSandboxId opts = Some ""
       ∨ (∃ current, opt_currentSandboxId opts = Some current
                     ∧ checkSandboxes ssh [current] = Resolved []) →
       createSandbox opts = Resolved result →
       ∃ calls,
         ensureSandbox ssh resolveTunnels createSandbox opts =
         (calls,
          Resolved {| sandboxId := created_sandboxId result;
                      tunnelUrl := created_tunnelUrl result;
                      previewUrl := created_previewUrl result;
                      expiresAt := Some (created_expiresAt result);
                      recovered := false |})
         ∧ creates calls = true).
Proof.
  split.
  - intros current alive openCodeUrl preview Hcur Hne Hcheck Halive Htun.
    eexists. split; [by eapply ensureSandbox_alive|done].
  - intros result Hdead Hcreate.
    destruct (ensureSandbox_not_alive opts Hdead) as [calls Heq].
    exists (calls ++ [CallCreateSandbox opts]). rewrite Heq, Hcreate. split; [done|].
    unfold creates. rewrite existsb_app. simpl. by rewrite orb_true_r.
Qed.

(** C8.  Whatever exit code the host reports for the command, [execCommand]
    resolves to the record of its output, error output and exit code, and a
    missing exit code becomes -1. *)
Theorem execCommand_resolves_for_any_exit_code sandbox argv opts response :
  ssh (execCommandLine shellEscape sandbox argv opts) = Resolved response →
  execCommand ssh shellEscape sandbox argv opts =
  Resolved {| stdout := ssh_stdout response;
              stderr := ssh_stderr response;
              exitCode := match ssh_code response with
                          | Some code => code
                          | None => -1
                          end |}.
Proof. intros Hssh. unfold execCommand. by rewrite Hssh. Qed.

End ProviderProperties.

Lemma ensureSandbox_recovers_or_creates_witness :
  (∃ calls,
     Provider.ensureSandbox hostWithContainer hostTunnels hostCreates recoverOpts =
     (calls,
      Provider.Resolved
        {| Provider.sandboxId := "3f2a"; Provider.tunnelUrl := "http://vps:32768";
           Provider.previewUrl := "http://vps:32769"; Provider.expiresAt := None;
           Provider.recovered := true |})
     ∧ Provider.creates calls = false)
  ∧ (∃ calls,
       Provider.ensureSandbox hostWithContainer hostTunnels hostCreates freshOpts =
       (calls,
        Provider.Resolved
          {| Provider.sandboxId := "9c41d7"; Provider.tunnelUrl := "http://vps:40000";
             Provider.previewUrl := "http://vps:40001";
             Provider.expiresAt := Some 3600000; Provider.recovered := false |})
       ∧ Provider.creates calls = true).
Proof.
  split.
  - apply (proj1 (ensureSandbox_recovers_or_creates
                    hostWithContainer hostTunnels hostCreates recoverOpts)
             "3f2a" ["3f2a"] "http://vps:32768" "http://vps:32769");
      solve [reflexivity | discriminate].
  - apply (proj2 (ensureSandbox_recovers_or_creates
                    hostWithContainer hostTunnels hostCreates freshOpts)
             createdSandbox); [left|]; reflexivity.
Defined.

(** C7 as stated fails on the recovery path: the result of a recovery has no
    [expiresAt]. *)
Lemma recovered_sandbox_carries_no_expiry :
  ∃ result,
    (Provider.ensureSandbox hostWithContainer hostTunnels hostCreates recoverOpts).2
    = Provider.Resolved result
    ∧ Provider.recovered result = true
    ∧ Provider.expiresAt result = None.
Proof. eexists. split; [reflexivity|]. split; reflexivity. Qed.

Lemma execCommand_resolves_for_any_exit_code_witness :
  Provider.execCommand hostExits (λ a, a) "3f2a" ["false"] None =
  Provider.Resolved
    {| Provider.stdout := ""; Provider.stderr := "boom"; Provider.exitCode := 2 |}
  ∧ Provider.execCommand hostKilled (λ a, a) "3f2a" ["sleep"; "60"] None =
    Provider.Resolved
      {| Provider.stdout := ""; Provider.stderr := ""; Provider.exitCode := -1 |}.
Proof.
  split.
  - apply (execCommand_resolves_for_any_exit_code hostExits (λ a, a) "3f2a" ["false"] None
             {| Provider.ssh_stdout := ""; Provider.ssh_stderr := "boom";
                Provider.ssh_code := Some 2 |}).
    reflexivity.
  - apply (execCommand_resolves_for_any_exit_code hostKilled (λ a, a) "3f2a"
             ["sleep"; "60"] None
             {| Provider.ssh_stdout := ""; Provider.ssh_stderr := "";
                Provider.ssh_code := None |}).
    reflexivity.
Defined.

(** ** One call: heartbeat, then the switch *)

Lemma process_state s env event :
  (process s env event).1
  = res_state (dispatch (maybeBroadcastToolProgressHeartbeat s env).1 env event).
Proof. by rewrite process_unfold. Qed.

Lemma process_count p s env event :
  (∀ o, isHeartbeat o = true → p o = false) →
  (∀ t, p (LogProcessingError t) = false) →
  count p (process s env event).2
  = count p (res_out (dispatch (maybeBroadcastToolProgressHeartbeat s env).1 env event)).
Proof.
  intros Hhb Hlog. rewrite process_unfold. cbn zeta. simpl.
  rewrite !count_app, heartbeat_count by done.
  destruct (res_thrown _); unfold count at 2; simpl; rewrite ?Hlog; simpl; lia.
Qed.

Lemma heartbeat_assistant s env :
  currentAssistantMessageId (maybeBroadcastToolProgressHeartbeat s env).1
  = currentAssistantMessageId s.
Proof. by rewrite heartbeat_state. Qed.

Lemma heartbeat_user s env :
  currentOpenCodeUserMessageId (maybeBroadcastToolProgressHeartbeat s env).1
  = currentOpenCodeUserMessageId s.
Proof. by rewrite heartbeat_state. Qed.

Lemma heartbeat_tools s env :
  toolStates (maybeBroadcastToolProgressHeartbeat s env).1 = toolStates s.
Proof. by rewrite heartbeat_state. Qed.

Lemma heartbeat_sent s env :
  sentToolEvents (maybeBroadcastToolProgressHeartbeat s env).1 = sentToolEvents s.
Proof. by rewrite heartbeat_state. Qed.

Lemma heartbeat_slotSet s env :
  slotSet (maybeBroadcastToolProgressHeartbeat s env).1 = slotSet s.
Proof. unfold slotSet. by rewrite heartbeat_assistant. Qed.

Lemma heartbeat_hasRunningTools s env :
  hasRunningTools (maybeBroadcastToolProgressHeartbeat s env).1 = hasRunningTools s.
Proof. unfold hasRunningTools. by rewrite heartbeat_tools. Qed.

Lemma hasRunningTools_true s :
  hasRunningTools s = true ↔
  ∃ id st, toolStates s !! id = Some st ∧ status st = Running.
Proof. unfold hasRunningTools. by rewrite bool_decide_eq_true. Qed.

Lemma hasRunningTools_false s :
  hasRunningTools s = false ↔
  ∀ id st, toolStates s !! id = Some st → status st ≠ Running.
Proof.
  rewrite <- not_true_iff_false, hasRunningTools_true. split.
  - intros Hno id st Hid Hst. apply Hno. eauto.
  - intros Hall (id & st & Hid & Hst). by eapply Hall.
Qed.

(** ** The assistant message is created once *)

Lemma ensureAssistantMessage_set s env messageId :
  slotSet s = true →
  ∃ cur, currentAssistantMessageId s = Some cur
         ∧ ensureAssistantMessage s env messageId = (s, [], cur).
Proof.
  unfold slotSet, ensureAssistantMessage.
  destruct (currentAssistantMessageId s) as [cur|]; simpl; [|done].
  intros ->. by exists cur.
Qed.

Lemma ensureAssistantMessage_unset s env messageId :
  slotSet s = false →
  ensureAssistantMessage s env messageId
  = (with_assistant s (Some messageId),
     [Broadcast (MsgMessage messageId (clock_created env))], messageId).
Proof.
  unfold slotSet, ensureAssistantMessage.
  destruct (currentAssistantMessageId s) as [cur|]; simpl; [|done]. by intros ->.
Qed.

(** ** The three parts of [handleToolPart] *)

Ltac split_step :=
  match goal with
  | |- context [match ?x with _ => _ end] =>
      lazymatch x with
      | context [match _ with _ => _ end] => fail
      | _ => destruct x eqn:?
      end
  end.

Ltac split_cases :=
  repeat (cbn -[Js.truthy hasRunningTools size]; split_step);
  cbn -[Js.truthy hasRunningTools size] in *.

Lemma toolPhase_seq s out s' out' s'' :
  toolPhase s out s' → toolPhase s' out' s'' → toolPhase s (out ++ out') s''.
Proof.
  intros (Ho & Ha & Hu & Hs) (Ho' & Ha' & Hu' & Hs'). unfold toolPhase.
  rewrite forallb_app, Ho, Ho', Ha', Ha, Hu', Hu. repeat split; [done..|set_solver].
Qed.

Lemma toolStartPhase_phase s now cur partId toolCallId tool args :
  let r := toolStartPhase s now cur partId toolCallId tool args in
  toolPhase s r.2 r.1.
Proof.
  unfold toolPhase, toolStartPhase. split_cases; repeat split; set_solver.
Qed.

Lemma toolMetadataPhase_phase s now partId toolCallId tool state :
  let r := toolMetadataPhase s now partId toolCallId tool state in
  toolPhase s (res_out r) (res_state r).
Proof.
  unfold toolPhase, toolMetadataPhase, returned. split_cases; repeat split; set_solver.
Qed.

Lemma toolEndPhase_phase s partId toolCallId tool state :
  let r := toolEndPhase s partId toolCallId tool state in
  toolPhase s r.2 r.1.
Proof.
  unfold toolPhase, toolEndPhase. split_cases; repeat split; set_solver.
Qed.

Lemma handleToolPart_phase s env partId messageID part toolCallId toolName :
  let e := ensureAssistantMessage s env messageID in
  let r := handleToolPart s env partId messageID part toolCallId toolName in
  ∃ out, res_out r = e.1.2 ++ out ∧ toolPhase e.1.1 out (res_state r).
Proof.
  cbn zeta. unfold handleToolPart.
  destruct (ensureAssistantMessage s env messageID) as [[s1 out1] cur]. simpl.
  pose proof (toolStartPhase_phase s1 (clock_tool env) cur partId toolCallId toolName
                (default [] (part_state part ≫= ps_input))) as Hstart.
  destruct (toolStartPhase _ _ _ _ _ _ _) as [s2 out2]. simpl in Hstart.
  pose proof (toolMetadataPhase_phase s2 (clock_tool env) partId toolCallId toolName
                (part_state part)) as Hmeta.
  destruct (toolMetadataPhase _ _ _ _ _ _) as [s3 out3 thrown]. simpl in Hmeta.
  pose proof (toolPhase_seq _ _ _ _ _ Hstart Hmeta) as Hboth.
  destruct thrown; simpl.
  - by exists (out2 ++ out3).
  - pose proof (toolEndPhase_phase s3 partId toolCallId toolName (part_state part)) as Hend.
    destruct (toolEndPhase _ _ _ _ _) as [s4 out4]. simpl in *.
    exists ((out2 ++ out3) ++ out4). split; [by rewrite <- !app_assoc|].
    by eapply toolPhase_seq.
Qed.

(** ** Every call is a [Step] *)

Lemma count_tool_effects p out :
  (∀ o, isToolEffect o = true → p o = false) →
  forallb isToolEffect out = true → count p out = 0%nat.
Proof. apply count_excluded. Qed.

Lemma Step_nothing s : Step s [] s.
Proof.
  constructor; unfold count; simpl; try done; try lia.
  destruct (slotSet s); lia.
Qed.

Lemma Step_completeCurrentMessage s :
  Step s (completeCurrentMessage s).2 (completeCurrentMessage s).1.
Proof.
  unfold completeCurrentMessage.
  destruct (currentAssistantMessageId s) as [cur|] eqn:Hcur; [|apply Step_nothing].
  destruct (Js.truthy cur) eqn:Htruthy; simpl; [|apply Step_nothing].
  destruct (hasRunningTools s) eqn:Hrun; [apply Step_nothing|].
  assert (slotSet s = true) as Hset by (unfold slotSet; by rewrite Hcur).
  constructor; unfold consistent, count; rewrite ?Hset; simpl; try done; lia.
Qed.

(** Effects that are neither a [message] nor a [message_complete] broadcast
    leave a [Step] a [Step]. *)
Lemma Step_more s out s' extra :
  count isMessage extra = 0%nat → count isMessageComplete extra = 0%nat →
  Step s out s' → Step s (out ++ extra) s'.
Proof.
  intros Hm Hc [? ? ? ? ? ? ? ? ?].
  constructor; rewrite ?count_app, ?Hm, ?Hc, ?Nat.add_0_r; done.
Qed.

(** Creating the assistant message. *)
Lemma Step_ensureAssistantMessage s env messageId :
  Js.truthy messageId = true →
  let e := ensureAssistantMessage s env messageId in
  Step s e.1.2 e.1.1 ∧ slotSet e.1.1 = true
  ∧ count isMessageComplete e.1.2 = 0%nat
  ∧ currentAssistantMessageId e.1.1 = Some e.2
  ∧ toolStates e.1.1 = toolStates s
  ∧ sentToolEvents e.1.1 = sentToolEvents s
  ∧ currentOpenCodeUserMessageId e.1.1 = currentOpenCodeUserMessageId s.
Proof.
  intros Hid. cbn zeta. destruct (slotSet s) eqn:Hset.
  - destruct (ensureAssistantMessage_set s env messageId Hset) as (cur & Hcur & ->).
    simpl. split; [apply Step_nothing|done].
  - rewrite (ensureAssistantMessage_unset s env messageId Hset). simpl.
    split; [|unfold slotSet; simpl; by rewrite Hid].
    constructor; unfold consistent, slotSet in *; unfold count; simpl;
      rewrite ?Hset, ?Hid; try done; lia.
Qed.

Lemma Step_with_user s messageId :
  currentOpenCodeUserMessageId s = None → Step s [] (with_user s (Some messageId)).
Proof.
  intros Huser. constructor; unfold consistent, slotSet, count; simpl; try done; try lia.
  - destruct (Js.truthy_opt _); lia.
  - intros u. by rewrite Huser.
Qed.

(** A step that leaves the slot set, followed by [completeCurrentMessage]. *)
Lemma Step_then_complete s out s1 :
  Step s out s1 →
  count isMessageComplete out = 0%nat →
  slotSet s1 = true →
  toolStates s1 = toolStates s →
  sentToolEvents s1 = sentToolEvents s →
  Step s (out ++ (completeCurrentMessage s1).2) (completeCurrentMessage s1).1.
Proof.
  intros Hstep Hnone Hset Htools Hsent.
  pose proof (step_message _ _ _ Hstep) as Hmsg.
  pose proof (step_set_message _ _ _ Hstep) as Hsetmsg.
  unfold completeCurrentMessage. unfold slotSet in Hset.
  destruct (currentAssistantMessageId s1) as [cur|] eqn:Hcur; [|done]. simpl in Hset.
  rewrite Hset. simpl.
  destruct (hasRunningTools s1) eqn:Hrun; simpl.
  { rewrite app_nil_r. exact Hstep. }
  assert (hasRunningTools s = false) as Hrun'.
  { unfold hasRunningTools in *. by rewrite <- Htools. }
  set (fin := [OnMessageComplete; Broadcast (MsgMessageComplete cur)]).
  assert (count isMessage fin = 0%nat) as Hd1 by done.
  assert (count isMessageComplete fin = 1%nat) as Hd2 by done.
  constructor; rewrite ?count_app, ?Hnone, ?Hd1, ?Hd2; simpl.
  - lia.
  - lia.
  - done.
  - lia.
  - intros Hone [Hc | Hc]; [lia|].
    assert (slotSet s = false) as Hunset by (destruct (slotSet s); [lia|done]).
    rewrite Htools, (Hc Hunset), map_size_empty.
    unfold slotSet. simpl. by rewrite Hset.
  - intros Hunset Hafter. rewrite Nat.add_0_r. apply Hsetmsg; [done|].
    unfold slotSet. by rewrite Hcur.
  - intros _ _. done.
  - lia.
  - intros u Hu. simpl. by apply (step_user _ _ _ Hstep).
Qed.

Lemma Step_handleMessageUpdate s env properties :
  let r := handleMessageUpdate s env properties in Step s r.2 r.1.
Proof.
  cbn zeta. unfold handleMessageUpdate.
  destruct (properties ≫= p_info) as [info|]; [|apply Step_nothing].
  destruct (info_id info) as [messageId|]; [|apply Step_nothing].
  destruct (info_role info) as [role|]; [|apply Step_nothing].
  destruct (Js.truthy messageId) eqn:Hid; [|apply Step_nothing].
  destruct (Js.truthy role); simpl; [|apply Step_nothing].
  destruct (_ && _ && _); [apply Step_nothing|].
  case_bool_decide.
  { destruct (currentOpenCodeUserMessageId s) eqn:Huser;
      [apply Step_nothing|by apply Step_with_user]. }
  case_bool_decide; simpl; [|apply Step_nothing].
  pose proof (Step_ensureAssistantMessage s env messageId Hid) as He.
  destruct (ensureAssistantMessage s env messageId) as [[s1 out1] cur].
  simpl in He. destruct He as (Hstep & Hset & Hc1 & Hcur & Htools & Hsent & Huser).
  case_bool_decide; simpl; [|exact Hstep].
  set (out2 := match getOpenCodeErrorMessage (info_error info) with
               | Some _ => _ | None => _ end).
  assert (count isMessage out2 = 0%nat ∧ count isMessageComplete out2 = 0%nat)
    as [Hm2 Hc2].
  { subst out2. destruct (getOpenCodeErrorMessage _) as [msg|]; [|done].
    destruct (Js.truthy msg); [|done]. by destruct (isAbortLikeOpenCodeError _). }
  pose proof (Step_more _ _ _ out2 Hm2 Hc2 Hstep) as Hstep2.
  assert (count isMessageComplete (out1 ++ out2) = 0%nat) as Hnone.
  { by rewrite count_app, Hc1, Hc2. }
  destruct (info_completed info).
  - pose proof (Step_then_complete _ _ _ Hstep2 Hnone Hset Htools Hsent) as Hfin.
    destruct (completeCurrentMessage s1) as [s2 out3]. simpl in *.
    by rewrite app_assoc.
  - exact Hstep2.
Qed.

Lemma Step_handleTextPart s env partId messageID part delta :
  Js.truthy messageID = true →
  let r := handleTextPart s env partId messageID part delta in Step s r.2 r.1.
Proof.
  intros Hid. cbn zeta. unfold handleTextPart.
  set (s0 := match currentOpenCodeUserMessageId s with
             | None => with_user s (Some messageID) | Some _ => s end).
  assert (Step s [] s0) as Hs0.
  { subst s0. destruct (currentOpenCodeUserMessageId s) eqn:Huser;
      [apply Step_nothing|by apply Step_with_user]. }
  case_bool_decide; [exact Hs0|].
  pose proof (Step_ensureAssistantMessage s0 env messageID Hid) as He.
  destruct (ensureAssistantMessage s0 env messageID) as [[s1 out1] cur].
  simpl in He. destruct He as (Hstep & Hset & Hc1 & Hcur & Htools & Hsent & Huser).
  assert (Step s out1 s1) as Hstep1.
  { assert (slotSet s0 = slotSet s ∧ toolStates s0 = toolStates s
            ∧ sentToolEvents s0 = sentToolEvents s
            ∧ currentAssistantMessageId s0 = currentAssistantMessageId s)
      as (Hslot0 & Htools0 & Hsent0 & Hcur0).
    { subst s0. by destruct (currentOpenCodeUserMessageId s). }
    destruct Hstep as [? ? ? ? ? ? ? ? Hu0].
    constructor; unfold consistent, hasRunningTools in *;
      rewrite <- ?Hslot0, <- ?Htools0, <- ?Hsent0, <- ?Hcur0; try done.
    intros u Hu. apply Hu0. by apply (step_user _ _ _ Hs0). }
  set (complete := match part_text part with Some _ => _ | None => _ end).
  assert (count isMessage complete = 0%nat ∧ count isMessageComplete complete = 0%nat)
    as [Hm Hc].
  { subst complete. destruct (part_text part) as [text|]; [|done].
    by destruct (Js.truthy text). }
  destruct delta as [d|]; [destruct (Js.truthy d)|]; simpl;
    by apply Step_more.
Qed.

Lemma Step_handleToolPart s env partId messageID part toolCallId toolName :
  Js.truthy messageID = true →
  let r := handleToolPart s env partId messageID part toolCallId toolName in
  Step s (res_out r) (res_state r).
Proof.
  intros Hid. cbn zeta.
  destruct (handleToolPart_phase s env partId messageID part toolCallId toolName)
    as (out & -> & Hout & Hcur' & Huser' & Hsent').
  pose proof (Step_ensureAssistantMessage s env messageID Hid) as He.
  destruct (ensureAssistantMessage s env messageID) as [[s1 out1] cur].
  simpl in *. destruct He as (Hstep & Hset & Hc1 & Hcur & Htools & Hsent & Huser).
  assert (count isMessage out = 0%nat) as Hm
    by (by apply count_tool_effects; [intros [[]| | | | | |]|]).
  assert (count isMessageComplete out = 0%nat) as Hc
    by (by apply count_tool_effects; [intros [[]| | | | | |]|]).
  assert (slotSet (res_state (handleToolPart s env partId messageID part toolCallId toolName))
          = true) as Hset'.
  { unfold slotSet in *. by rewrite Hcur'. }
  destruct Hstep as [? ? ? Hkept ? ? ? Hs Hu].
  constructor; unfold consistent; rewrite ?count_app, ?Hm, ?Hc, ?Nat.add_0_r, ?Hset';
    rewrite ?Hc1; try done; try lia.
  - intros _ Hslot. rewrite Hcur'. by apply Hkept.
  - intros Hunset _. auto.
  - intros _. by rewrite <- Hsent.
  - intros u Hu'. rewrite Huser'. by apply Hu.
Qed.

Lemma Step_handleSessionError s properties :
  let r := handleSessionError s properties in Step s r.2 r.1.
Proof.
  cbn zeta. unfold handleSessionError.
  destruct properties as [props|]; [|apply Step_nothing].
  destruct (isAbortLikeOpenCodeError _); [apply Step_nothing|].
  by apply (Step_more s [] s), Step_nothing.
Qed.

Lemma Step_handleSessionStatus s properties :
  let r := handleSessionStatus s properties in Step s r.2 r.1.
Proof.
  cbn zeta. unfold handleSessionStatus.
  destruct properties as [props|]; [|apply Step_nothing].
  case_bool_decide; [apply Step_completeCurrentMessage|apply Step_nothing].
Qed.

Lemma Step_dispatch s env event :
  let r := dispatch s env event in Step s (res_out r) (res_state r).
Proof.
  cbn zeta. unfold dispatch.
  destruct (ev_type event) as [type|]; [|apply Step_nothing].
  destruct (_ || _); [apply Step_nothing|].
  case_bool_decide; [apply Step_handleMessageUpdate|].
  case_bool_decide.
  { unfold handlePartUpdate.
    destruct (ev_properties event) as [props|]; [|apply Step_nothing].
    destruct (p_part props) as [part|]; [|apply Step_nothing].
    destruct (part_id part) as [partId|]; [|apply Step_nothing].
    destruct (part_messageID part) as [messageID|]; [|apply Step_nothing].
    destruct (part_type part) as [type'|]; [|apply Step_nothing].
    destruct (Js.truthy partId); [|apply Step_nothing].
    destruct (Js.truthy messageID) eqn:Hid; [|apply Step_nothing].
    destruct (Js.truthy type'); simpl; [|apply Step_nothing].
    destruct (_ && _); [apply Step_nothing|].
    case_bool_decide; [by apply Step_handleTextPart|].
    destruct (part_callID part) as [callID|]; [|apply Step_nothing].
    destruct (part_tool part) as [tool|]; [|apply Step_nothing].
    destruct (_ && _); [|apply Step_nothing].
    by apply Step_handleToolPart. }
  case_bool_decide; [apply Step_completeCurrentMessage|].
  case_bool_decide; [apply Step_handleSessionStatus|].
  case_bool_decide; [apply Step_handleSessionError|apply Step_nothing].
Qed.

(** Every call of [process] is a [Step]. *)
Lemma Step_process s env event :
  Step s (process s env event).2 (process s env event).1.
Proof.
  pose proof (Step_dispatch (maybeBroadcastToolProgressHeartbeat s env).1 env event)
    as Hstep. cbn zeta in Hstep.
  assert (∀ o, isHeartbeat o = true → isMessage o = false) as Hm
    by (by intros [[]| | | | | |]).
  assert (∀ o, isHeartbeat o = true → isMessageComplete o = false) as Hc
    by (by intros [[]| | | | | |]).
  rewrite process_state.
  destruct Hstep as [? ? ? ? ? ? ? ? ?].
  constructor; unfold consistent in *;
    rewrite ?(process_count isMessage), ?(process_count isMessageComplete) by done;
    rewrite <- ?(heartbeat_slotSet s env), <- ?(heartbeat_hasRunningTools s env),
      <- ?(heartbeat_tools s env), <- ?(heartbeat_sent s env),
      <- ?(heartbeat_assistant s env), <- ?(heartbeat_user s env); done.
Qed.

(** ** Sequences of calls *)

Lemma run_cons s env event rest :
  run s ((env, event) :: rest)
  = ((run (process s env event).1 rest).1,
     (process s env event).2 :: (run (process s env event).1 rest).2).
Proof.
  simpl. destruct (process s env event) as [s1 out]. simpl.
  by destruct (run s1 rest) as [s2 outs].
Qed.

Lemma effects_cons s env event rest :
  effects s ((env, event) :: rest)
  = (process s env event).2 ++ effects (process s env event).1 rest.
Proof. unfold effects. by rewrite run_cons. Qed.

Lemma final_cons s env event rest :
  final s ((env, event) :: rest) = final (process s env event).1 rest.
Proof. unfold final. by rewrite run_cons. Qed.

Lemma trace_Forall (P : State * list Out * State → Prop) s calls :
  (∀ s env event, P (s, (process s env event).2, (process s env event).1)) →
  Forall P (trace s calls).
Proof.
  intros HP. revert s. induction calls as [|[env event] rest IH]; intros s; simpl.
  - constructor.
  - constructor; [apply HP|apply IH].
Qed.

(** ** Message completion waits for running tools *)

Lemma accepts_part env sessionID :
  accepts env sessionID →
  Js.truthy_opt (openCodeSessionId env)
  && negb (bool_decide (Some sessionID = openCodeSessionId env)) = false.
Proof.
  intros [-> | ->]; simpl; [done|].
  rewrite bool_decide_eq_true_2 by done. apply andb_false_r.
Qed.

Lemma truthy_ne s : s ≠ "" → Js.truthy s = true.
Proof. intros Hs. unfold Js.truthy. by rewrite bool_decide_eq_false_2. Qed.

Lemma dispatch_idle s env event :
  Idle event → dispatch s env event = returned (completeCurrentMessage s).
Proof. by intros [-> | ->]. Qed.

Lemma dispatch_toolPart s env sessionID messageID partID callID tool state delta :
  messageID ≠ "" → partID ≠ "" → callID ≠ "" → tool ≠ "" →
  accepts env sessionID →
  dispatch s env (partUpdated (toolPart sessionID messageID partID callID tool state) delta)
  = handleToolPart s env partID messageID
      (toolPart sessionID messageID partID callID tool state) callID tool.
Proof.
  intros Hm Hp Hc Ht Hacc. unfold dispatch, handlePartUpdate. simpl.
  rewrite !truthy_ne by done. simpl. by rewrite accepts_part.
Qed.

Lemma key_start_ne_end partId : partId +:+ ":start" ≠ partId +:+ ":end".
Proof. by intros H%(inj (String.app partId)). Qed.

Lemma key_args_ne_end partId : partId +:+ ":args" ≠ partId +:+ ":end".
Proof. by intros H%(inj (String.app partId)). Qed.

Lemma key_start_ne_args partId : partId +:+ ":start" ≠ partId +:+ ":args".
Proof. by intros H%(inj (String.app partId)). Qed.

(** ** The parts of [handleToolPart], by sent-event key *)

Lemma toolStartPhase_first s now cur partId toolCallId tool args :
  partId +:+ ":start" ∉ sentToolEvents s →
  toolStartPhase s now cur partId toolCallId tool args =
  ({| currentAssistantMessageId := currentAssistantMessageId s;
      currentOpenCodeUserMessageId := currentOpenCodeUserMessageId s;
      toolStates :=
        <[toolCallId := {| startEmitted := true;
                           argsEmitted := bool_decide (0 < length args)%nat;
                           endEmitted := false; status := Running |}]> (toolStates s);
      runningToolWatch :=
        Watch.set toolCallId
          {| toolName := tool; startedAt := now; lastUpdateAt := now;
             lastStatusBroadcastAt := 0 |} (runningToolWatch s);
      sentToolEvents :=
        if bool_decide (0 < length args)%nat
        then {[partId +:+ ":args"]} ∪ ({[partId +:+ ":start"]} ∪ sentToolEvents s)
        else {[partId +:+ ":start"]} ∪ sentToolEvents s |},
   [Broadcast (MsgToolStart cur partId toolCallId tool args); OnToolStart toolCallId]).
Proof. intros Hnew. unfold toolStartPhase. by rewrite bool_decide_eq_false_2. Qed.

Lemma toolStartPhase_args s now cur partId toolCallId tool args :
  partId +:+ ":start" ∈ sentToolEvents s →
  (0 < length args)%nat →
  partId +:+ ":args" ∉ sentToolEvents s →
  toolStartPhase s now cur partId toolCallId tool args =
  (with_watch (with_sent s ({[partId +:+ ":args"]} ∪ sentToolEvents s))
     (Watch.touch toolCallId now tool (runningToolWatch s)),
   [Broadcast (MsgToolStart cur partId toolCallId tool args)]).
Proof.
  intros Hstart Hargs Hnew. unfold toolStartPhase.
  rewrite (bool_decide_eq_true_2 (_ ∈ _)) by done.
  rewrite (bool_decide_eq_true_2 (_ < _)%nat) by done.
  by rewrite bool_decide_eq_false_2.
Qed.

Lemma toolStartPhase_settled s now cur partId toolCallId tool args :
  partId +:+ ":start" ∈ sentToolEvents s →
  ((0 < length args)%nat → partId +:+ ":args" ∈ sentToolEvents s) →
  toolStartPhase s now cur partId toolCallId tool args = (s, []).
Proof.
  intros Hstart Hargs. unfold toolStartPhase.
  rewrite (bool_decide_eq_true_2 (_ ∈ _)) by done. simpl.
  case_bool_decide; [|done]. by rewrite bool_decide_eq_true_2 by auto.
Qed.

Lemma toolStartPhase_settles s now cur partId toolCallId tool args :
  let r := toolStartPhase s now cur partId toolCallId tool args in
  partId +:+ ":start" ∈ sentToolEvents r.1
  ∧ ((0 < length args)%nat → partId +:+ ":args" ∈ sentToolEvents r.1).
Proof.
  cbn zeta. unfold toolStartPhase.
  repeat (case_bool_decide; simpl); split; intros; try set_solver; lia.
Qed.

Lemma toolStartPhase_tools_kept s now cur partId toolCallId tool args :
  partId +:+ ":start" ∈ sentToolEvents s →
  toolStates (toolStartPhase s now cur partId toolCallId tool args).1 = toolStates s.
Proof.
  intros Hstart. unfold toolStartPhase.
  rewrite (bool_decide_eq_true_2 (_ ∈ _)) by done. simpl.
  by destruct (_ && _).
Qed.

Lemma toolStartPhase_count_le s now cur partId toolCallId tool args :
  let r := toolStartPhase s now cur partId toolCallId tool args in
  (count isToolStart r.2 ≤ 1)%nat ∧ count isToolEnd r.2 = 0%nat.
Proof.
  cbn zeta. unfold toolStartPhase.
  repeat (case_bool_decide; simpl); unfold count; simpl; lia.
Qed.

Lemma toolMetadataPhase_thrown s now partId toolCallId tool state :
  res_thrown (toolMetadataPhase s now partId toolCallId tool state) = summaryThrows state.
Proof.
  unfold toolMetadataPhase, summaryThrows.
  destruct (state ≫= ps_metadata) as [metadata|]; simpl; [|done].
  destruct (md_summary metadata) as [summary|]; simpl; [|done].
  destruct (mapM summaryEntry summary); simpl; [|done].
  by destruct (negb _).
Qed.

Lemma toolMetadataPhase_tools s now partId toolCallId tool state :
  toolStates (res_state (toolMetadataPhase s now partId toolCallId tool state))
  = toolStates s.
Proof.
  unfold toolMetadataPhase.
  destruct (state ≫= ps_metadata) as [metadata|]; simpl; [|done].
  destruct (md_summary metadata) as [summary|]; simpl; [|done].
  destruct (mapM summaryEntry summary); simpl; [|done].
  by destruct (negb _).
Qed.

Lemma toolMetadataPhase_count s now partId toolCallId tool state :
  let r := toolMetadataPhase s now partId toolCallId tool state in
  count isToolStart (res_out r) = 0%nat ∧ count isToolEnd (res_out r) = 0%nat.
Proof.
  cbn zeta. unfold toolMetadataPhase.
  destruct (state ≫= ps_metadata) as [metadata|]; simpl; [|done].
  destruct (md_summary metadata) as [summary|]; simpl; [|done].
  destruct (mapM summaryEntry summary); simpl; [|done].
  by destruct (negb _).
Qed.

Lemma toolEndPhase_first s partId toolCallId tool state :
  isCompletion state = true →
  partId +:+ ":end" ∉ sentToolEvents s →
  ∃ result,
    toolEndPhase s partId toolCallId tool state =
    ({| currentAssistantMessageId := currentAssistantMessageId s;
        currentOpenCodeUserMessageId := currentOpenCodeUserMessageId s;
        toolStates :=
          alter (λ st, endStatus st (bool_decide (state ≫= ps_status = Some "completed")))
                toolCallId (toolStates s);
        runningToolWatch := Watch.delete toolCallId (runningToolWatch s);
        sentToolEvents := {[partId +:+ ":end"]} ∪ sentToolEvents s |},
     [Broadcast (MsgToolEnd partId toolCallId tool result 0)]).
Proof.
  intros Hdone Hnew. unfold toolEndPhase. unfold isCompletion in Hdone.
  rewrite Hdone. rewrite bool_decide_eq_false_2 by done. simpl. by eexists.
Qed.

Lemma toolEndPhase_settled s partId toolCallId tool state :
  (isCompletion state = true → partId +:+ ":end" ∈ sentToolEvents s) →
  toolEndPhase s partId toolCallId tool state = (s, []).
Proof.
  intros Hend. unfold toolEndPhase. fold (isCompletion state).
  destruct (isCompletion state); [|done].
  by rewrite bool_decide_eq_true_2 by auto.
Qed.

Lemma toolEndPhase_settles s partId toolCallId tool state :
  isCompletion state = true →
  partId +:+ ":end" ∈ sentToolEvents (toolEndPhase s partId toolCallId tool state).1.
Proof.
  intros Hdone. unfold toolEndPhase. fold (isCompletion state). rewrite Hdone.
  case_bool_decide; simpl; set_solver.
Qed.

Lemma toolEndPhase_count_le s partId toolCallId tool state :
  let r := toolEndPhase s partId toolCallId tool state in
  count isToolStart r.2 = 0%nat ∧ (count isToolEnd r.2 ≤ 1)%nat.
Proof.
  cbn zeta. unfold toolEndPhase.
  destruct (_ || _); [|by unfold count; simpl; lia].
  destruct (negb _); unfold count; simpl; lia.
Qed.

(** [handleToolPart] as the sequence of its parts. *)
Lemma handleToolPart_parts s env partId messageID part toolCallId toolName :
  let e := ensureAssistantMessage s env messageID in
  let r1 := toolStartPhase e.1.1 (clock_tool env) e.2 partId toolCallId toolName
              (default [] (part_state part ≫= ps_input)) in
  let r2 := toolMetadataPhase r1.1 (clock_tool env) partId toolCallId toolName
              (part_state part) in
  let r3 := toolEndPhase (res_state r2) partId toolCallId toolName (part_state part) in
  handleToolPart s env partId messageID part toolCallId toolName =
  if summaryThrows (part_state part)
  then {| res_state := res_state r2; res_out := e.1.2 ++ r1.2 ++ res_out r2;
          res_thrown := true |}
  else {| res_state := r3.1; res_out := e.1.2 ++ r1.2 ++ res_out r2 ++ r3.2;
          res_thrown := false |}.
Proof.
  cbn zeta. unfold handleToolPart.
  destruct (ensureAssistantMessage s env messageID) as [[s1 out1] cur]. simpl.
  destruct (toolStartPhase _ _ _ _ _ _ _) as [s2 out2]. simpl.
  rewrite <- (toolMetadataPhase_thrown s2 (clock_tool env) partId toolCallId toolName).
  destruct (res_thrown _); [done|].
  by destruct (toolEndPhase _ _ _ _ _).
Qed.

(** ** The reordered turn: idle, tool completion, idle again *)

Lemma accepts_info env sessionID :
  accepts env sessionID →
  ∀ messageID role,
    Js.truthy_opt (openCodeSessionId env) && Js.truthy sessionID
    && negb (bool_decide (infoSessionId (messageInfo sessionID messageID role)
                          = openCodeSessionId env)) = false.
Proof.
  intros [-> | ->] messageID role; [done|]. unfold infoSessionId. simpl.
  rewrite bool_decide_eq_true_2 by done. apply andb_false_r.
Qed.

Lemma process_assistant_created s env sessionID messageID :
  messageID ≠ "" → accepts env sessionID → slotSet s = false →
  let p := process s env (messageUpdated (messageInfo sessionID messageID "assistant")) in
  currentAssistantMessageId p.1 = Some messageID
  ∧ toolStates p.1 = toolStates s
  ∧ sentToolEvents p.1 = sentToolEvents s
  ∧ count isMessage p.2 = 1%nat
  ∧ count isMessageComplete p.2 = 0%nat.
Proof.
  intros Hid Hacc Hunset. cbn zeta.
  rewrite process_state, !process_count by (by intros [[]| | | | | |] || done).
  rewrite <- heartbeat_slotSet with (env := env) in Hunset.
  rewrite <- (heartbeat_tools s env), <- (heartbeat_sent s env).
  set (h := (maybeBroadcastToolProgressHeartbeat s env).1) in *.
  unfold dispatch, handleMessageUpdate. simpl.
  rewrite truthy_ne by done. simpl.
  rewrite accepts_info by done.
  rewrite ensureAssistantMessage_unset by done.
  by rewrite bool_decide_eq_true_2 by done.
Qed.

Lemma process_toolPart s env sessionID messageID partID callID tool state delta :
  messageID ≠ "" → partID ≠ "" → callID ≠ "" → tool ≠ "" →
  accepts env sessionID →
  let h := (maybeBroadcastToolProgressHeartbeat s env).1 in
  let part := toolPart sessionID messageID partID callID tool state in
  let r := handleToolPart h env partID messageID part callID tool in
  let p := process s env (partUpdated part delta) in
  p.1 = res_state r
  ∧ ∀ q, (∀ o, isHeartbeat o = true → q o = false) →
         (∀ t, q (LogProcessingError t) = false) →
         count q p.2 = count q (res_out r).
Proof.
  intros Hm Hp Hc Ht Hacc. cbn zeta. split.
  - by rewrite process_state, dispatch_toolPart.
  - intros q Hq1 Hq2. by rewrite process_count, dispatch_toolPart.
Qed.

Lemma toolRunning_heartbeat partID callID s env :
  toolRunning partID callID s →
  toolRunning partID callID (maybeBroadcastToolProgressHeartbeat s env).1.
Proof.
  unfold toolRunning.
  by rewrite heartbeat_slotSet, heartbeat_tools, heartbeat_sent.
Qed.

Lemma toolRunning_hasRunningTools partID callID s :
  toolRunning partID callID s → hasRunningTools s = true.
Proof.
  intros (_ & (st & Htools & Hst) & _). apply hasRunningTools_true.
  exists callID, st. by rewrite Htools, lookup_singleton_eq.
Qed.

Lemma toolEnded_hasRunningTools callID s :
  toolEnded callID s → hasRunningTools s = false.
Proof.
  intros (_ & st & Htools & Hst). apply hasRunningTools_false.
  intros id st'. rewrite Htools. intros [_ <-]%lookup_singleton_Some. done.
Qed.

Lemma tool_starts s env sessionID messageID partID callID tool input output :
  messageID ≠ "" → partID ≠ "" → callID ≠ "" → tool ≠ "" →
  accepts env sessionID →
  slotSet s = true → toolStates s = ∅ → sentToolEvents s = ∅ →
  let p := process s env
             (partUpdated (toolPart sessionID messageID partID callID tool
                             (Some (toolState "running" input output))) None) in
  toolRunning partID callID p.1 ∧ count isMessageComplete p.2 = 0%nat.
Proof.
  intros Hm Hp Hc Ht Hacc Hset Htools Hsent. cbn zeta.
  destruct (process_toolPart s env sessionID messageID partID callID tool
              (Some (toolState "running" input output)) None) as [-> Hcount]; try done.
  rewrite Hcount by (by intros [[]| | | | | |] || done). clear Hcount.
  rewrite <- heartbeat_slotSet with (env := env) in Hset.
  rewrite <- (heartbeat_tools s env) in Htools.
  rewrite <- (heartbeat_sent s env) in Hsent.
  set (h := (maybeBroadcastToolProgressHeartbeat s env).1) in *.
  rewrite handleToolPart_parts. simpl.
  destruct (ensureAssistantMessage_set h env messageID Hset) as (cur & Hcur & ->).
  simpl. rewrite toolStartPhase_first by (rewrite Hsent; set_solver). simpl.
  unfold toolMetadataPhase, toolEndPhase. simpl. split; [|done].
  unfold toolRunning, slotSet. simpl. fold (slotSet h). rewrite Htools, Hsent.
  split; [done|]. split; [eexists; split; [apply insert_empty|done]|].
  pose proof (key_start_ne_end partID) as Hne1.
  pose proof (key_args_ne_end partID) as Hne2.
  case_bool_decide; set_solver.
Qed.

Lemma idle_blocked s env event :
  Idle event → hasRunningTools s = true →
  let p := process s env event in
  p.1 = (maybeBroadcastToolProgressHeartbeat s env).1
  ∧ count isMessageComplete p.2 = 0%nat.
Proof.
  intros Hidle Hrun. cbn zeta.
  rewrite process_state, process_count by (by intros [[]| | | | | |] || done).
  rewrite dispatch_idle by done.
  rewrite <- heartbeat_hasRunningTools with (env := env) in Hrun.
  unfold completeCurrentMessage.
  destruct (currentAssistantMessageId _) as [cur|]; [|done].
  destruct (Js.truthy cur); [|done]. simpl. by rewrite Hrun.
Qed.

Lemma tool_ends s env sessionID messageID partID callID tool (failed : bool) input output :
  messageID ≠ "" → partID ≠ "" → callID ≠ "" → tool ≠ "" →
  accepts env sessionID →
  toolRunning partID callID s →
  let p := process s env
             (partUpdated (toolPart sessionID messageID partID callID tool
                             (Some (toolState (if failed then "error" else "completed")
                                      input output))) None) in
  toolEnded callID p.1 ∧ count isMessageComplete p.2 = 0%nat.
Proof.
  intros Hm Hp Hc Ht Hacc Hrun. cbn zeta.
  destruct (process_toolPart s env sessionID messageID partID callID tool
              (Some (toolState (if failed then "error" else "completed") input output))
              None) as [-> Hcount]; try done.
  rewrite Hcount by (by intros [[]| | | | | |] || done). clear Hcount.
  apply (toolRunning_heartbeat _ _ _ env) in Hrun.
  set (h := (maybeBroadcastToolProgressHeartbeat s env).1) in *.
  destruct Hrun as (Hset & (st & Htools & Hst) & Hstart & Hend).
  rewrite handleToolPart_parts. simpl.
  destruct (ensureAssistantMessage_set h env messageID Hset) as (cur & Hcur & ->).
  simpl.
  set (r1 := toolStartPhase h (clock_tool env) cur partID callID tool input).
  assert (toolStates r1.1 = toolStates h) as Htools1
    by (by apply toolStartPhase_tools_kept).
  assert (currentAssistantMessageId r1.1 = currentAssistantMessageId h
          ∧ (partID +:+ ":end" ∉ sentToolEvents r1.1)
          ∧ count isMessageComplete r1.2 = 0%nat) as (Hcur1 & Hend1 & Hc1).
  { subst r1. unfold toolStartPhase.
    rewrite (bool_decide_eq_true_2 (_ ∈ _)) by done. simpl.
    pose proof (key_args_ne_end partID) as Hne.
    destruct (_ && _); simpl; repeat split; try done; set_solver. }
  unfold toolMetadataPhase. simpl.
  destruct (toolEndPhase_first r1.1 partID callID tool
              (Some (toolState (if failed then "error" else "completed") input output)))
    as [result ->]; [by destruct failed|done|].
  simpl. split.
  - unfold toolEnded, slotSet. simpl. rewrite Hcur1. fold (slotSet h).
    split; [done|]. rewrite Htools1, Htools, alter_singleton_eq.
    eexists. split; [done|]. simpl. by destruct (bool_decide _).
  - rewrite !count_app, Hc1. done.
Qed.

Lemma idle_completes callID s env event :
  Idle event → toolEnded callID s →
  let p := process s env event in
  slotSet p.1 = false ∧ count isMessageComplete p.2 = 1%nat.
Proof.
  intros Hidle Hended. cbn zeta.
  rewrite process_state, process_count by (by intros [[]| | | | | |] || done).
  rewrite dispatch_idle by done.
  pose proof (toolEnded_hasRunningTools _ _ Hended) as Hrun.
  destruct Hended as (Hset & st & Htools & Hst).
  rewrite <- heartbeat_hasRunningTools with (env := env) in Hrun.
  rewrite <- heartbeat_slotSet with (env := env) in Hset.
  rewrite <- (heartbeat_tools s env) in Htools.
  set (h := (maybeBroadcastToolProgressHeartbeat s env).1) in *.
  unfold completeCurrentMessage, slotSet in *.
  destruct (currentAssistantMessageId h) as [cur|]; [|done]. simpl in Hset.
  rewrite Hset, Hrun, Htools, map_size_singleton. simpl. by split.
Qed.

Lemma idle_without_message s env event :
  Idle event → slotSet s = false →
  let p := process s env event in
  slotSet p.1 = false ∧ count isMessageComplete p.2 = 0%nat.
Proof.
  intros Hidle Hunset. cbn zeta.
  rewrite process_state, process_count by (by intros [[]| | | | | |] || done).
  rewrite dispatch_idle by done.
  rewrite <- heartbeat_slotSet with (env := env) in Hunset.
  set (h := (maybeBroadcastToolProgressHeartbeat s env).1) in *.
  unfold completeCurrentMessage, slotSet in *.
  destruct (currentAssistantMessageId h) as [cur|] eqn:Hcur; simpl;
    [|by rewrite Hcur].
  simpl in Hunset. rewrite Hunset. simpl. by rewrite Hcur.
Qed.

Lemma idles_without_message s idles :
  Forall (λ call, Idle call.2) idles → slotSet s = false →
  count isMessageComplete (effects s idles) = 0%nat.
Proof.
  intros Hidles. revert s. induction Hidles as [|[env event] idles Hidle _ IH];
    intros s Hunset; [done|].
  rewrite effects_cons, count_app.
  destruct (idle_without_message s env event Hidle Hunset) as [Hunset' ->].
  by apply IH.
Qed.

(** C1.  Along every sequence of calls, a call that broadcasts
    [message_complete] starts from fields in which no tracked tool has status
    running.  And for a turn with an assistant message and one tool call, in
    which an idle report arrives before the tool's completion and one or more
    arrive after it, exactly one [message_complete] is broadcast. *)
Theorem message_complete_waits_for_tools :
  (∀ s calls,
     Forall (λ step,
               (0 < count isMessageComplete step.1.2)%nat →
               hasRunningTools step.1.1 = false
               ∧ ∀ id st, toolStates step.1.1 !! id = Some st → status st ≠ Running)
            (trace s calls))
  ∧ (∀ sessionID messageID partID callID tool input input' output output'
       (failed : bool) env1 env2 env3 env4 idle idles,
       messageID ≠ "" → partID ≠ "" → callID ≠ "" → tool ≠ "" →
       accepts env1 sessionID → accepts env2 sessionID → accepts env4 sessionID →
       Idle idle → idles ≠ [] → Forall (λ call, Idle call.2) idles →
       count isMessageComplete
         (effects initial
            ([(env1, messageUpdated (messageInfo sessionID messageID "assistant"));
              (env2, partUpdated
                       (toolPart sessionID messageID partID callID tool
                          (Some (toolState "running" input output))) None);
              (env3, idle);
              (env4, partUpdated
                       (toolPart sessionID messageID partID callID tool
                          (Some (toolState (if failed then "error" else "completed")
                                   input' output'))) None)]
             ++ idles))
       = 1%nat).
Proof.
  split.
  - intros s calls. apply trace_Forall. clear. intros s env event. simpl.
    intros Hcomplete.
    destruct (step_complete_tools _ _ _ (Step_process s env event) Hcomplete)
      as [Hrun _].
    split; [done|]. by apply hasRunningTools_false.
  - intros sessionID messageID partID callID tool input input' output output' failed
      env1 env2 env3 env4 idle idles Hm Hp Hc Ht Hacc1 Hacc2 Hacc4 Hidle Hsome Hidles.
    destruct idles as [|[env5 idle5] idles]; [done|].
    apply Forall_cons in Hidles as [Hidle5 Hidles]. simpl in Hidle5.
    simpl app. rewrite !effects_cons, !count_app.
    destruct (process_assistant_created initial env1 sessionID messageID Hm Hacc1 eq_refl)
      as (Hcur1 & Htools1 & Hsent1 & _ & ->).
    set (s1 := (process initial env1 _).1) in *.
    assert (slotSet s1 = true) as Hset1.
    { unfold slotSet. rewrite Hcur1. by apply truthy_ne. }
    destruct (tool_starts s1 env2 sessionID messageID partID callID tool input output
                Hm Hp Hc Ht Hacc2 Hset1 Htools1 Hsent1) as [Hrun2 ->].
    set (s2 := (process s1 env2 _).1) in *.
    destruct (idle_blocked s2 env3 idle Hidle
                (toolRunning_hasRunningTools _ _ _ Hrun2)) as [Hs3 ->].
    pose proof (toolRunning_heartbeat _ _ _ env3 Hrun2) as Hrun3.
    rewrite <- Hs3 in Hrun3.
    set (s3 := (process s2 env3 idle).1) in *.
    destruct (tool_ends s3 env4 sessionID messageID partID callID tool failed input' output'
                Hm Hp Hc Ht Hacc4 Hrun3) as [Hended ->].
    set (s4 := (process s3 env4 _).1) in *.
    destruct (idle_completes callID s4 env5 idle5 Hidle5 Hended) as [Hunset ->].
    by rewrite idles_without_message.
Qed.

Lemma message_complete_waits_for_tools_witness :
  count isMessageComplete
    (effects initial
       ([(quietEnv, messageUpdated (messageInfo "ses" "msg_1" "assistant"));
         (quietEnv, partUpdated
                      (toolPart "ses" "msg_1" "prt_1" "call_1" "bash"
                         (Some (toolState "running" [("command", "ls")] None))) None);
         (quietEnv, sessionIdle);
         (quietEnv, partUpdated
                      (toolPart "ses" "msg_1" "prt_1" "call_1" "bash"
                         (Some (toolState "completed" [("command", "ls")] (Some "ok"))))
                      None)]
        ++ [(quietEnv, sessionIdle); (quietEnv, sessionStatus "idle")]))
  = 1%nat.
Proof.
  apply (proj2 message_complete_waits_for_tools
           "ses" "msg_1" "prt_1" "call_1" "bash" [("command", "ls")] [("command", "ls")]
           None (Some "ok") false quietEnv quietEnv quietEnv quietEnv sessionIdle
           [(quietEnv, sessionIdle); (quietEnv, sessionStatus "idle")]);
    try discriminate; try (by left); try (by left; reflexivity).
  constructor; [by left|]. constructor; [by right|]. constructor.
Defined.

(** ** One assistant message per turn *)





Lemma consistent_initial : consistent initial.
Proof. by intros _. Qed.

Lemma dispatch_textPart s env sessionID messageID partID text delta :
  messageID ≠ "" → partID ≠ "" → accepts env sessionID →
  dispatch s env (partUpdated (textPart sessionID messageID partID text) delta)
  = returned (handleTextPart s env partID messageID
                (textPart sessionID messageID partID text) delta).
Proof.
  intros Hm Hp Hacc. unfold dispatch, handlePartUpdate. simpl.
  rewrite !truthy_ne by done. simpl. by rewrite accepts_part.
Qed.





(** ** Reset isolation *)

Lemma Carries_nil P : Carries P [].
Proof. by intros o id Ho%elem_of_nil. Qed.

Lemma Carries_app P out1 out2 :
  Carries P out1 → Carries P out2 → Carries P (out1 ++ out2).
Proof. intros H1 H2 o id [Ho|Ho]%elem_of_app; eauto. Qed.

Lemma Carries_none P out :
  (∀ o, o ∈ out → carriedMessageId o = None) → Carries P out.
Proof. intros Hnone o id Ho Hid. by rewrite (Hnone o Ho) in Hid. Qed.

Lemma Carries_heartbeat P out : forallb isHeartbeat out = true → Carries P out.
Proof.
  intros Hout. apply Carries_none. intros o Ho.
  rewrite List.forallb_forall in Hout. apply list_elem_of_In, Hout in Ho.
  by destruct o as [[]| | | | | |].
Qed.

Lemma carries_ensureAssistantMessage P s env messageId :
  slotIn P s → P messageId →
  let e := ensureAssistantMessage s env messageId in
  Carries P e.1.2 ∧ slotIn P e.1.1 ∧ P e.2.
Proof.
  intros Hslot Hid. cbn zeta. unfold ensureAssistantMessage.
  assert (Carries P [Broadcast (MsgMessage messageId (clock_created env))]
          ∧ slotIn P (with_assistant s (Some messageId))) as [Hnew Hnew'].
  { split.
    - intros o id ->%list_elem_of_singleton [= <-]. done.
    - by intros id [= <-]. }
  destruct (currentAssistantMessageId s) as [cur|] eqn:Hcur; [|done].
  destruct (Js.truthy cur); [|done]. simpl.
  split; [apply Carries_nil|]. split; [done|]. by apply Hslot.
Qed.

Lemma carries_completeCurrentMessage P s :
  slotIn P s →
  Carries P (completeCurrentMessage s).2 ∧ slotIn P (completeCurrentMessage s).1.
Proof.
  intros Hslot. unfold completeCurrentMessage.
  destruct (currentAssistantMessageId s) as [cur|] eqn:Hcur;
    [|split; [apply Carries_nil|done]].
  destruct (negb _); [split; [apply Carries_nil|done]|].
  destruct (hasRunningTools s); [split; [apply Carries_nil|done]|].
  simpl. split.
  - intros o id Ho Hid. apply Hslot.
    repeat (apply elem_of_cons in Ho as [-> | Ho]); try done.
    + by injection Hid as <-.
    + by apply elem_of_nil in Ho.
  - intros id. simpl. destruct (bool_decide _); [done|].
    intros [= <-]. by apply Hslot.
Qed.

Lemma carries_handleMessageUpdate P s env properties :
  slotIn P s →
  (∀ info id, properties ≫= p_info = Some info → info_id info = Some id → P id) →
  let r := handleMessageUpdate s env properties in
  Carries P r.2 ∧ slotIn P r.1.
Proof.
  intros Hslot Hid. cbn zeta. unfold handleMessageUpdate.
  destruct (properties ≫= p_info) as [info|]; [|split; [apply Carries_nil|done]].
  destruct (info_id info) as [messageId|] eqn:Hinfo; [|split; [apply Carries_nil|done]].
  specialize (Hid info messageId eq_refl Hinfo).
  destruct (info_role info) as [role|]; [|split; [apply Carries_nil|done]].
  destruct (_ || _); [split; [apply Carries_nil|done]|].
  destruct (_ && _ && _); [split; [apply Carries_nil|done]|].
  case_bool_decide.
  { destruct (currentOpenCodeUserMessageId s); split; (apply Carries_nil || done). }
  case_bool_decide; simpl; [|split; [apply Carries_nil|done]].
  pose proof (carries_ensureAssistantMessage P s env messageId Hslot Hid) as He.
  destruct (ensureAssistantMessage s env messageId) as [[s1 out1] cur].
  simpl in He. destruct He as (Hout1 & Hslot1 & Hcur).
  case_bool_decide; simpl; [|done].
  set (out2 := match getOpenCodeErrorMessage (info_error info) with
               | Some _ => _ | None => _ end).
  assert (Carries P out2) as Hout2.
  { apply Carries_none. subst out2. intros o Ho.
    destruct (getOpenCodeErrorMessage _) as [msg|]; [|by apply elem_of_nil in Ho].
    destruct (Js.truthy msg); [|by apply elem_of_nil in Ho].
    destruct (isAbortLikeOpenCodeError _); [by apply elem_of_nil in Ho|].
    by apply list_elem_of_singleton in Ho as ->. }
  destruct (info_completed info).
  - destruct (carries_completeCurrentMessage P s1 Hslot1) as [Hout3 Hslot3].
    destruct (completeCurrentMessage s1) as [s2 out3]. simpl in *.
    split; [|done]. by repeat apply Carries_app.
  - split; [|done]. by apply Carries_app.
Qed.

Lemma carries_handleTextPart P s env partId messageID part delta :
  slotIn P s → P messageID →
  let r := handleTextPart s env partId messageID part delta in
  Carries P r.2 ∧ slotIn P r.1.
Proof.
  intros Hslot Hid. cbn zeta. unfold handleTextPart.
  set (s0 := match currentOpenCodeUserMessageId s with
             | None => with_user s (Some messageID) | Some _ => s end).
  assert (slotIn P s0) as Hslot0 by (subst s0; by destruct (currentOpenCodeUserMessageId s)).
  case_bool_decide; [split; [apply Carries_nil|done]|].
  pose proof (carries_ensureAssistantMessage P s0 env messageID Hslot0 Hid) as He.
  destruct (ensureAssistantMessage s0 env messageID) as [[s1 out1] cur].
  simpl in He. destruct He as (Hout1 & Hslot1 & Hcur).
  set (complete := match part_text part with Some _ => _ | None => _ end).
  assert (Carries P complete) as Hcomplete.
  { subst complete. intros o id Ho Hcarried.
    destruct (part_text part) as [text|]; [|by apply elem_of_nil in Ho].
    destruct (Js.truthy text); [|by apply elem_of_nil in Ho].
    repeat (apply elem_of_cons in Ho as [-> | Ho]); try done.
    + by injection Hcarried as <-.
    + by apply elem_of_nil in Ho. }
  destruct delta as [d|]; [destruct (Js.truthy d)|]; simpl;
    (split; [|done]); apply Carries_app; try done.
  intros o id ->%list_elem_of_singleton [= <-]. done.
Qed.

Lemma carries_toolStartPhase P s now cur partId toolCallId tool args :
  P cur → Carries P (toolStartPhase s now cur partId toolCallId tool args).2.
Proof.
  intros Hcur. unfold toolStartPhase.
  destruct (negb _); simpl.
  - intros o id Ho Hcarried.
    repeat (apply elem_of_cons in Ho as [-> | Ho]); try done.
    + by injection Hcarried as <-.
    + by apply elem_of_nil in Ho.
  - destruct (_ && _); simpl; [|apply Carries_nil].
    intros o id ->%list_elem_of_singleton [= <-]. done.
Qed.

Lemma carries_toolMetadataPhase P s now partId toolCallId tool state :
  Carries P (res_out (toolMetadataPhase s now partId toolCallId tool state)).
Proof.
  unfold toolMetadataPhase.
  destruct (state ≫= ps_metadata) as [metadata|]; simpl; [|apply Carries_nil].
  destruct (md_summary metadata) as [summary|]; simpl; [|apply Carries_nil].
  destruct (mapM summaryEntry summary); simpl; [|apply Carries_nil].
  destruct (negb _); simpl; [|apply Carries_nil].
  intros o id Ho Hcarried.
  repeat (apply elem_of_cons in Ho as [-> | Ho]); try done.
  by apply elem_of_nil in Ho.
Qed.

Lemma carries_toolEndPhase P s partId toolCallId tool state :
  Carries P (toolEndPhase s partId toolCallId tool state).2.
Proof.
  unfold toolEndPhase.
  destruct (_ || _); [|apply Carries_nil].
  destruct (negb _); simpl; [|apply Carries_nil].
  by intros o id ->%list_elem_of_singleton.
Qed.

Lemma carries_handleToolPart P s env partId messageID part toolCallId toolName :
  slotIn P s → P messageID →
  let r := handleToolPart s env partId messageID part toolCallId toolName in
  Carries P (res_out r) ∧ slotIn P (res_state r).
Proof.
  intros Hslot Hid. cbn zeta.
  destruct (handleToolPart_phase s env partId messageID part toolCallId toolName)
    as (_ & _ & _ & Hcur' & _).
  rewrite handleToolPart_parts in *. cbn zeta in *.
  pose proof (carries_ensureAssistantMessage P s env messageID Hslot Hid) as He.
  destruct (ensureAssistantMessage s env messageID) as [[s1 out1] cur].
  simpl in *. destruct He as (Hout1 & Hslot1 & Hcur).
  pose proof (carries_toolStartPhase P s1 (clock_tool env) cur partId toolCallId toolName
                (default [] (part_state part ≫= ps_input)) Hcur) as Hout2.
  set (r1 := toolStartPhase _ _ _ _ _ _ _) in *.
  pose proof (carries_toolMetadataPhase P r1.1 (clock_tool env) partId toolCallId toolName
                (part_state part)) as Hout3.
  set (r2 := toolMetadataPhase _ _ _ _ _ _) in *.
  pose proof (carries_toolEndPhase P (res_state r2) partId toolCallId toolName
                (part_state part)) as Hout4.
  assert (∀ s', currentAssistantMessageId s' = currentAssistantMessageId s1 → slotIn P s')
    as Hsame.
  { intros s' Hs' id. rewrite Hs'. apply Hslot1. }
  destruct (summaryThrows _); simpl in *.
  - split; [by repeat apply Carries_app|by apply Hsame].
  - split; [by repeat apply Carries_app|by apply Hsame].
Qed.

Lemma carries_dispatch P s env event :
  slotIn P s → (∀ id, id ∈ eventMessageIds event → P id) →
  let r := dispatch s env event in
  Carries P (res_out r) ∧ slotIn P (res_state r).
Proof.
  intros Hslot Hids. cbn zeta. unfold dispatch.
  assert (Carries P [] ∧ slotIn P s) as Hnothing by (split; [apply Carries_nil|done]).
  destruct (ev_type event) as [type|]; [|done].
  destruct (_ || _); [done|].
  case_bool_decide.
  { apply carries_handleMessageUpdate; [done|]. intros info id Hinfo Hid.
    apply Hids. unfold eventMessageIds.
    destruct (ev_properties event) as [props|]; [|done]. simpl in *.
    rewrite Hinfo. simpl. rewrite Hid. simpl. left. }
  case_bool_decide.
  { unfold handlePartUpdate, eventMessageIds in *.
    destruct (ev_properties event) as [props|]; [|done].
    destruct (p_part props) as [part|]; [|done].
    destruct (part_id part) as [partId|]; [|done].
    destruct (part_messageID part) as [messageID|] eqn:Hmid; [|done].
    assert (P messageID) as Hid.
    { apply Hids. simpl. rewrite Hmid.
      destruct (p_info props ≫= info_id); simpl; set_solver. }
    destruct (part_type part) as [type'|]; [|done].
    destruct (_ || _ || _); [done|].
    destruct (_ && _); [done|].
    case_bool_decide; [by apply carries_handleTextPart|].
    destruct (part_callID part) as [callID|]; [|done].
    destruct (part_tool part) as [tool|]; [|done].
    destruct (_ && _); [|done].
    by apply carries_handleToolPart. }
  case_bool_decide; [by apply carries_completeCurrentMessage|].
  case_bool_decide.
  { unfold handleSessionStatus. destruct (ev_properties event) as [props|]; [|done].
    case_bool_decide; [by apply carries_completeCurrentMessage|done]. }
  case_bool_decide; [|done].
  unfold handleSessionError. destruct (ev_properties event) as [props|]; [|done].
  destruct (isAbortLikeOpenCodeError _); [done|]. simpl. split; [|done].
  by intros o id ->%list_elem_of_singleton.
Qed.

Lemma carries_process P s env event :
  slotIn P s → (∀ id, id ∈ eventMessageIds event → P id) →
  Carries P (process s env event).2 ∧ slotIn P (process s env event).1.
Proof.
  intros Hslot Hids. rewrite process_unfold. cbn zeta. simpl.
  assert (slotIn P (maybeBroadcastToolProgressHeartbeat s env).1) as Hslot'.
  { intros id. rewrite heartbeat_assistant. apply Hslot. }
  destruct (carries_dispatch P _ env event Hslot' Hids) as [Hout Hfin].
  split; [|done]. repeat apply Carries_app; [|done|].
  - apply Carries_heartbeat, heartbeat_out.
  - destruct (res_thrown _); [|apply Carries_nil].
    by intros o id ->%list_elem_of_singleton.
Qed.

Lemma carries_effects P s calls :
  slotIn P s →
  (∀ call id, call ∈ calls → id ∈ eventMessageIds call.2 → P id) →
  Carries P (effects s calls) ∧ slotIn P (final s calls).
Proof.
  revert s. induction calls as [|[env event] rest IH]; intros s Hslot Hids.
  { split; [apply Carries_nil|done]. }
  rewrite effects_cons, final_cons.
  destruct (carries_process P s env event Hslot) as [Hout Hslot'].
  { intros id Hid. apply (Hids (env, event)); [left|done]. }
  destruct (IH (process s env event).1 Hslot') as [Hrest Hfin].
  { intros call id Hcall. apply Hids. by right. }
  split; [by apply Carries_app|done].
Qed.

(** C5.  [resetForNewPrompt] empties the assistant-message slot, the user
    message id, the tool states, the sent-event keys and the running-tool
    watches.  Whatever events are fed afterwards, every assistant-message id
    carried by a broadcast, and the id left in the slot, is the message id of
    one of those events; so an id held before the reset that no later event
    mentions is never broadcast again. *)
Theorem reset_isolation :
  (∀ s, resetForNewPrompt s = initial)
  ∧ (∀ s calls,
       let mentioned id := ∃ call, call ∈ calls ∧ id ∈ eventMessageIds call.2 in
       (∀ o id, o ∈ effects (resetForNewPrompt s) calls →
                carriedMessageId o = Some id → mentioned id)
       ∧ (∀ id, currentAssistantMessageId (final (resetForNewPrompt s) calls) = Some id →
                mentioned id))
  ∧ (∀ s calls stale,
       currentAssistantMessageId s = Some stale →
       (∀ call, call ∈ calls → stale ∉ eventMessageIds call.2) →
       ∀ o, o ∈ effects (resetForNewPrompt s) calls → carriedMessageId o ≠ Some stale).
Proof.
  assert (∀ s calls,
            let mentioned id := ∃ call, call ∈ calls ∧ id ∈ eventMessageIds call.2 in
            Carries mentioned (effects (resetForNewPrompt s) calls)
            ∧ slotIn mentioned (final (resetForNewPrompt s) calls)) as Hcarries.
  { intros s calls mentioned. apply carries_effects; [done|].
    intros call id Hcall Hid. by exists call. }
  split; [done|]. split; [exact Hcarries|].
  intros s calls stale _ Hfresh o Ho Hstale.
  destruct (Hcarries s calls) as [Hout _].
  destruct (Hout o stale Ho Hstale) as (call & Hcall & Hid).
  by apply (Hfresh call).
Qed.

Lemma reset_isolation_witness :
  Forall (λ o, carriedMessageId o ≠ Some "msg_old")
    (effects
       (resetForNewPrompt
          (process initial quietEnv
             (messageUpdated (messageInfo "ses" "msg_old" "assistant"))).1)
       [(quietEnv, messageUpdated (messageInfo "ses" "msg_user" "user"));
        (quietEnv, partUpdated (textPart "ses" "msg_new" "prt_1" None) (Some "Hi"))]).
Proof.
  destruct reset_isolation as (_ & _ & Hstale).
  apply Forall_forall.
  apply (Hstale _ _ "msg_old"); [reflexivity|].
  intros call Hcall Hid.
  repeat (apply elem_of_cons in Hcall as [-> | Hcall]);
    [| |by apply elem_of_nil in Hcall];
    vm_compute in Hid;
    repeat (apply elem_of_cons in Hid as [Hid | Hid]); try discriminate;
    by apply elem_of_nil in Hid.
Defined.

(** ** The echoed user message *)

Lemma user_kept s calls user :
  currentOpenCodeUserMessageId s = Some user →
  currentOpenCodeUserMessageId (final s calls) = Some user.
Proof.
  revert s. induction calls as [|[env event] rest IH]; intros s Huser; [done|].
  rewrite final_cons. apply IH.
  by apply (step_user _ _ _ (Step_process s env event)).
Qed.

Lemma process_user_recorded s env sessionID messageID :
  messageID ≠ "" → accepts env sessionID →
  currentOpenCodeUserMessageId s = None →
  currentOpenCodeUserMessageId
    (process s env (messageUpdated (messageInfo sessionID messageID "user"))).1
  = Some messageID.
Proof.
  intros Hid Hacc Hnone. rewrite process_state.
  rewrite <- (heartbeat_user s env) in Hnone.
  set (h := (maybeBroadcastToolProgressHeartbeat s env).1) in *.
  unfold dispatch, handleMessageUpdate. simpl.
  rewrite truthy_ne by done. simpl.
  rewrite accepts_info by done. by rewrite Hnone.
Qed.

Lemma process_first_text_recorded s env sessionID messageID partID text delta :
  messageID ≠ "" → partID ≠ "" → accepts env sessionID →
  currentOpenCodeUserMessageId s = None →
  let p := process s env (partUpdated (textPart sessionID messageID partID text) delta) in
  currentOpenCodeUserMessageId p.1 = Some messageID
  ∧ count isToken p.2 = 0%nat ∧ count isTextPartComplete p.2 = 0%nat.
Proof.
  intros Hm Hp Hacc Hnone. cbn zeta.
  rewrite process_state, !process_count by (by intros [[]| | | | | |] || done).
  rewrite dispatch_textPart by done.
  rewrite <- (heartbeat_user s env) in Hnone.
  set (h := (maybeBroadcastToolProgressHeartbeat s env).1) in *.
  unfold handleTextPart. rewrite Hnone. simpl.
  by rewrite bool_decide_eq_true_2.
Qed.

Lemma process_user_text_suppressed s env event props part user :
  currentOpenCodeUserMessageId s = Some user →
  ev_type event = Some "message.part.updated" →
  ev_properties event = Some props →
  p_part props = Some part →
  part_type part = Some "text" →
  part_messageID part = Some user →
  let p := process s env event in
  count isToken p.2 = 0%nat ∧ count isTextPartComplete p.2 = 0%nat
  ∧ count isMessage p.2 = 0%nat.
Proof.
  intros Huser Htype Hprops Hpart Htext Hmid. cbn zeta.
  rewrite !process_count by (by intros [[]| | | | | |] || done).
  rewrite <- (heartbeat_user s env) in Huser.
  set (h := (maybeBroadcastToolProgressHeartbeat s env).1) in *.
  unfold dispatch, handlePartUpdate. rewrite Htype, Hprops, Hpart, Htext, Hmid. simpl.
  destruct (part_id part) as [partId|]; [|done].
  destruct (_ || _ || _); [done|].
  destruct (_ && _); [done|]. simpl.
  unfold handleTextPart. rewrite Huser.
  by rewrite bool_decide_eq_true_2.
Qed.

(** C6.  With no user message id recorded (as after a reset), a user-role
    [message.updated] records its message id, and so does a text part, which is
    itself not broadcast; a recorded id stays until the next reset; and a text
    part that carries the recorded id produces no [token] and no
    [text_part_complete] broadcast, whatever calls came in between. *)
Theorem echoed_user_message_is_suppressed :
  currentOpenCodeUserMessageId initial = None
  ∧ (∀ s env sessionID messageID,
       messageID ≠ "" → accepts env sessionID →
       currentOpenCodeUserMessageId s = None →
       currentOpenCodeUserMessageId
         (process s env (messageUpdated (messageInfo sessionID messageID "user"))).1
       = Some messageID)
  ∧ (∀ s env sessionID messageID partID text delta,
       messageID ≠ "" → partID ≠ "" → accepts env sessionID →
       currentOpenCodeUserMessageId s = None →
       let p := process s env
                  (partUpdated (textPart sessionID messageID partID text) delta) in
       currentOpenCodeUserMessageId p.1 = Some messageID
       ∧ count isToken p.2 = 0%nat ∧ count isTextPartComplete p.2 = 0%nat)
  ∧ (∀ s user between env event props part,
       currentOpenCodeUserMessageId s = Some user →
       ev_type event = Some "message.part.updated" →
       ev_properties event = Some props →
       p_part props = Some part →
       part_type part = Some "text" →
       part_messageID part = Some user →
       let p := process (final s between) env event in
       currentOpenCodeUserMessageId p.1 = Some user
       ∧ count isToken p.2 = 0%nat ∧ count isTextPartComplete p.2 = 0%nat).
Proof.
  split; [done|]. split; [exact process_user_recorded|].
  split; [exact process_first_text_recorded|].
  intros s user between env event props part Huser Htype Hprops Hpart Htext Hmid.
  pose proof (user_kept s between user Huser) as Huser'.
  cbn zeta. split.
  - by apply (step_user _ _ _ (Step_process (final s between) env event)).
  - by destruct (process_user_text_suppressed (final s between) env event props part user)
      as (? & ? & ?).
Qed.

Lemma echoed_user_message_is_suppressed_witness :
  count isToken
    (process
       (final
          (process initial quietEnv (messageUpdated (messageInfo "ses" "msg_user" "user"))).1
          [(quietEnv, messageUpdated (messageInfo "ses" "msg_1" "assistant"))])
       quietEnv
       (partUpdated (textPart "ses" "msg_user" "prt_0" (Some "fix the bug")) (Some "fix"))).2
  = 0%nat.
Proof.
  destruct echoed_user_message_is_suppressed as (_ & Hrecord & _ & Hquiet).
  pose proof (Hrecord initial quietEnv "ses" "msg_user") as Hfirst.
  refine (proj1 (proj2 (Hquiet
    (process initial quietEnv (messageUpdated (messageInfo "ses" "msg_user" "user"))).1
    "msg_user"
    [(quietEnv, messageUpdated (messageInfo "ses" "msg_1" "assistant"))]
    quietEnv
    (partUpdated (textPart "ses" "msg_user" "prt_0" (Some "fix the bug")) (Some "fix"))
    _ (textPart "ses" "msg_user" "prt_0" (Some "fix the bug"))
    _ eq_refl eq_refl eq_refl eq_refl eq_refl))).
  apply Hfirst; [discriminate|by left|reflexivity].
Defined.

(** ** Tool events are emitted once per turn *)

Lemma count_notToolEvent out :
  forallb notToolEvent out = true →
  count isToolStart out = 0%nat ∧ count isToolEnd out = 0%nat.
Proof.
  intros Hout. split; (eapply count_excluded; [|exact Hout]);
    by intros [[]| | | | | |].
Qed.

Lemma handleMessageUpdate_notToolEvent s env properties :
  forallb notToolEvent (handleMessageUpdate s env properties).2 = true.
Proof.
  unfold handleMessageUpdate, ensureAssistantMessage, completeCurrentMessage.
  split_cases; reflexivity.
Qed.

Lemma handleTextPart_notToolEvent s env partId messageID part delta :
  forallb notToolEvent (handleTextPart s env partId messageID part delta).2 = true.
Proof.
  unfold handleTextPart, ensureAssistantMessage.
  split_cases; reflexivity.
Qed.

Lemma completeCurrentMessage_notToolEvent s :
  forallb notToolEvent (completeCurrentMessage s).2 = true.
Proof. unfold completeCurrentMessage. split_cases; reflexivity. Qed.

Lemma settled_mono partId state s s' :
  sentToolEvents s ⊆ sentToolEvents s' → settled partId state s → settled partId state s'.
Proof. intros Hsub (Hstart & Hargs & Hend). unfold settled. set_solver. Qed.

Lemma sent_kept_until_complete s calls :
  count isMessageComplete (effects s calls) = 0%nat →
  sentToolEvents s ⊆ sentToolEvents (final s calls).
Proof.
  revert s. induction calls as [|[env event] rest IH]; intros s; [done|].
  rewrite effects_cons, final_cons, count_app. intros Hnone.
  etrans; [apply (step_sent _ _ _ (Step_process s env event)); lia|].
  apply IH. lia.
Qed.

Lemma ensureAssistantMessage_sent s env messageId :
  sentToolEvents (ensureAssistantMessage s env messageId).1.1 = sentToolEvents s.
Proof. unfold ensureAssistantMessage. split_cases; reflexivity. Qed.

Lemma ensureAssistantMessage_notToolEvent s env messageId :
  forallb notToolEvent (ensureAssistantMessage s env messageId).1.2 = true.
Proof. unfold ensureAssistantMessage. split_cases; reflexivity. Qed.

(** After [handleToolPart] nothing is left to emit for the part. *)
Lemma handleToolPart_settles s env partId messageID part toolCallId toolName :
  settled partId (part_state part)
    (res_state (handleToolPart s env partId messageID part toolCallId toolName)).
Proof.
  rewrite handleToolPart_parts. cbn zeta.
  set (e := ensureAssistantMessage s env messageID).
  set (args := default [] (part_state part ≫= ps_input)).
  destruct (toolStartPhase_settles e.1.1 (clock_tool env) e.2 partId toolCallId toolName args)
    as [Hstart Hargs].
  set (r1 := toolStartPhase _ _ _ _ _ _ _) in *.
  destruct (toolMetadataPhase_phase r1.1 (clock_tool env) partId toolCallId toolName
              (part_state part)) as (_ & _ & _ & Hsub2).
  set (r2 := toolMetadataPhase _ _ _ _ _ _) in *.
  destruct (toolEndPhase_phase (res_state r2) partId toolCallId toolName (part_state part))
    as (_ & _ & _ & Hsub3).
  pose proof (toolEndPhase_settles (res_state r2) partId toolCallId toolName
                (part_state part)) as Hend.
  set (r3 := toolEndPhase _ _ _ _ _) in *.
  assert ((0 < length args)%nat ↔ hasArgs (part_state part) = true) as Hhas.
  { unfold hasArgs. fold args. by rewrite bool_decide_eq_true. }
  destruct (summaryThrows (part_state part)) eqn:Hthrows; unfold settled; simpl;
    rewrite ?Hthrows.
  - split; [set_solver|]. split; [|done]. intros Hh%Hhas. set_solver.
  - split; [set_solver|]. split; [|by intros Hdone _; apply Hend].
    intros Hh%Hhas. set_solver.
Qed.

(** Once settled, [handleToolPart] emits no further tool event for the part. *)
Lemma handleToolPart_settled s env partId messageID part toolCallId toolName :
  settled partId (part_state part) s →
  forallb notToolEvent
    (res_out (handleToolPart s env partId messageID part toolCallId toolName)) = true.
Proof.
  intros Hsettled. rewrite handleToolPart_parts. cbn zeta.
  pose proof (ensureAssistantMessage_notToolEvent s env messageID) as Hout1.
  pose proof (ensureAssistantMessage_sent s env messageID) as Hsent1.
  set (e := ensureAssistantMessage s env messageID) in *.
  assert (settled partId (part_state part) e.1.1) as (Hstart & Hargs & Hend).
  { eapply settled_mono; [|done]. by rewrite Hsent1. }
  rewrite toolStartPhase_settled;
    [|done|by intros; apply Hargs; unfold hasArgs; rewrite bool_decide_eq_true].
  simpl.
  destruct (toolMetadataPhase_phase e.1.1 (clock_tool env) partId toolCallId toolName
              (part_state part)) as (Hout2 & _ & _ & Hsub2).
  set (r2 := toolMetadataPhase _ _ _ _ _ _) in *.
  assert (forallb notToolEvent (res_out r2) = true) as Hout2'.
  { destruct (toolMetadataPhase_count e.1.1 (clock_tool env) partId toolCallId toolName
                (part_state part)) as [Hs2 He2].
    fold r2 in Hs2, He2. clear -Hs2 He2.
    induction (res_out r2) as [|o out IH]; [done|]. unfold count in *. simpl in *.
    destruct o as [[]| | | | | |]; simpl in *; try done; by apply IH. }
  destruct (summaryThrows (part_state part)) eqn:Hthrows; simpl.
  - by rewrite forallb_app, Hout1, Hout2'.
  - rewrite toolEndPhase_settled by (intros Hdone; set_solver).
    simpl. by rewrite !forallb_app, Hout1, Hout2'.
Qed.

(** Whether a call reaches [handleToolPart], and on which part, is decided
    by the event and the session id alone. *)
Lemma dispatch_tool_or_not env event :
  (∃ partId messageID part toolCallId toolName,
     ∀ s env', openCodeSessionId env' = openCodeSessionId env →
               dispatch s env' event
               = handleToolPart s env' partId messageID part toolCallId toolName)
  ∨ (∀ s env', openCodeSessionId env' = openCodeSessionId env →
               forallb notToolEvent (res_out (dispatch s env' event)) = true).
Proof.
  unfold dispatch.
  destruct (ev_type event) as [type|]; [|by right].
  destruct (_ || _); [by right|].
  case_bool_decide; [right; intros; apply handleMessageUpdate_notToolEvent|].
  case_bool_decide.
  { unfold handlePartUpdate.
    destruct (ev_properties event) as [props|]; [|by right].
    destruct (p_part props) as [part|]; [|by right].
    destruct (part_id part) as [partId|]; [|by right].
    destruct (part_messageID part) as [messageID|]; [|by right].
    destruct (part_type part) as [type'|]; [|by right].
    destruct (_ || _ || _); [by right|].
    destruct (Js.truthy_opt (openCodeSessionId env)
              && negb (bool_decide (part_sessionID part = openCodeSessionId env)))
      eqn:Hfilter.
    { right. intros s env' Heq. by rewrite Heq, Hfilter. }
    destruct (bool_decide (type' = "text")).
    { right. intros s env' Heq. rewrite Heq, Hfilter. apply handleTextPart_notToolEvent. }
    destruct (part_callID part) as [callID|];
      [|right; intros s env' Heq; by rewrite Heq, Hfilter].
    destruct (part_tool part) as [tool|];
      [|right; intros s env' Heq; by rewrite Heq, Hfilter].
    destruct (Js.truthy callID && Js.truthy tool);
      [|right; intros s env' Heq; by rewrite Heq, Hfilter].
    left. exists partId, messageID, part, callID, tool. intros s env' Heq.
    by rewrite Heq, Hfilter. }
  case_bool_decide; [right; intros; apply completeCurrentMessage_notToolEvent|].
  case_bool_decide.
  { right. intros. unfold handleSessionStatus.
    destruct (ev_properties event) as [props|]; [|done].
    case_bool_decide; [apply completeCurrentMessage_notToolEvent|done]. }
  case_bool_decide; [|by right].
  right. intros. unfold handleSessionError.
  destruct (ev_properties event) as [props|]; [|done].
  by destruct (isAbortLikeOpenCodeError _).
Qed.

Lemma process_notToolEvent_count s env event :
  forallb notToolEvent
    (res_out (dispatch (maybeBroadcastToolProgressHeartbeat s env).1 env event)) = true →
  count isToolStart (process s env event).2 = 0%nat
  ∧ count isToolEnd (process s env event).2 = 0%nat.
Proof.
  intros Hout. rewrite !process_count by (by intros [[]| | | | | |] || done).
  by apply count_notToolEvent.
Qed.

(** Redelivery within a turn: after a call on [event], and any further calls
    that complete no message, a call on the same event emits neither
    [tool_start] nor [tool_end]. *)
Lemma redelivery_is_silent s env1 env2 event between :
  openCodeSessionId env1 = openCodeSessionId env2 →
  count isMessageComplete (effects (process s env1 event).1 between) = 0%nat →
  let p := process (final (process s env1 event).1 between) env2 event in
  count isToolStart p.2 = 0%nat ∧ count isToolEnd p.2 = 0%nat.
Proof.
  intros Hsid Hnone. cbn zeta. apply process_notToolEvent_count.
  destruct (dispatch_tool_or_not env1 event)
    as [(partId & messageID & part & callID & tool & Htool) | Hnot];
    [|by apply Hnot].
  rewrite Htool by done. apply handleToolPart_settled.
  apply (settled_mono _ _ (final (process s env1 event).1 between));
    [by rewrite heartbeat_sent|].
  apply (settled_mono _ _ (process s env1 event).1);
    [by apply sent_kept_until_complete|].
  rewrite process_state, Htool by done. apply handleToolPart_settles.
Qed.

Lemma key_summary_ne_end partId rest : partId +:+ ":summary:" +:+ rest ≠ partId +:+ ":end".
Proof. by intros H%(inj (String.app partId)). Qed.

Lemma toolStartPhase_end_key s now cur partId toolCallId tool args :
  partId +:+ ":end" ∉ sentToolEvents s →
  partId +:+ ":end" ∉ sentToolEvents (toolStartPhase s now cur partId toolCallId tool args).1.
Proof.
  intros Hend. unfold toolStartPhase.
  pose proof (key_start_ne_end partId) as Hne1.
  pose proof (key_args_ne_end partId) as Hne2.
  destruct (negb _); simpl; [destruct (bool_decide _); set_solver|].
  destruct (_ && _); simpl; set_solver.
Qed.

Lemma toolMetadataPhase_end_key s now partId toolCallId tool state :
  partId +:+ ":end" ∉ sentToolEvents s →
  partId +:+ ":end"
  ∉ sentToolEvents (res_state (toolMetadataPhase s now partId toolCallId tool state)).
Proof.
  intros Hend. unfold toolMetadataPhase.
  destruct (state ≫= ps_metadata) as [metadata|]; simpl; [|done].
  destruct (md_summary metadata) as [summary|]; simpl; [|done].
  destruct (mapM summaryEntry summary) as [entries|]; simpl; [|done].
  destruct (negb _); simpl; [|done].
  pose proof (key_summary_ne_end partId
                (default "" (state ≫= ps_title) +:+ ":" +:+ Js.join "|" entries)) as Hne.
  set_solver.
Qed.

(** What the first call on a tool part emits, by the keys not yet sent. *)
Lemma handleToolPart_first s env partId messageID part toolCallId toolName :
  let r := handleToolPart s env partId messageID part toolCallId toolName in
  (partId +:+ ":start" ∉ sentToolEvents s → count isToolStart (res_out r) = 1%nat)
  ∧ (partId +:+ ":start" ∈ sentToolEvents s → hasArgs (part_state part) = true →
     partId +:+ ":args" ∉ sentToolEvents s → count isToolStart (res_out r) = 1%nat)
  ∧ (isCompletion (part_state part) = true → summaryThrows (part_state part) = false →
     partId +:+ ":end" ∉ sentToolEvents s → count isToolEnd (res_out r) = 1%nat).
Proof.
  cbn zeta. rewrite handleToolPart_parts. cbn zeta.
  destruct (count_notToolEvent _ (ensureAssistantMessage_notToolEvent s env messageID))
    as [Hs1 He1].
  pose proof (ensureAssistantMessage_sent s env messageID) as Hsent1.
  set (e := ensureAssistantMessage s env messageID) in *.
  set (args := default [] (part_state part ≫= ps_input)).
  assert (hasArgs (part_state part) = true ↔ (0 < length args)%nat) as Hhas.
  { unfold hasArgs. fold args. by rewrite bool_decide_eq_true. }
  destruct (toolStartPhase_count_le e.1.1 (clock_tool env) e.2 partId toolCallId toolName
              args) as [_ He2].
  pose proof (toolStartPhase_end_key e.1.1 (clock_tool env) e.2 partId toolCallId toolName
                args) as Hend2.
  pose proof (toolStartPhase_first e.1.1 (clock_tool env) e.2 partId toolCallId toolName
                args) as Hfirst.
  pose proof (toolStartPhase_args e.1.1 (clock_tool env) e.2 partId toolCallId toolName
                args) as Hargs.
  set (r1 := toolStartPhase _ _ _ _ _ _ _) in *.
  destruct (toolMetadataPhase_count r1.1 (clock_tool env) partId toolCallId toolName
              (part_state part)) as [Hs3 He3].
  pose proof (toolMetadataPhase_end_key r1.1 (clock_tool env) partId toolCallId toolName
                (part_state part)) as Hend3.
  set (r2 := toolMetadataPhase _ _ _ _ _ _) in *.
  destruct (toolEndPhase_count_le (res_state r2) partId toolCallId toolName
              (part_state part)) as [Hs4 _].
  pose proof (toolEndPhase_first (res_state r2) partId toolCallId toolName
                (part_state part)) as Hlast.
  set (r3 := toolEndPhase _ _ _ _ _) in *.
  rewrite Hsent1 in *.
  assert (∀ n, count isToolStart r1.2 = n →
               count isToolStart
                 (res_out (if summaryThrows (part_state part)
                           then {| res_state := res_state r2;
                                   res_out := e.1.2 ++ r1.2 ++ res_out r2;
                                   res_thrown := true |}
                           else {| res_state := r3.1;
                                   res_out := e.1.2 ++ r1.2 ++ res_out r2 ++ r3.2;
                                   res_thrown := false |})) = n) as Hstarts.
  { intros n Hn. destruct (summaryThrows _); simpl; rewrite !count_app; lia. }
  split; [|split].
  - intros Hnew. apply Hstarts. by rewrite (Hfirst Hnew).
  - intros Hold Hh%Hhas Hnew. apply Hstarts. by rewrite (Hargs Hold Hh Hnew).
  - intros Hdone -> Hnew. simpl. rewrite !count_app, He1, He2, He3.
    destruct (Hlast Hdone) as [result Heq]; [by apply Hend3, Hend2|].
    by rewrite Heq.
Qed.

Lemma process_toolPart_no_complete s env sessionID messageID partID callID tool state delta :
  messageID ≠ "" → partID ≠ "" → callID ≠ "" → tool ≠ "" → accepts env sessionID →
  count isMessageComplete
    (process s env
       (partUpdated (toolPart sessionID messageID partID callID tool state) delta)).2
  = 0%nat.
Proof.
  intros Hm Hp Hc Ht Hacc.
  destruct (process_toolPart s env sessionID messageID partID callID tool state delta)
    as [_ Hcount]; try done.
  rewrite Hcount by (by intros [[]| | | | | |] || done).
  pose proof (step_complete_tools _ _ _
                (Step_handleToolPart (maybeBroadcastToolProgressHeartbeat s env).1 env
                   partID messageID
                   (toolPart sessionID messageID partID callID tool state) callID tool
                   (truthy_ne _ Hm))) as Hempty.
  set (r := handleToolPart _ _ _ _ _ _ _) in *.
  destruct (count isMessageComplete (res_out r)) as [|n] eqn:Hn; [done|].
  destruct Hempty as [_ Hempty]; [lia|].
  destruct (handleToolPart_phase (maybeBroadcastToolProgressHeartbeat s env).1 env
              partID messageID
              (toolPart sessionID messageID partID callID tool state) callID tool)
    as (out & Hout & Heffects & _).
  fold r in Hout. rewrite Hout, count_app in Hn.
  rewrite (count_tool_effects isMessageComplete out) in Hn
    by (by intros [[]| | | | | |] || done).
  destruct (Step_ensureAssistantMessage (maybeBroadcastToolProgressHeartbeat s env).1 env
              messageID (truthy_ne _ Hm)) as (_ & _ & Hc1 & _).
  rewrite Hc1 in Hn. lia.
Qed.

Lemma effects_app s calls1 calls2 :
  effects s (calls1 ++ calls2) = effects s calls1 ++ effects (final s calls1) calls2.
Proof.
  revert s. induction calls1 as [|[env event] rest IH]; intros s; [done|].
  simpl app. rewrite !effects_cons, final_cons, IH. by rewrite app_assoc.
Qed.

Lemma effects_one s env event : effects s [(env, event)] = (process s env event).2.
Proof. rewrite effects_cons. unfold effects. simpl. apply app_nil_r. Qed.

Lemma final_app s calls1 calls2 :
  final s (calls1 ++ calls2) = final (final s calls1) calls2.
Proof.
  revert s. induction calls1 as [|[env event] rest IH]; intros s; [done|].
  simpl app. by rewrite !final_cons, IH.
Qed.

(** Calls on one tool part complete no message and, after the first, emit no
    tool event. *)
Lemma redeliveries_are_silent s env sessionID messageID partID callID tool state envs :
  messageID ≠ "" → partID ≠ "" → callID ≠ "" → tool ≠ "" →
  accepts env sessionID → Forall (λ env', accepts env' sessionID) envs →
  let event := partUpdated (toolPart sessionID messageID partID callID tool state) None in
  let again := (λ env', (env', event)) <$> envs in
  count isMessageComplete (effects (process s env event).1 again) = 0%nat
  ∧ count isToolStart (effects (process s env event).1 again) = 0%nat
  ∧ count isToolEnd (effects (process s env event).1 again) = 0%nat.
Proof.
  intros Hm Hp Hc Ht Hacc Haccs. cbn zeta.
  induction envs as [|env' envs IH] using rev_ind; [done|].
  apply Forall_app in Haccs as [Haccs Hacc']. rewrite Forall_singleton in Hacc'.
  rewrite fmap_app. simpl. rewrite effects_app, effects_one, !count_app.
  destruct (IH Haccs) as (IHc & IHs & IHe). rewrite IHc, IHs, IHe, !Nat.add_0_l.
  set (s1 := (process s env _).1) in *.
  set (again := _ <$> envs) in *.
  split; [by apply process_toolPart_no_complete|].
  apply process_notToolEvent_count.
  rewrite dispatch_toolPart by done. apply handleToolPart_settled.
  apply (settled_mono _ _ (final s1 again)); [by rewrite heartbeat_sent|].
  apply (settled_mono _ _ s1); [by apply sent_kept_until_complete|].
  unfold s1. rewrite process_state, dispatch_toolPart by done.
  apply handleToolPart_settles.
Qed.

(** ** Tool events of one part, by sent-event key *)

Lemma pending_mono partId s s' :
  sentToolEvents s ⊆ sentToolEvents s' →
  (startPending partId s' ≤ startPending partId s)%nat
  ∧ (argsPending partId s' ≤ argsPending partId s)%nat
  ∧ (endPending partId s' ≤ endPending partId s)%nat.
Proof.
  intros Hsub. unfold startPending, argsPending, endPending.
  repeat case_bool_decide; repeat split; try lia; set_solver.
Qed.

Lemma usesUp_quiet partId s out s' :
  forallb notToolEvent out = true → sentToolEvents s ⊆ sentToolEvents s' →
  usesUp partId s out s'.
Proof.
  intros Hout Hsub. unfold usesUp.
  rewrite !(count_excluded _ notToolEvent out) by (done || by intros [[]| | | | | |]).
  apply (pending_mono partId) in Hsub. simpl. lia.
Qed.

Lemma usesUp_seq partId s out s' out' s'' :
  usesUp partId s out s' → usesUp partId s' out' s'' → usesUp partId s (out ++ out') s''.
Proof. unfold usesUp. rewrite !count_app. lia. Qed.

Ltac pending_cases :=
  unfold startPending, argsPending, endPending; simpl;
  repeat case_bool_decide; simpl; try lia; try set_solver.

Lemma usesUp_toolStartPhase p s now cur partId toolCallId tool args :
  let r := toolStartPhase s now cur partId toolCallId tool args in
  usesUp p s r.2 r.1.
Proof.
  cbn zeta. unfold usesUp, toolStartPhase, count.
  destruct (bool_decide (partId +:+ ":start" ∈ sentToolEvents s)) eqn:Hstart;
    destruct (bool_decide (0 < length args)%nat) eqn:Hhas;
    destruct (bool_decide (partId +:+ ":args" ∈ sentToolEvents s)) eqn:Hargs;
    simpl; rewrite ?Hhas; simpl;
    try apply bool_decide_eq_true in Hstart; try apply bool_decide_eq_false in Hstart;
    try apply bool_decide_eq_true in Hargs; try apply bool_decide_eq_false in Hargs;
    clear Hhas;
    (destruct (decide (partId = p)) as [->|Hne];
     [rewrite ?bool_decide_eq_true_2 by done|rewrite ?bool_decide_eq_false_2 by done]);
    simpl; pending_cases.
Qed.

Lemma usesUp_toolPhase_quiet partId s out s' :
  toolPhase s out s' →
  count isToolStart out = 0%nat → count isToolEnd out = 0%nat →
  usesUp partId s out s'.
Proof.
  intros (_ & _ & _ & Hsub) Hstart Hend. unfold usesUp.
  assert (∀ b, count (isToolStartOf partId b) out = 0%nat) as Hs.
  { intros b. revert Hstart. unfold count. clear.
    induction out as [|[[]| | | | | |] out IH]; simpl; done. }
  assert (count (isToolEndOf partId) out = 0%nat) as He.
  { revert Hend. unfold count. clear.
    induction out as [|[[]| | | | | |] out IH]; simpl; done. }
  rewrite !Hs, He. apply (pending_mono partId) in Hsub. lia.
Qed.

Lemma usesUp_toolMetadataPhase p s now partId toolCallId tool state :
  let r := toolMetadataPhase s now partId toolCallId tool state in
  usesUp p s (res_out r) (res_state r).
Proof.
  cbn zeta.
  destruct (toolMetadataPhase_count s now partId toolCallId tool state) as [Hs He].
  apply usesUp_toolPhase_quiet; [apply toolMetadataPhase_phase|done..].
Qed.

Lemma usesUp_toolEndPhase p s partId toolCallId tool state :
  let r := toolEndPhase s partId toolCallId tool state in
  usesUp p s r.2 r.1.
Proof.
  cbn zeta. unfold usesUp, toolEndPhase, count.
  destruct (_ || _); simpl; [|lia].
  destruct (bool_decide (partId +:+ ":end" ∈ sentToolEvents s)) eqn:Hend; simpl; [lia|].
  apply bool_decide_eq_false in Hend.
  destruct (decide (partId = p)) as [->|Hne];
    [rewrite ?bool_decide_eq_true_2 by done|rewrite ?bool_decide_eq_false_2 by done];
    simpl; pending_cases.
Qed.

Lemma usesUp_ensureAssistantMessage partId s env messageId :
  let e := ensureAssistantMessage s env messageId in
  usesUp partId s e.1.2 e.1.1.
Proof.
  cbn zeta. apply usesUp_quiet; [apply ensureAssistantMessage_notToolEvent|].
  by rewrite ensureAssistantMessage_sent.
Qed.

Lemma usesUp_handleToolPart p s env partId messageID part toolCallId toolName :
  let r := handleToolPart s env partId messageID part toolCallId toolName in
  usesUp p s (res_out r) (res_state r).
Proof.
  cbn zeta. rewrite handleToolPart_parts. cbn zeta.
  pose proof (usesUp_ensureAssistantMessage p s env messageID) as He. cbn zeta in He.
  set (e := ensureAssistantMessage s env messageID) in *.
  pose proof (usesUp_toolStartPhase p e.1.1 (clock_tool env) e.2 partId toolCallId toolName
                (default [] (part_state part ≫= ps_input))) as H1. cbn zeta in H1.
  set (r1 := toolStartPhase _ _ _ _ _ _ _) in *.
  pose proof (usesUp_toolMetadataPhase p r1.1 (clock_tool env) partId toolCallId toolName
                (part_state part)) as H2. cbn zeta in H2.
  set (r2 := toolMetadataPhase _ _ _ _ _ _) in *.
  pose proof (usesUp_toolEndPhase p (res_state r2) partId toolCallId toolName
                (part_state part)) as H3. cbn zeta in H3.
  set (r3 := toolEndPhase _ _ _ _ _) in *.
  destruct (summaryThrows _); simpl.
  - eapply usesUp_seq; [exact He|]. eapply usesUp_seq; [exact H1|exact H2].
  - eapply usesUp_seq; [exact He|]. eapply usesUp_seq; [exact H1|].
    eapply usesUp_seq; [exact H2|exact H3].
Qed.

(** A call that completes no message uses up what was left to emit for a
    part. *)
Lemma usesUp_process partId s env event :
  count isMessageComplete (process s env event).2 = 0%nat →
  usesUp partId s (process s env event).2 (process s env event).1.
Proof.
  intros Hnone.
  pose proof (step_sent _ _ _ (Step_process s env event) Hnone) as Hsub.
  unfold usesUp.
  rewrite !process_count by (by intros [[]| | | | | |] || done).
  rewrite process_state in *.
  set (h := maybeBroadcastToolProgressHeartbeat s env) in *.
  assert (argsPending partId s = argsPending partId h.1) as ->
    by (unfold argsPending, h; by rewrite heartbeat_sent).
  assert (endPending partId s = endPending partId h.1) as ->
    by (unfold endPending, h; by rewrite heartbeat_sent).
  assert (startPending partId s = startPending partId h.1) as ->
    by (unfold startPending, h; by rewrite heartbeat_sent).
  destruct (dispatch_tool_or_not env event)
    as [(partId' & messageID & part & toolCallId & toolName & Htool) | Hquiet].
  - rewrite Htool by done. apply usesUp_handleToolPart.
  - apply usesUp_quiet; [by apply Hquiet|]. unfold h at 1. by rewrite heartbeat_sent.
Qed.

(** Over calls that complete no message. *)
Lemma usesUp_effects partId s calls :
  count isMessageComplete (effects s calls) = 0%nat →
  usesUp partId s (effects s calls) (final s calls).
Proof.
  revert s. induction calls as [|[env event] rest IH]; intros s.
  - intros _. unfold usesUp, effects, final, count. simpl. lia.
  - rewrite effects_cons, final_cons, count_app. intros Hnone.
    eapply usesUp_seq; [apply usesUp_process; lia|apply IH; lia].
Qed.

(** C2, as amended.  Between two clearings of the sent-event keys (that is,
    over calls that complete no message), whatever events are processed, the
    broadcasts for one part id are at most one [tool_start] without args, at
    most one [tool_start] with args and at most one [tool_end]; none of a
    kind whose key (start; start and args; end) was already sent, and a kind
    that was emitted has its key sent afterwards.  In particular a call on an
    event that was processed before emits neither [tool_start] nor
    [tool_end].  For a well-formed tool part fed any number of times in a
    row: if its start key has not been sent, exactly one [tool_start] is
    emitted; if only its args key has not been sent and it has args, exactly
    one [tool_start] is emitted; and if it reports completion (status
    completed or error), its summary is well-formed and its end key has not
    been sent, exactly one [tool_end] is emitted. *)
Theorem tool_events_once_per_turn :
  (∀ s calls partId,
     count isMessageComplete (effects s calls) = 0%nat →
     let starts := count (isToolStartOf partId false) (effects s calls) in
     let updates := count (isToolStartOf partId true) (effects s calls) in
     let ends := count (isToolEndOf partId) (effects s calls) in
     let sent := sentToolEvents s in
     let sent' := sentToolEvents (final s calls) in
     (starts ≤ 1 ∧ updates ≤ 1 ∧ ends ≤ 1)%nat
     ∧ (partId +:+ ":start" ∈ sent → starts = 0%nat)
     ∧ (partId +:+ ":start" ∈ sent → partId +:+ ":args" ∈ sent → updates = 0%nat)
     ∧ (partId +:+ ":end" ∈ sent → ends = 0%nat)
     ∧ (starts = 1%nat → partId +:+ ":start" ∈ sent')
     ∧ (updates = 1%nat → partId +:+ ":start" ∈ sent' ∧ partId +:+ ":args" ∈ sent')
     ∧ (ends = 1%nat → partId +:+ ":end" ∈ sent'))
  ∧ (∀ s env1 env2 event between,
       openCodeSessionId env1 = openCodeSessionId env2 →
       count isMessageComplete (effects (process s env1 event).1 between) = 0%nat →
       let p := process (final (process s env1 event).1 between) env2 event in
       count isToolStart p.2 = 0%nat ∧ count isToolEnd p.2 = 0%nat)
  ∧ (∀ s env envs sessionID messageID partID callID tool state,
       messageID ≠ "" → partID ≠ "" → callID ≠ "" → tool ≠ "" →
       accepts env sessionID → Forall (λ env', accepts env' sessionID) envs →
       let event :=
         partUpdated (toolPart sessionID messageID partID callID tool state) None in
       let calls := (env, event) :: ((λ env', (env', event)) <$> envs) in
       (partID +:+ ":start" ∉ sentToolEvents s →
        count isToolStart (effects s calls) = 1%nat)
       ∧ (partID +:+ ":start" ∈ sentToolEvents s → hasArgs state = true →
          partID +:+ ":args" ∉ sentToolEvents s →
          count isToolStart (effects s calls) = 1%nat)
       ∧ (isCompletion state = true → summaryThrows state = false →
          partID +:+ ":end" ∉ sentToolEvents s →
          count isToolEnd (effects s calls) = 1%nat)).
Proof.
  split; [|split; [exact redelivery_is_silent|]].
  { intros s calls partId Hnone. cbn zeta.
    destruct (usesUp_effects partId s calls Hnone) as (Hs & Ha & He).
    revert Hs Ha He. unfold startPending, argsPending, endPending.
    repeat case_bool_decide; intros; split_and!; intros; try lia; try tauto. }
  intros s env envs sessionID messageID partID callID tool state Hm Hp Hc Ht Hacc Haccs.
  cbn zeta. rewrite effects_cons, !count_app.
  destruct (redeliveries_are_silent s env sessionID messageID partID callID tool state envs)
    as (_ & -> & ->); try done.
  destruct (process_toolPart s env sessionID messageID partID callID tool state None)
    as [_ Hcount]; try done.
  rewrite !Hcount by (by intros [[]| | | | | |] || done).
  rewrite <- (heartbeat_sent s env).
  destruct (handleToolPart_first (maybeBroadcastToolProgressHeartbeat s env).1 env
              partID messageID (toolPart sessionID messageID partID callID tool state)
              callID tool) as (Hstart & Hargs & Hend).
  simpl in Hstart, Hargs, Hend.
  split; [|split].
  - intros Hnew. by rewrite Nat.add_0_r, Hstart.
  - intros Hold Hhas Hnew. by rewrite Nat.add_0_r, Hargs.
  - intros Hdone Hthrows Hnew. by rewrite Nat.add_0_r, Hend.
Qed.

Lemma tool_events_once_per_turn_witness :
  (count (isToolEndOf "prt_1")
     (effects initial [(quietEnv, finishedTool); (quietEnv, startedTool);
                       (quietEnv, finishedToolAgain)]) ≤ 1)%nat
  ∧ count isToolStart
      (effects initial [(quietEnv, finishedTool); (quietEnv, finishedTool);
                        (quietEnv, finishedTool)]) = 1%nat
  ∧ count isToolEnd
      (effects initial [(quietEnv, finishedTool); (quietEnv, finishedTool);
                        (quietEnv, finishedTool)]) = 1%nat.
Proof.
  destruct tool_events_once_per_turn as (Hpart & _ & Hsame).
  split.
  { destruct (Hpart initial
                [(quietEnv, finishedTool); (quietEnv, startedTool);
                 (quietEnv, finishedToolAgain)] "prt_1") as ((_ & _ & Hends) & _);
      [reflexivity|exact Hends]. }
  destruct (Hsame initial quietEnv [quietEnv; quietEnv]
              "ses" "msg_1" "prt_1" "call_1" "bash"
              (Some (toolState "completed" [("command", "ls")] (Some "ok"))))
    as (Hstart & _ & Hend); try discriminate; [by left|..].
  { constructor; [by left|]. constructor; [by left|]. constructor. }
  split.
  - apply Hstart. vm_compute. set_solver.
  - apply Hend; [reflexivity..|]. vm_compute. set_solver.
Defined.

(** C2 as stated fails once a message has been completed between two
    deliveries: the completed update, redelivered after the idle report,
    triggers a second [tool_end]. *)
Lemma redelivery_after_completion_repeats_tool_end :
  count isToolEnd
    (effects initial [(quietEnv, finishedTool); (quietEnv, sessionIdle);
                      (quietEnv, finishedTool)]) = 2%nat.
Proof. vm_compute. reflexivity. Qed.

(** ** The running-tool watch list *)

Lemma Watch_set_keys k w m :
  NoDup m.*1 → NoDup (Watch.set k w m).*1.
Proof.
  induction m as [|[k' w'] m IH]; simpl.
  { intros _. apply NoDup_singleton. }
  intros [Hk' Hm]%NoDup_cons. case_bool_decide as Hk; simpl.
  - subst k'. by apply NoDup_cons.
  - apply NoDup_cons. split; [|by apply IH].
    intros Hin. apply Hk'. clear -Hin Hk.
    induction m as [|[k'' w''] m IH]; simpl in *.
    + by apply list_elem_of_singleton in Hin.
    + case_bool_decide; simpl in *; [set_solver|].
      apply elem_of_cons in Hin as [-> | Hin]; [left|right; by apply IH].
Qed.


Lemma Watch_touch_keys k now name m : (Watch.touch k now name m).*1 = m.*1.
Proof.
  induction m as [|[k' w'] m IH]; simpl; [done|].
  case_bool_decide; simpl; [done|]. by f_equal.
Qed.


Lemma Watch_delete_elem k m id w' : (id, w') ∈ Watch.delete k m → (id, w') ∈ m.
Proof.
  induction m as [|[k' w''] m IH]; simpl; [done|].
  case_bool_decide; [by right|].
  intros [-> | Hin]%elem_of_cons; [left|right; by apply IH].
Qed.

Lemma Watch_delete_keys k m : NoDup m.*1 → NoDup (Watch.delete k m).*1.
Proof.
  induction m as [|[k' w'] m IH]; simpl; [done|].
  intros [Hk' Hm]%NoDup_cons. case_bool_decide; [done|]. simpl.
  apply NoDup_cons. split; [|by apply IH].
  intros Hin%list_elem_of_fmap. destruct Hin as ([k'' w''] & Heq & Hin).
  simpl in Heq. subst k''.
  apply Hk', list_elem_of_fmap. exists (k', w''). split; [done|].
  by eapply Watch_delete_elem.
Qed.














(** ** The heartbeat loop *)

Lemma heartbeatLoop_keys now ws : (heartbeatLoop now ws).1.*1 = ws.*1.
Proof.
  induction ws as [|[k w] ws IH]; simpl; [done|].
  destruct (heartbeatLoop now ws) as [ws' out]. simpl in *.
  destruct (heartbeatDue now w); simpl; by f_equal.
Qed.





Lemma heartbeat_loop_unfold s env :
  maybeBroadcastToolProgressHeartbeat s env
  = (with_watch s (heartbeatLoop (clock_heartbeat env) (runningToolWatch s)).1,
     (heartbeatLoop (clock_heartbeat env) (runningToolWatch s)).2).
Proof.
  unfold maybeBroadcastToolProgressHeartbeat. case_bool_decide as Hlen.
  - destruct s as [a u t w e]. simpl in *. by destruct w.
  - by destruct (heartbeatLoop _ _).
Qed.

(** The handlers of the switch emit no heartbeat and no [catch] record. *)
Lemma dispatch_handler_effects s env event :
  forallb isHandlerEffect (res_out (dispatch s env event)) = true.
Proof.
  unfold dispatch.
  destruct (ev_type event) as [type|]; [|done].
  destruct (_ || _); [done|].
  case_bool_decide.
  { unfold handleMessageUpdate, ensureAssistantMessage, completeCurrentMessage.
    split_cases; reflexivity. }
  case_bool_decide.
  { unfold handlePartUpdate.
    destruct (ev_properties event) as [props|]; [|done].
    destruct (p_part props) as [part|]; [|done].
    destruct (part_id part) as [partId|]; [|done].
    destruct (part_messageID part) as [messageID|]; [|done].
    destruct (part_type part) as [type'|]; [|done].
    destruct (_ || _ || _); [done|].
    destruct (_ && _); [done|].
    destruct (bool_decide (type' = "text")).
    { unfold handleTextPart, ensureAssistantMessage. split_cases; reflexivity. }
    destruct (part_callID part) as [callID|]; [|done].
    destruct (part_tool part) as [tool|]; [|done].
    destruct (_ && _); [|done].
    destruct (handleToolPart_phase s env partId messageID part callID tool)
      as (out & -> & Hout & _).
    rewrite forallb_app. apply andb_true_intro. split.
    - unfold ensureAssistantMessage. split_cases; reflexivity.
    - clear -Hout. induction out as [|o out IH]; [done|]. simpl in *.
      apply andb_prop in Hout as [Ho Hout]. rewrite IH by done.
      by destruct o as [[]| | | | | |]. }
  case_bool_decide.
  { unfold handleSessionIdle, completeCurrentMessage. split_cases; reflexivity. }
  case_bool_decide.
  { unfold handleSessionStatus, completeCurrentMessage. split_cases; reflexivity. }
  case_bool_decide; [|done].
  unfold handleSessionError. split_cases; reflexivity.
Qed.



(** ** Heartbeats of one tool are a threshold apart *)





(** ** A forwarded update restarts the wait for a heartbeat *)















(** The heartbeats of that run: at 15 s and again at 30 s, not in between. *)
Example heartbeat_times_of_a_quiet_tool :
  heartbeatTimes "call_1" initial
    [(at_ 0, startedTool); (at_ 15000, serverHeartbeat); (at_ 20000, serverHeartbeat);
     (at_ 29999, sessionIdle); (at_ 30000, serverHeartbeat)]
  = [15000; 30000].
Proof. vm_compute. reflexivity. Qed.

(** ** [process] returns normally *)



Lemma heartbeat_nothing_watched s env :
  runningToolWatch s = [] → maybeBroadcastToolProgressHeartbeat s env = (s, []).
Proof. intros Hnone. unfold maybeBroadcastToolProgressHeartbeat. by rewrite Hnone. Qed.









(** A handler that throws half-way: the [tool_start] broadcast stays, the
    error is logged, and [process] returns. *)
Example malformed_summary_is_caught :
  (process initial (at_ 0) malformedSummary).2
  = [Broadcast (MsgMessage "msg_1" 0);
     Broadcast (MsgToolStart "msg_1" "prt_1" "call_1" "task" []);
     OnToolStart "call_1";
     LogProcessingError (Some "message.part.updated")].
Proof. vm_compute. reflexivity. Qed.

(** ** The heartbeat watches the running tools *)

Lemma Watch_set_key k w m id :
  id ∈ (Watch.set k w m).*1 ↔ id = k ∨ id ∈ m.*1.
Proof.
  induction m as [|[k' w'] m IH]; simpl.
  - rewrite list_elem_of_singleton, elem_of_nil. tauto.
  - case_bool_decide as Hk; simpl; rewrite !elem_of_cons; [subst; tauto|].
    rewrite IH. tauto.
Qed.

Lemma Watch_delete_key k m id :
  NoDup m.*1 → id ∈ (Watch.delete k m).*1 ↔ id ≠ k ∧ id ∈ m.*1.
Proof.
  induction m as [|[k' w'] m IH]; simpl; intros Hnd.
  - rewrite elem_of_nil. tauto.
  - apply NoDup_cons in Hnd as [Hk' Hnd].
    case_bool_decide as Hk; simpl; rewrite !elem_of_cons.
    + subst k'. split; [intros Hin; split; [by intros ->|by right]|].
      intros [Hne [? | ?]]; done.
    + rewrite (IH Hnd). split; [intros [-> | [? ?]]; [split; [done|by left]|tauto]|].
      intros [Hne [-> | Hin]]; [by left|by right].
Qed.

Lemma watchesRunning_kept s s' :
  toolsKeptOrCleared s s' → watchesRunning s → watchesRunning s'.
Proof.
  unfold watchesRunning, watchKeys.
  intros [[-> ->] | [-> ->]]; [done|]. intros _. split; [apply NoDup_nil_2|].
  intros id. simpl. rewrite elem_of_nil, (lookup_empty (M := gmap string)).
  split; [done|]. by intros (st & ? & _).
Qed.

Lemma toolsKept_ensureAssistantMessage s env messageId :
  toolsKeptOrCleared s (ensureAssistantMessage s env messageId).1.1.
Proof. left. unfold ensureAssistantMessage. split_cases; done. Qed.

Lemma toolsKept_completeCurrentMessage s :
  toolsKeptOrCleared s (completeCurrentMessage s).1.
Proof. unfold toolsKeptOrCleared, completeCurrentMessage. split_cases; auto. Qed.

Lemma toolsKept_handleMessageUpdate s env properties :
  toolsKeptOrCleared s (handleMessageUpdate s env properties).1.
Proof.
  unfold toolsKeptOrCleared, handleMessageUpdate, ensureAssistantMessage,
    completeCurrentMessage.
  split_cases; auto.
Qed.

Lemma toolsKept_handleTextPart s env partId messageID part delta :
  toolsKeptOrCleared s (handleTextPart s env partId messageID part delta).1.
Proof.
  left. unfold handleTextPart, ensureAssistantMessage. split_cases; done.
Qed.

Lemma watchesRunning_toolStartPhase s now cur partId toolCallId tool args :
  watchesRunning s →
  watchesRunning (toolStartPhase s now cur partId toolCallId tool args).1.
Proof.
  unfold watchesRunning, watchKeys, toolStartPhase. intros [Hnd Hrun].
  destruct (negb _); simpl.
  - split; [by apply Watch_set_keys|]. intros id. rewrite Watch_set_key.
    destruct (decide (id = toolCallId)) as [->|Hne].
    + rewrite lookup_insert_eq. split; [eauto|by left].
    + rewrite lookup_insert_ne by done. rewrite <- Hrun. tauto.
  - destruct (_ && _); simpl; [|done]. by rewrite Watch_touch_keys.
Qed.

Lemma watchesRunning_toolMetadataPhase s now partId toolCallId tool state :
  watchesRunning s →
  watchesRunning (res_state (toolMetadataPhase s now partId toolCallId tool state)).
Proof.
  unfold watchesRunning, watchKeys, toolMetadataPhase. intros Hinv.
  destruct (state ≫= ps_metadata) as [metadata|]; simpl; [|done].
  destruct (md_summary metadata) as [summary|]; simpl; [|done].
  destruct (mapM summaryEntry summary); simpl; [|done].
  destruct (negb _); simpl; [|done]. by rewrite Watch_touch_keys.
Qed.

Lemma watchesRunning_toolEndPhase s partId toolCallId tool state :
  watchesRunning s →
  watchesRunning (toolEndPhase s partId toolCallId tool state).1.
Proof.
  unfold watchesRunning, watchKeys, toolEndPhase. intros [Hnd Hrun].
  destruct (_ || _); [|done]. destruct (negb _); simpl; [|done].
  split; [by apply Watch_delete_keys|]. intros id. rewrite Watch_delete_key by done.
  destruct (decide (id = toolCallId)) as [->|Hne].
  - rewrite lookup_alter_eq. split; [tauto|]. intros (st & Hst & Hrunning).
    destruct (toolStates s !! toolCallId) as [st0|]; simpl in Hst; [|done].
    injection Hst as <-. simpl in Hrunning. by destruct (bool_decide _).
  - rewrite lookup_alter_ne by done. rewrite <- Hrun. tauto.
Qed.

Lemma watchesRunning_handleToolPart s env partId messageID part toolCallId toolName :
  watchesRunning s →
  watchesRunning (res_state (handleToolPart s env partId messageID part toolCallId toolName)).
Proof.
  intros Hinv. rewrite handleToolPart_parts. cbn zeta.
  pose proof (watchesRunning_kept _ _ (toolsKept_ensureAssistantMessage s env messageID) Hinv)
    as H1.
  set (e := ensureAssistantMessage s env messageID) in *.
  pose proof (watchesRunning_toolStartPhase e.1.1 (clock_tool env) e.2 partId toolCallId
                toolName (default [] (part_state part ≫= ps_input)) H1) as H2.
  set (r1 := toolStartPhase _ _ _ _ _ _ _) in *.
  pose proof (watchesRunning_toolMetadataPhase r1.1 (clock_tool env) partId toolCallId
                toolName (part_state part) H2) as H3.
  set (r2 := toolMetadataPhase _ _ _ _ _ _) in *.
  pose proof (watchesRunning_toolEndPhase (res_state r2) partId toolCallId toolName
                (part_state part) H3) as H4.
  by destruct (summaryThrows _).
Qed.

Lemma watchesRunning_dispatch s env event :
  watchesRunning s → watchesRunning (res_state (dispatch s env event)).
Proof.
  intros Hinv. unfold dispatch.
  destruct (ev_type event) as [type|]; [|done].
  destruct (_ || _); [done|].
  case_bool_decide.
  { eapply watchesRunning_kept; [apply toolsKept_handleMessageUpdate|done]. }
  case_bool_decide.
  { unfold handlePartUpdate.
    destruct (ev_properties event) as [props|]; [|done].
    destruct (p_part props) as [part|]; [|done].
    destruct (part_id part) as [partId|]; [|done].
    destruct (part_messageID part) as [messageID|]; [|done].
    destruct (part_type part) as [type'|]; [|done].
    destruct (_ || _ || _); [done|].
    destruct (_ && _); [done|].
    destruct (bool_decide (type' = "text")).
    { eapply watchesRunning_kept; [apply toolsKept_handleTextPart|done]. }
    destruct (part_callID part) as [callID|]; [|done].
    destruct (part_tool part) as [tool|]; [|done].
    destruct (_ && _); [|done].
    by apply watchesRunning_handleToolPart. }
  case_bool_decide.
  { eapply watchesRunning_kept; [apply toolsKept_completeCurrentMessage|done]. }
  case_bool_decide.
  { unfold handleSessionStatus.
    destruct (ev_properties event) as [props|]; [|done].
    case_bool_decide; [|done].
    eapply watchesRunning_kept; [apply toolsKept_completeCurrentMessage|done]. }
  case_bool_decide; [|done].
  unfold handleSessionError.
  destruct (ev_properties event) as [props|]; [|done].
  by destruct (isAbortLikeOpenCodeError _).
Qed.

Lemma watchesRunning_heartbeat s env :
  watchesRunning s → watchesRunning (maybeBroadcastToolProgressHeartbeat s env).1.
Proof.
  unfold watchesRunning, watchKeys. rewrite heartbeat_state. simpl.
  by rewrite heartbeatLoop_keys.
Qed.

Lemma watchesRunning_process s env event :
  watchesRunning s → watchesRunning (process s env event).1.
Proof.
  intros Hinv. rewrite process_state.
  by apply watchesRunning_dispatch, watchesRunning_heartbeat.
Qed.

Lemma watchesRunning_initial : watchesRunning initial.
Proof.
  split; [apply NoDup_nil_2|]. intros id. unfold watchKeys. simpl.
  rewrite elem_of_nil, (lookup_empty (M := gmap string)).
  split; [done|]. by intros (st & ? & _).
Qed.

Lemma after_snoc s ms m : after s (ms ++ [m]) = (invoke (after s ms) m).1.
Proof. unfold after. by rewrite foldl_app. Qed.

Lemma watchesRunning_after ms : watchesRunning (after initial ms).
Proof.
  induction ms as [|m ms IH] using rev_ind; [apply watchesRunning_initial|].
  rewrite after_snoc. destruct m as [env event| |]; simpl.
  - by apply watchesRunning_process.
  - apply watchesRunning_initial.
  - eapply watchesRunning_kept; [|exact IH]. by right.
Qed.

(** X1.  Whatever sequence of [process], [resetForNewPrompt] and
    [clearCurrentAssistantMessageId] calls a new processor has seen, the
    heartbeat's watch list holds exactly the tool calls whose tracked status
    is running, each once: a tool enters both at its [tool_start], leaves
    the watch list and the running status at its [tool_end], and both are
    cleared together. *)
Theorem watch_list_is_the_running_tools (ms : list Method) :
  let s := after initial ms in
  NoDup (runningToolWatch s).*1
  ∧ ∀ id, id ∈ (runningToolWatch s).*1 ↔
          ∃ st, toolStates s !! id = Some st ∧ status st = Running.
Proof. apply watchesRunning_after. Qed.




(** ** Completion with and without tools; cancelling *)

Lemma process_idle_unwatched s env event :
  Idle event → runningToolWatch s = [] →
  process s env event = completeCurrentMessage s.
Proof.
  intros Hidle Hnone. rewrite process_unfold. cbn zeta.
  rewrite heartbeat_nothing_watched by done. simpl.
  rewrite (dispatch_idle _ _ _ Hidle). simpl. rewrite app_nil_r.
  by destruct (completeCurrentMessage s).
Qed.

Lemma completeCurrentMessage_text_only s cur :
  currentAssistantMessageId s = Some cur → cur ≠ "" → toolStates s = ∅ →
  completeCurrentMessage s
  = ({| currentAssistantMessageId := Some cur;
        currentOpenCodeUserMessageId := currentOpenCodeUserMessageId s;
        toolStates := ∅; runningToolWatch := []; sentToolEvents := ∅ |},
     completion cur).
Proof.
  intros Hcur Hne Htools. unfold completeCurrentMessage.
  rewrite Hcur, (truthy_ne _ Hne). simpl.
  assert (hasRunningTools s = false) as ->.
  { apply hasRunningTools_false. intros id st. by rewrite Htools, lookup_empty. }
  by rewrite Htools, map_size_empty.
Qed.

(** X3.  In a turn without tools the assistant-message slot survives the
    completion (lines 576-583), so nothing stops a later idle report from
    completing the same message again: [n] idle reports ([session.idle] or
    [session.status] idle) broadcast [message_complete] for it [n] times,
    and the slot still holds the id afterwards. *)
Theorem text_only_turn_completes_on_every_idle s cur idles :
  currentAssistantMessageId s = Some cur → cur ≠ "" →
  toolStates s = ∅ → runningToolWatch s = [] →
  Forall (λ call, Idle call.2) idles →
  effects s idles = concat (replicate (length idles) (completion cur))
  ∧ currentAssistantMessageId (final s idles) = Some cur.
Proof.
  intros Hcur Hne Htools Hwatch Hidles. revert s Hcur Htools Hwatch.
  induction Hidles as [|[env event] idles Hidle _ IH]; intros s Hcur Htools Hwatch.
  - by split.
  - rewrite effects_cons, final_cons. simpl in Hidle.
    rewrite (process_idle_unwatched _ _ _ Hidle Hwatch).
    rewrite (completeCurrentMessage_text_only _ _ Hcur Hne Htools).
    cbn [fst snd length replicate concat].
    set (s' := {| currentAssistantMessageId := Some cur;
                  currentOpenCodeUserMessageId := currentOpenCodeUserMessageId s;
                  toolStates := ∅; runningToolWatch := []; sentToolEvents := ∅ |}).
    destruct (IH s' eq_refl eq_refl eq_refl) as [-> ->]. by split.
Qed.

Lemma text_only_turn_completes_on_every_idle_witness :
  effects textOnlyTurn [(at_ 2, sessionIdle); (at_ 3, sessionStatus "idle")]
  = completion "msg_1" ++ completion "msg_1"
  ∧ currentAssistantMessageId
      (final textOnlyTurn [(at_ 2, sessionIdle); (at_ 3, sessionStatus "idle")])
    = Some "msg_1".
Proof.
  apply (text_only_turn_completes_on_every_idle textOnlyTurn "msg_1"
           [(at_ 2, sessionIdle); (at_ 3, sessionStatus "idle")]);
    [reflexivity|discriminate|reflexivity|reflexivity|].
  constructor; [by left|]. constructor; [by right|]. constructor.
Defined.

Lemma completeCurrentMessage_with_tools s cur :
  currentAssistantMessageId s = Some cur → cur ≠ "" →
  (0 < size (toolStates s))%nat → hasRunningTools s = false →
  completeCurrentMessage s
  = ({| currentAssistantMessageId := None;
        currentOpenCodeUserMessageId := currentOpenCodeUserMessageId s;
        toolStates := ∅; runningToolWatch := []; sentToolEvents := ∅ |},
     completion cur).
Proof.
  intros Hcur Hne Htools Hrun. unfold completeCurrentMessage.
  rewrite Hcur, (truthy_ne _ Hne), Hrun. simpl.
  by rewrite bool_decide_eq_true_2.
Qed.

(** X4.  In a turn that used tools, the first idle report after the last
    tool has ended broadcasts [message_complete] once and empties the
    assistant-message slot (lines 576-580); every further idle report is
    silent, and the fields are those of a cancelled turn. *)
Theorem tool_turn_completes_once_and_frees_the_slot s cur env event idles :
  currentAssistantMessageId s = Some cur → cur ≠ "" →
  (0 < size (toolStates s))%nat → hasRunningTools s = false →
  Idle event → Forall (λ call, Idle call.2) idles →
  count isMessageComplete (effects s ((env, event) :: idles)) = 1%nat
  ∧ final s ((env, event) :: idles) = clearCurrentAssistantMessageId s.
Proof.
  intros Hcur Hne Htools Hrun Hidle Hidles.
  rewrite effects_cons, final_cons, count_app.
  assert ((process s env event).1 = clearCurrentAssistantMessageId s
          ∧ count isMessageComplete (process s env event).2 = 1%nat) as [Hs Hc].
  { rewrite process_state, process_count by (by intros [[]| | | | | |] || done).
    rewrite (dispatch_idle _ _ _ Hidle). simpl.
    rewrite (completeCurrentMessage_with_tools _ cur);
      rewrite ?heartbeat_assistant, ?heartbeat_tools, ?heartbeat_hasRunningTools;
      try done.
    simpl. by rewrite heartbeat_user. }
  rewrite Hs, Hc. clear Hs Hc.
  assert (∀ s', currentAssistantMessageId s' = None → runningToolWatch s' = [] →
                effects s' idles = [] ∧ final s' idles = s') as Hquiet.
  { clear -Hidles. induction Hidles as [|[env event] idles Hidle _ IH]; intros s' Hslot Hw.
    - by split.
    - rewrite effects_cons, final_cons. simpl in Hidle.
      rewrite (process_idle_unwatched _ _ _ Hidle Hw).
      unfold completeCurrentMessage. rewrite Hslot. simpl.
      by apply IH. }
  destruct (Hquiet (clearCurrentAssistantMessageId s) eq_refl eq_refl) as [-> ->].
  by split.
Qed.

Lemma tool_turn_completes_once_and_frees_the_slot_witness :
  count isMessageComplete
    (effects toolTurn [(at_ 2, sessionIdle); (at_ 3, sessionIdle)]) = 1%nat
  ∧ final toolTurn [(at_ 2, sessionIdle); (at_ 3, sessionIdle)]
    = clearCurrentAssistantMessageId toolTurn.
Proof.
  apply (tool_turn_completes_once_and_frees_the_slot toolTurn "msg_1" (at_ 2) sessionIdle
           [(at_ 3, sessionIdle)]);
    [reflexivity|discriminate|vm_compute; lia|reflexivity|by left|].
  constructor; [by left|constructor].
Defined.

(** With the slot empty, a handler that broadcasts no [message] completes
    no message and leaves the slot empty. *)
Lemma dispatch_empty_slot s env event :
  slotSet s = false →
  count isMessage (res_out (dispatch s env event)) = 0%nat →
  count isMessageComplete (res_out (dispatch s env event)) = 0%nat
  ∧ slotSet (res_state (dispatch s env event)) = false.
Proof.
  intros Hslot Hnone.
  assert (∀ r : State * list Out, r = (s, []) →
            count isMessageComplete r.2 = 0%nat ∧ slotSet r.1 = false) as Hsame
    by (by intros r ->).
  assert (completeCurrentMessage s = (s, [])) as Hcomplete.
  { unfold completeCurrentMessage. unfold slotSet in Hslot.
    destruct (currentAssistantMessageId s) as [cur|]; [|done].
    simpl in Hslot. by rewrite Hslot. }
  revert Hnone. unfold dispatch.
  destruct (ev_type event) as [type|]; [|by intros; apply (Hsame (s, []))].
  destruct (_ || _); [by intros; apply (Hsame (s, []))|].
  case_bool_decide.
  { unfold handleMessageUpdate. simpl.
    destruct (ev_properties event ≫= p_info) as [info|]; [|by intros; apply (Hsame (s, []))].
    destruct (info_id info) as [messageId|]; [|by intros; apply (Hsame (s, []))].
    destruct (info_role info) as [role|]; [|by intros; apply (Hsame (s, []))].
    destruct (_ || _); [by intros; apply (Hsame (s, []))|].
    destruct (_ && _); [by intros; apply (Hsame (s, []))|].
    case_bool_decide.
    { destruct (currentOpenCodeUserMessageId s); intros _; simpl; by split. }
    destruct (negb _); [by intros; apply (Hsame (s, []))|].
    rewrite ensureAssistantMessage_unset by done.
    destruct (negb _); simpl; [by unfold count; simpl|].
    destruct (info_completed info);
      [destruct (completeCurrentMessage (with_assistant s (Some messageId)))|];
      simpl; unfold count; simpl; done. }
  case_bool_decide.
  { unfold handlePartUpdate.
    destruct (ev_properties event) as [props|]; [|by intros; apply (Hsame (s, []))].
    destruct (p_part props) as [part|]; [|by intros; apply (Hsame (s, []))].
    destruct (part_id part) as [partId|]; [|by intros; apply (Hsame (s, []))].
    destruct (part_messageID part) as [messageID|]; [|by intros; apply (Hsame (s, []))].
    destruct (part_type part) as [type'|]; [|by intros; apply (Hsame (s, []))].
    destruct (_ || _ || _); [by intros; apply (Hsame (s, []))|].
    destruct (_ && _); [by intros; apply (Hsame (s, []))|].
    destruct (bool_decide (type' = "text")).
    { unfold handleTextPart. simpl.
      set (s0 := match currentOpenCodeUserMessageId s with
                 | Some _ => s | None => with_user s (Some messageID) end).
      assert (slotSet s0 = false) as Hslot0 by (unfold s0; by destruct (currentOpenCodeUserMessageId s)).
      case_bool_decide; [by intros _|].
      rewrite ensureAssistantMessage_unset by done.
      destruct (p_delta props) as [d|]; [destruct (Js.truthy d)|]; simpl; unfold count; simpl; done. }
    destruct (part_callID part) as [callID|]; [|by intros; apply (Hsame (s, []))].
    destruct (part_tool part) as [tool|]; [|by intros; apply (Hsame (s, []))].
    destruct (_ && _); [|by intros; apply (Hsame (s, []))].
    destruct (handleToolPart_phase s env partId messageID part callID tool)
      as (out & -> & _).
    rewrite ensureAssistantMessage_unset by done. simpl. by unfold count. }
  case_bool_decide.
  { unfold handleSessionIdle. rewrite Hcomplete. by intros; apply (Hsame (s, [])). }
  case_bool_decide.
  { unfold handleSessionStatus. destruct (ev_properties event) as [props|];
      [|by intros; apply (Hsame (s, []))].
    case_bool_decide; [rewrite Hcomplete|]; by intros; apply (Hsame (s, [])). }
  case_bool_decide; [|by intros; apply (Hsame (s, []))].
  unfold handleSessionError. destruct (ev_properties event) as [props|];
    [|by intros; apply (Hsame (s, []))].
  destruct (isAbortLikeOpenCodeError _); intros _; simpl; by split.
Qed.

Lemma process_empty_slot s env event :
  slotSet s = false →
  count isMessage (process s env event).2 = 0%nat →
  count isMessageComplete (process s env event).2 = 0%nat
  ∧ slotSet (process s env event).1 = false.
Proof.
  intros Hslot. rewrite !process_count by (by intros [[]| | | | | |] || done).
  rewrite process_state. apply dispatch_empty_slot. by rewrite heartbeat_slotSet.
Qed.

Lemma effects_empty_slot s calls :
  slotSet s = false →
  count isMessage (effects s calls) = 0%nat →
  count isMessageComplete (effects s calls) = 0%nat
  ∧ slotSet (final s calls) = false.
Proof.
  revert s. induction calls as [|[env event] rest IH]; intros s Hslot; [done|].
  rewrite effects_cons, final_cons, !count_app. intros Hnone.
  destruct (process_empty_slot s env event Hslot) as [Hc Hs]; [lia|].
  destruct (IH _ Hs) as [Hc' Hs']; [lia|]. split; [lia|done].
Qed.

(** X5.  After [clearCurrentAssistantMessageId] (a cancel) no message is
    completed before an event creates an assistant message anew: over calls
    that broadcast no [message], no [message_complete] is broadcast and the
    slot stays empty.  Idle reports alone emit nothing at all and leave the
    fields as the cancel left them, the recorded user message id included. *)
Theorem no_completion_after_cancel_without_a_new_message s calls :
  (count isMessage (effects (clearCurrentAssistantMessageId s) calls) = 0%nat →
   count isMessageComplete (effects (clearCurrentAssistantMessageId s) calls) = 0%nat
   ∧ slotSet (final (clearCurrentAssistantMessageId s) calls) = false)
  ∧ (Forall (λ call, Idle call.2) calls →
     effects (clearCurrentAssistantMessageId s) calls = []
     ∧ final (clearCurrentAssistantMessageId s) calls = clearCurrentAssistantMessageId s
     ∧ currentOpenCodeUserMessageId (final (clearCurrentAssistantMessageId s) calls)
       = currentOpenCodeUserMessageId s).
Proof.
  split; [by apply effects_empty_slot|].
  intros Hidles.
  assert (effects (clearCurrentAssistantMessageId s) calls = []
          ∧ final (clearCurrentAssistantMessageId s) calls
            = clearCurrentAssistantMessageId s) as [-> ->]; [|done].
  generalize (eq_refl : currentAssistantMessageId (clearCurrentAssistantMessageId s) = None).
  generalize (eq_refl : runningToolWatch (clearCurrentAssistantMessageId s) = []).
  generalize (clearCurrentAssistantMessageId s) as s'.
  induction Hidles as [|[env event] idles Hidle _ IH]; intros s' Hw Hslot.
  - by split.
  - rewrite effects_cons, final_cons. simpl in Hidle.
    rewrite (process_idle_unwatched _ _ _ Hidle Hw).
    unfold completeCurrentMessage. rewrite Hslot. simpl.
    by apply IH.
Qed.

Lemma no_completion_after_cancel_without_a_new_message_witness :
  (count isMessageComplete
     (effects (clearCurrentAssistantMessageId toolTurn)
        [(at_ 2, sessionIdle); (at_ 3, serverHeartbeat); (at_ 4, sessionStatus "idle")])
   = 0%nat
   ∧ slotSet
       (final (clearCurrentAssistantMessageId toolTurn)
          [(at_ 2, sessionIdle); (at_ 3, serverHeartbeat); (at_ 4, sessionStatus "idle")])
     = false)
  ∧ effects (clearCurrentAssistantMessageId toolTurn)
      [(at_ 2, sessionIdle); (at_ 3, sessionStatus "idle")] = []
  ∧ final (clearCurrentAssistantMessageId toolTurn)
      [(at_ 2, sessionIdle); (at_ 3, sessionStatus "idle")]
    = clearCurrentAssistantMessageId toolTurn
  ∧ currentOpenCodeUserMessageId
      (final (clearCurrentAssistantMessageId toolTurn)
         [(at_ 2, sessionIdle); (at_ 3, sessionStatus "idle")])
    = currentOpenCodeUserMessageId toolTurn.
Proof.
  split.
  - apply (no_completion_after_cancel_without_a_new_message toolTurn
             [(at_ 2, sessionIdle); (at_ 3, serverHeartbeat); (at_ 4, sessionStatus "idle")]).
    reflexivity.
  - apply (no_completion_after_cancel_without_a_new_message toolTurn
             [(at_ 2, sessionIdle); (at_ 3, sessionStatus "idle")]).
    constructor; [by left|]. constructor; [by right|]. constructor.
Defined.

(** A late token of the cancelled message does create the message anew, and
    the next idle report completes it. *)
Example late_token_revives_the_cancelled_message :
  effects (clearCurrentAssistantMessageId textOnlyTurn)
    [(at_ 2, partUpdated (textPart "ses" "msg_1" "prt_1" None) (Some " again"));
     (at_ 3, sessionIdle)]
  = [Broadcast (MsgMessage "msg_1" 2); Broadcast (MsgToken "msg_1" "prt_1" " again");
     OnMessageComplete; Broadcast (MsgMessageComplete "msg_1")].
Proof. vm_compute. reflexivity. Qed.

(** ** Events that are dropped *)

Lemma process_dropped s env event :
  (∀ s', dispatch s' env event = returned (s', [])) →
  process s env event = maybeBroadcastToolProgressHeartbeat s env.
Proof.
  intros Hdrop. rewrite process_unfold. cbn zeta. rewrite Hdrop. simpl.
  rewrite app_nil_r. by destruct (maybeBroadcastToolProgressHeartbeat s env).
Qed.

(** X6.  Events of another OpenCode session change nothing and reach no
    client: once the session id is known, a part update whose part has a
    different session id, or none, is dropped (line 247), and so is a message
    update that carries a different session id (line 121).  All that such a
    call does is the heartbeat check that opens every call. *)
Theorem events_of_another_session_are_dropped s env props :
  Js.truthy_opt (openCodeSessionId env) = true →
  (∀ part,
     p_part props = Some part → part_sessionID part ≠ openCodeSessionId env →
     process s env {| ev_type := Some "message.part.updated";
                      ev_properties := Some props |}
     = maybeBroadcastToolProgressHeartbeat s env)
  ∧ (∀ info sessionID,
       p_info props = Some info → infoSessionId info = Some sessionID →
       sessionID ≠ "" → Some sessionID ≠ openCodeSessionId env →
       process s env {| ev_type := Some "message.updated";
                        ev_properties := Some props |}
       = maybeBroadcastToolProgressHeartbeat s env).
Proof.
  intros Hknown. split.
  - intros part Hpart Hother. apply process_dropped. intros s'.
    unfold dispatch, handlePartUpdate. simpl. rewrite Hpart, Hknown.
    rewrite (bool_decide_eq_false_2 _ Hother). simpl.
    destruct (part_id part), (part_messageID part), (part_type part); try done.
    by destruct (_ || _ || _).
  - intros info sessionID Hinfo Hsid Hne Hother. apply process_dropped. intros s'.
    unfold dispatch, handleMessageUpdate. simpl. rewrite Hinfo, Hknown, Hsid. simpl.
    rewrite (truthy_ne _ Hne), (bool_decide_eq_false_2 _ Hother). simpl.
    destruct (info_id info), (info_role info); try done.
    by destruct (_ || _).
Qed.

Lemma events_of_another_session_are_dropped_witness :
  process toolTurn (at_ 2)
    (partUpdated (textPart "other" "msg_9" "prt_9" None) (Some "leak")) = (toolTurn, [])
  ∧ process toolTurn (at_ 2) (assistantUpdate "other" "msg_9" (ErrStr "boom") true)
    = (toolTurn, []).
Proof.
  split.
  - apply (proj1 (events_of_another_session_are_dropped toolTurn (at_ 2)
                    {| p_info := None;
                       p_part := Some (textPart "other" "msg_9" "prt_9" None);
                       p_delta := Some "leak"; p_status_type := None;
                       p_error := ErrAbsent |} eq_refl)
             (textPart "other" "msg_9" "prt_9" None) eq_refl).
    discriminate.
  - apply (proj2 (events_of_another_session_are_dropped toolTurn (at_ 2)
                    {| p_info := Some {| info_id := Some "msg_9";
                                         info_role := Some "assistant";
                                         info_sessionID := Some "other";
                                         info_sessionId := None;
                                         info_error := ErrStr "boom";
                                         info_completed := true |};
                       p_part := None; p_delta := None; p_status_type := None;
                       p_error := ErrAbsent |} eq_refl)
             _ "other" eq_refl eq_refl); discriminate.
Defined.

(** X7.  An update of an assistant message other than the current one is
    ignored (line 166): its error is not forwarded and its [time.completed]
    does not complete the current message. *)
Theorem update_of_another_assistant_message_is_ignored s env props info cur :
  currentAssistantMessageId s = Some cur → cur ≠ "" →
  p_info props = Some info →
  info_role info = Some "assistant" → info_id info ≠ Some cur →
  process s env {| ev_type := Some "message.updated"; ev_properties := Some props |}
  = maybeBroadcastToolProgressHeartbeat s env.
Proof.
  intros Hcur Hne Hinfo Hrole Hid.
  rewrite process_unfold. cbn zeta.
  pose proof (heartbeat_assistant s env) as Hslot. rewrite Hcur in Hslot.
  destruct (maybeBroadcastToolProgressHeartbeat s env) as [h out]. simpl in *.
  unfold dispatch, handleMessageUpdate, ensureAssistantMessage. simpl.
  rewrite Hinfo, Hrole, Hslot, (truthy_ne _ Hne). simpl.
  destruct (info_id info) as [messageId|]; [|by rewrite app_nil_r].
  destruct (negb (Js.truthy messageId) || false); [by rewrite app_nil_r|].
  destruct (_ && _); [by rewrite app_nil_r|]. simpl.
  rewrite bool_decide_eq_false_2 by congruence. simpl. by rewrite app_nil_r.
Qed.

Lemma update_of_another_assistant_message_is_ignored_witness :
  process textOnlyTurn (at_ 2) (assistantUpdate "ses" "msg_2" (ErrStr "boom") true)
  = (textOnlyTurn, []).
Proof.
  apply (update_of_another_assistant_message_is_ignored textOnlyTurn (at_ 2)
           {| p_info := Some {| info_id := Some "msg_2"; info_role := Some "assistant";
                                info_sessionID := Some "ses"; info_sessionId := None;
                                info_error := ErrStr "boom"; info_completed := true |};
              p_part := None; p_delta := None; p_status_type := None;
              p_error := ErrAbsent |}
           {| info_id := Some "msg_2"; info_role := Some "assistant";
              info_sessionID := Some "ses"; info_sessionId := None;
              info_error := ErrStr "boom"; info_completed := true |}
           "msg_1" eq_refl); [discriminate|reflexivity|reflexivity|discriminate].
Defined.

(** ** Errors attached to the assistant message *)

Lemma completeCurrentMessage_no_error s o :
  o ∈ (completeCurrentMessage s).2 → isError o = false.
Proof.
  unfold completeCurrentMessage. split_cases; rewrite ?elem_of_cons, ?elem_of_nil;
    intros; destruct_or?; subst; done.
Qed.

(** X8.  An update of the current assistant message (or the one that creates
    it) forwards the error it carries as exactly one [error] broadcast with the
    text [getOpenCodeErrorMessage] extracts, unless the error is abort-like
    or has no text; then no [error] is broadcast (lines 170-184). *)
Theorem assistant_message_error_is_forwarded_unless_abort
    s env sessionID messageID error completed :
  messageID ≠ "" → accepts env sessionID →
  currentAssistantMessageId s = None ∨ currentAssistantMessageId s = Some messageID →
  let out := (process s env (assistantUpdate sessionID messageID error completed)).2 in
  (∀ text, Broadcast (MsgError text) ∈ out ↔
           getOpenCodeErrorMessage error = Some text ∧ text ≠ ""
           ∧ isAbortLikeOpenCodeError error = false)
  ∧ (count isError out ≤ 1)%nat.
Proof.
  intros Hne Haccepts Hslot. cbn zeta.
  rewrite process_unfold. cbn zeta.
  pose proof (heartbeatLoop_out (clock_heartbeat env) (runningToolWatch s)) as Hhb.
  rewrite heartbeat_loop_unfold. simpl.
  set (hout := (heartbeatLoop (clock_heartbeat env) (runningToolWatch s)).2) in *.
  set (h := with_watch s _) in *.
  assert (currentAssistantMessageId h = currentAssistantMessageId s) as Hh by done.
  assert (∀ o, o ∈ hout → isError o = false) as Hquiet.
  { intros o Hin. rewrite forallb_forall in Hhb. apply list_elem_of_In, Hhb in Hin.
    by destruct o as [[]| | | | | |]. }
  assert (count isError hout = 0%nat) as Hcount.
  { apply (count_excluded _ isHeartbeat); [|done]. by intros [[]| | | | | |]. }
  unfold dispatch, assistantUpdate, messageUpdated, handleMessageUpdate. simpl.
  rewrite (truthy_ne _ Hne). simpl.
  pose proof (accepts_info env sessionID Haccepts messageID "assistant") as Hfilter.
  unfold messageInfo, infoSessionId in Hfilter. simpl in Hfilter.
  unfold infoSessionId. simpl. rewrite Hfilter. clear Hfilter.
  assert (∃ out1, ensureAssistantMessage h env messageID
                  = (with_assistant h (Some messageID), out1, messageID)
                  ∧ count isError out1 = 0%nat
                  ∧ ∀ o, o ∈ out1 → isError o = false) as (out1 & -> & Hc1 & Hq1).
  { unfold ensureAssistantMessage. rewrite Hh. destruct Hslot as [Hs | Hs]; rewrite Hs.
    - eexists. split; [done|]. split; [reflexivity|].
      intros o Hin%list_elem_of_singleton. by subst.
    - rewrite (truthy_ne _ Hne). exists []. split; [|split; [reflexivity|]].
      + f_equal. f_equal. rewrite Hs in Hh. clear -Hh. destruct h. simpl in *. by subst.
      + by intros o Hin%elem_of_nil. }
  rewrite bool_decide_eq_true_2 by done. simpl.
  set (s1 := with_assistant h (Some messageID)).
  set (fin := if completed then completeCurrentMessage s1 else (s1, [])).
  assert (∀ o, o ∈ fin.2 → isError o = false) as Hq3.
  { unfold fin. destruct completed; [apply completeCurrentMessage_no_error|].
    by intros o Hin%elem_of_nil. }
  assert (count isError fin.2 = 0%nat) as Hc3.
  { clear -Hq3. induction fin.2 as [|o l IH]; [done|]. unfold count in *. simpl.
    rewrite (Hq3 o) by (by left). apply IH. intros o' Hin. apply Hq3. by right. }
  set (out2 := match getOpenCodeErrorMessage error with
               | Some errorMessage =>
                   if negb (Js.truthy errorMessage) then []
                   else if isAbortLikeOpenCodeError error then []
                   else [Broadcast (MsgError errorMessage)]
               | None => []
               end).
  assert ((if completed
           then let '(s2, out3) := completeCurrentMessage s1 in
                (s2, out1 ++ out2 ++ out3)
           else (s1, out1 ++ out2)).2
          = out1 ++ out2 ++ fin.2) as ->.
  { unfold fin. destruct completed; simpl; [|by rewrite app_nil_r].
    by destruct (completeCurrentMessage s1). }
  rewrite app_nil_r. split.
  - intros text. rewrite !elem_of_app. split.
    + intros [Hin | [Hin | [Hin | Hin]]];
        [by apply Hquiet in Hin|by apply Hq1 in Hin| |by apply Hq3 in Hin].
      unfold out2 in Hin. destruct (getOpenCodeErrorMessage error) as [msg|];
        [|by apply elem_of_nil in Hin].
      unfold Js.truthy in Hin. case_bool_decide as Hmsg; simpl in Hin;
        [by apply elem_of_nil in Hin|].
      destruct (isAbortLikeOpenCodeError error); [by apply elem_of_nil in Hin|].
      apply list_elem_of_singleton in Hin. injection Hin as ->. done.
    + intros (Hmsg & Htext & Habort). right. right. left. unfold out2.
      rewrite Hmsg, (truthy_ne _ Htext), Habort. simpl. by left.
  - rewrite !count_app, Hcount, Hc1, Hc3. unfold out2.
    destruct (getOpenCodeErrorMessage error) as [msg|]; [|simpl; lia].
    destruct (negb _); [simpl; lia|].
    destruct (isAbortLikeOpenCodeError error); unfold count; simpl; lia.
Qed.

Lemma assistant_message_error_is_forwarded_unless_abort_witness :
  Broadcast (MsgError "rate limited")
  ∈ (process initial (at_ 0)
       (assistantUpdate "ses" "msg_1"
          (ErrObj (Some "APIError") None (Some "rate limited")) false)).2
  ∧ (count isError
       (process initial (at_ 0)
          (assistantUpdate "ses" "msg_1"
             (ErrObj (Some "APIError") None (Some "rate limited")) false)).2 ≤ 1)%nat.
Proof.
  destruct (assistant_message_error_is_forwarded_unless_abort initial (at_ 0) "ses" "msg_1"
              (ErrObj (Some "APIError") None (Some "rate limited")) false)
    as [Hiff Hle]; [discriminate|by right|by left|].
  split; [|exact Hle]. apply Hiff. split; [reflexivity|]. split; [discriminate|reflexivity].
Defined.

(** ** Tool metadata, tool results and text parts *)

Lemma toolMetadataPhase_sent s now partId toolCallId tool state :
  sentToolEvents s
  ⊆ sentToolEvents (res_state (toolMetadataPhase s now partId toolCallId tool state)).
Proof.
  destruct (toolMetadataPhase_phase s now partId toolCallId tool state) as (_ & _ & _ & H).
  done.
Qed.

(** Once the metadata part has run on a tool state, running it again on the
    same tool state emits nothing, as long as the sent-event keys were kept. *)
Lemma toolMetadataPhase_again s s' now now' partId toolCallId tool state :
  sentToolEvents (res_state (toolMetadataPhase s now partId toolCallId tool state))
  ⊆ sentToolEvents s' →
  res_out (toolMetadataPhase s' now' partId toolCallId tool state) = [].
Proof.
  unfold toolMetadataPhase.
  destruct (state ≫= ps_metadata) as [metadata|]; simpl; [|done].
  destruct (md_summary metadata) as [summary|]; simpl; [|done].
  destruct (mapM summaryEntry summary) as [entries|]; simpl; [|done].
  set (key := partId +:+ ":summary:" +:+ _).
  intros Hsub. rewrite (bool_decide_eq_true_2 (key ∈ sentToolEvents s')); [done|].
  apply Hsub. case_bool_decide; simpl; set_solver.
Qed.

Lemma toolEndPhase_sent s partId toolCallId tool state :
  sentToolEvents s ⊆ sentToolEvents (toolEndPhase s partId toolCallId tool state).1.
Proof.
  destruct (toolEndPhase_phase s partId toolCallId tool state) as (_ & _ & _ & H). done.
Qed.

Lemma toolStartPhase_sent s now cur partId toolCallId tool args :
  sentToolEvents s
  ⊆ sentToolEvents (toolStartPhase s now cur partId toolCallId tool args).1.
Proof.
  destruct (toolStartPhase_phase s now cur partId toolCallId tool args) as (_ & _ & _ & H).
  done.
Qed.

Lemma count_no_metadata out :
  forallb (λ o, negb (isToolMetadata o)) out = true → count isToolMetadata out = 0%nat.
Proof.
  intros Hall. apply (count_excluded _ (λ o, negb (isToolMetadata o))); [|done].
  intros o. by destruct (isToolMetadata o).
Qed.

Lemma ensureAssistantMessage_no_metadata s env messageId :
  count isToolMetadata (ensureAssistantMessage s env messageId).1.2 = 0%nat.
Proof. unfold ensureAssistantMessage. split_cases; reflexivity. Qed.

Lemma toolStartPhase_no_metadata s now cur partId toolCallId tool args :
  count isToolMetadata (toolStartPhase s now cur partId toolCallId tool args).2 = 0%nat.
Proof. unfold toolStartPhase. split_cases; reflexivity. Qed.

Lemma toolEndPhase_no_metadata s partId toolCallId tool state :
  count isToolMetadata (toolEndPhase s partId toolCallId tool state).2 = 0%nat.
Proof. unfold toolEndPhase. split_cases; reflexivity. Qed.

(** What [handleToolPart] leaves in the sent-event keys makes a second call
    on the same part emit no [tool_metadata]. *)
Lemma handleToolPart_metadata_again s s' env env' partId messageID part toolCallId toolName :
  sentToolEvents
    (res_state (handleToolPart s env partId messageID part toolCallId toolName))
  ⊆ sentToolEvents s' →
  count isToolMetadata
    (res_out (handleToolPart s' env' partId messageID part toolCallId toolName)) = 0%nat.
Proof.
  rewrite !handleToolPart_parts. cbn zeta. intros Hsub.
  set (e := ensureAssistantMessage s env messageID) in *.
  set (r1 := toolStartPhase e.1.1 _ _ _ _ _ _) in *.
  set (r2 := toolMetadataPhase r1.1 _ _ _ _ _) in *.
  set (e' := ensureAssistantMessage s' env' messageID).
  set (r1' := toolStartPhase e'.1.1 _ _ _ _ _ _).
  assert (res_out (toolMetadataPhase r1'.1 (clock_tool env') partId toolCallId toolName
                     (part_state part)) = []) as Hnone.
  { apply (toolMetadataPhase_again r1.1 _ (clock_tool env)). fold r2.
    etrans; [|apply toolStartPhase_sent]. unfold e'.
    rewrite ensureAssistantMessage_sent. etrans; [|exact Hsub].
    destruct (summaryThrows (part_state part)); simpl; [done|].
    apply toolEndPhase_sent. }
  unfold r1', e' in *.
  destruct (summaryThrows (part_state part)); simpl;
    rewrite Hnone, !count_app, ensureAssistantMessage_no_metadata,
      toolStartPhase_no_metadata, ?toolEndPhase_no_metadata; reflexivity.
Qed.

(** Whether a call reaches [handleToolPart], and on which part, is decided by
    the event and the session id alone; a call that does not reach it emits
    no [tool_metadata]. *)
Lemma dispatch_tool_or_no_metadata env event :
  (∃ partId messageID part toolCallId toolName,
     ∀ s env', openCodeSessionId env' = openCodeSessionId env →
               dispatch s env' event
               = handleToolPart s env' partId messageID part toolCallId toolName)
  ∨ (∀ s env', openCodeSessionId env' = openCodeSessionId env →
               count isToolMetadata (res_out (dispatch s env' event)) = 0%nat).
Proof.
  unfold dispatch.
  destruct (ev_type event) as [type|]; [|by right].
  destruct (_ || _); [by right|].
  case_bool_decide.
  { right. intros. unfold handleMessageUpdate, ensureAssistantMessage, completeCurrentMessage.
    split_cases; reflexivity. }
  case_bool_decide.
  { unfold handlePartUpdate.
    destruct (ev_properties event) as [props|]; [|by right].
    destruct (p_part props) as [part|]; [|by right].
    destruct (part_id part) as [partId|]; [|by right].
    destruct (part_messageID part) as [messageID|]; [|by right].
    destruct (part_type part) as [type'|]; [|by right].
    destruct (_ || _ || _); [by right|].
    destruct (Js.truthy_opt (openCodeSessionId env)
              && negb (bool_decide (part_sessionID part = openCodeSessionId env)))
      eqn:Hfilter.
    { right. intros s env' Heq. by rewrite Heq, Hfilter. }
    destruct (bool_decide (type' = "text")).
    { right. intros s env' Heq. rewrite Heq, Hfilter.
      unfold handleTextPart, ensureAssistantMessage. split_cases; reflexivity. }
    destruct (part_callID part) as [callID|];
      [|right; intros s env' Heq; by rewrite Heq, Hfilter].
    destruct (part_tool part) as [tool|];
      [|right; intros s env' Heq; by rewrite Heq, Hfilter].
    destruct (Js.truthy callID && Js.truthy tool);
      [|right; intros s env' Heq; by rewrite Heq, Hfilter].
    left. exists partId, messageID, part, callID, tool. intros s env' Heq.
    by rewrite Heq, Hfilter. }
  case_bool_decide.
  { right. intros. unfold handleSessionIdle, completeCurrentMessage.
    split_cases; reflexivity. }
  case_bool_decide.
  { right. intros. unfold handleSessionStatus, completeCurrentMessage.
    split_cases; reflexivity. }
  case_bool_decide; [|by right].
  right. intros. unfold handleSessionError. split_cases; reflexivity.
Qed.

(** X9.  [tool_metadata] is deduplicated per turn like the tool events: after
    a call on an event, and any further calls that complete no message, a
    call on the same event (same part, title and task summary) broadcasts no
    [tool_metadata] (lines 443-500). *)
Theorem tool_metadata_is_not_repeated_within_a_turn s env1 env2 event between :
  openCodeSessionId env1 = openCodeSessionId env2 →
  count isMessageComplete (effects (process s env1 event).1 between) = 0%nat →
  count isToolMetadata
    (process (final (process s env1 event).1 between) env2 event).2 = 0%nat.
Proof.
  intros Hsid Hnone. rewrite process_count by (by intros [[]| | | | | |] || done).
  destruct (dispatch_tool_or_no_metadata env1 event)
    as [(partId & messageID & part & callID & tool & Htool) | Hnot];
    [|by apply Hnot].
  rewrite Htool by done.
  apply (handleToolPart_metadata_again (maybeBroadcastToolProgressHeartbeat s env1).1 _ env1).
  rewrite heartbeat_sent. etrans; [|by apply sent_kept_until_complete].
  by rewrite process_state, Htool.
Qed.

Lemma tool_metadata_is_not_repeated_within_a_turn_witness :
  count isToolMetadata
    (process (final (process initial (at_ 0) (summarised "running")).1
                [(at_ 1, summarised "completed")])
       (at_ 2) (summarised "running")).2 = 0%nat.
Proof.
  apply (tool_metadata_is_not_repeated_within_a_turn initial (at_ 0) (at_ 2)
           (summarised "running") [(at_ 1, summarised "completed")]);
    reflexivity.
Defined.

Lemma toolEndPhase_wellFormed s partId toolCallId tool state :
  forallb toolEndWellFormed (toolEndPhase s partId toolCallId tool state).2 = true.
Proof.
  unfold toolEndPhase. destruct (_ || _); [|done]. destruct (negb _); [|done].
  cbn [snd forallb toolEndWellFormed]. rewrite andb_true_r, bool_decide_eq_true_2 by done.
  rewrite andb_true_r. unfold Js.or_else.
  destruct (Js.truthy_opt (state ≫= ps_output)) eqn:Hout.
  { destruct (state ≫= ps_output); done. }
  destruct (Js.truthy_opt (state ≫= ps_error)) eqn:Herr; [|done].
  destruct (state ≫= ps_error); done.
Qed.

Lemma forallb_weaken (p q : Out → bool) out :
  (∀ o, p o = true → q o = true) → forallb p out = true → forallb q out = true.
Proof.
  intros Hpq. rewrite !forallb_forall. auto.
Qed.

Lemma dispatch_toolEnd_wellFormed s env event :
  forallb toolEndWellFormed (res_out (dispatch s env event)) = true.
Proof.
  destruct (dispatch_tool_or_not env event)
    as [(partId & messageID & part & callID & tool & Htool) | Hnot].
  - rewrite Htool by done. rewrite handleToolPart_parts. cbn zeta.
    assert (∀ out, count isToolEnd out = 0%nat → forallb toolEndWellFormed out = true)
      as Hnone.
    { induction out as [|o out IH]; [done|]. unfold count in *. simpl.
      destruct o as [[]| | | | | |]; simpl; auto; discriminate. }
    destruct (summaryThrows _); simpl; rewrite !forallb_app, ?toolEndPhase_wellFormed;
      rewrite !Hnone; try done;
      try apply toolStartPhase_count_le; try apply toolMetadataPhase_count;
      apply count_notToolEvent, ensureAssistantMessage_notToolEvent.
  - eapply forallb_weaken; [|by apply Hnot].
    by intros [[]| | | | | |].
Qed.

(** X10.  Every [tool_end] broadcast carries a non-empty result, the tool's
    output, else its error, else a single space, and the duration 0
    (lines 507-516). *)
Theorem tool_end_result_is_never_empty s env event partId toolCallId tool result durationMs :
  Broadcast (MsgToolEnd partId toolCallId tool result durationMs)
  ∈ (process s env event).2 →
  result ≠ "" ∧ durationMs = 0.
Proof.
  rewrite process_unfold. cbn zeta. cbn [snd]. rewrite !elem_of_app.
  intros [Hin | [Hin | Hin]].
  - exfalso.
    rewrite heartbeat_loop_unfold in Hin. simpl in Hin.
    pose proof (heartbeatLoop_out (clock_heartbeat env) (runningToolWatch s)) as Hhb.
    rewrite forallb_forall in Hhb. by apply list_elem_of_In, Hhb in Hin.
  - pose proof (dispatch_toolEnd_wellFormed
                  (maybeBroadcastToolProgressHeartbeat s env).1 env event) as Hall.
    rewrite forallb_forall in Hall. apply list_elem_of_In, Hall in Hin. simpl in Hin.
    apply andb_prop in Hin as [Hres Hdur]. split.
    + intros ->. done.
    + by apply bool_decide_eq_true in Hdur.
  - destruct (res_thrown _); [|by apply elem_of_nil in Hin].
    by apply list_elem_of_singleton in Hin.
Qed.

Lemma tool_end_result_is_never_empty_witness :
  " " ≠ "" ∧ (0 : Z) = 0.
Proof.
  apply (tool_end_result_is_never_empty initial (at_ 0)
           (partUpdated
              (toolPart "ses" "msg_1" "prt_1" "call_1" "bash"
                 (Some (toolState "completed" [] None))) None)
           "prt_1" "call_1" "bash" " " 0).
  vm_compute. right. right. right. left.
Defined.

Ltac no_text :=
  repeat split; intros; unfold count; simpl; try lia; try reflexivity.

(** X11.  A text-part update yields a token or a completed text part, never
    both: with a non-empty [delta] it is forwarded as a [token] and the
    part's full text is not reported, even when present; without one no
    [token] is broadcast (lines 315-336). *)
Theorem text_part_is_token_or_complete s env event :
  let out := (process s env event).2 in
  (count isToken out + count isTextPartComplete out ≤ 1)%nat
  ∧ (∀ props delta, ev_properties event = Some props → p_delta props = Some delta →
                    delta ≠ "" → count isTextPartComplete out = 0%nat)
  ∧ (∀ props, ev_properties event = Some props →
              p_delta props = None ∨ p_delta props = Some "" →
              count isToken out = 0%nat).
Proof.
  cbn zeta. rewrite !process_count by (by intros [[]| | | | | |] || done).
  set (h := (maybeBroadcastToolProgressHeartbeat s env).1).
  unfold dispatch.
  destruct (ev_type event) as [type|]; [|no_text].
  destruct (_ || _); [no_text|].
  case_bool_decide.
  { unfold handleMessageUpdate, ensureAssistantMessage, completeCurrentMessage.
    split_cases; no_text. }
  case_bool_decide.
  { unfold handlePartUpdate.
    destruct (ev_properties event) as [props|]; [|no_text].
    destruct (p_part props) as [part|]; [|no_text].
    destruct (part_id part) as [partId|]; [|no_text].
    destruct (part_messageID part) as [messageID|]; [|no_text].
    destruct (part_type part) as [type'|]; [|no_text].
    destruct (_ || _ || _); [no_text|].
    destruct (_ && _); [no_text|].
    destruct (bool_decide (type' = "text")).
    { unfold handleTextPart, ensureAssistantMessage.
      split_cases; no_text; simplify_eq/=; destruct_or?; simplify_eq/=;
        unfold Js.truthy in *; repeat case_bool_decide; simplify_eq/=. }
    destruct (part_callID part) as [callID|]; [|no_text].
    destruct (part_tool part) as [tool|]; [|no_text].
    destruct (_ && _); [|no_text].
    destruct (handleToolPart_phase h env partId messageID part callID tool)
      as (out & -> & Hout & _).
    rewrite !count_app.
    rewrite !(count_tool_effects _ out) by (done || by intros [[]| | | | | |]).
    unfold ensureAssistantMessage. split_cases; no_text. }
  case_bool_decide.
  { unfold handleSessionIdle, completeCurrentMessage. split_cases; no_text. }
  case_bool_decide.
  { unfold handleSessionStatus, completeCurrentMessage. split_cases; no_text. }
  case_bool_decide; [|no_text].
  unfold handleSessionError. split_cases; no_text.
Qed.

(** ** The text of a heartbeat *)

Lemma heartbeatLoop_status now ws status message :
  Broadcast (MsgStatus status message) ∈ (heartbeatLoop now ws).2 →
  status = "running"
  ∧ ∃ id w, (id, w) ∈ ws ∧ heartbeatDue now w = true ∧ message = heartbeatMessage now w.
Proof.
  induction ws as [|[id w] ws IH]; simpl; [by intros ?%elem_of_nil|].
  destruct (heartbeatLoop now ws) as [rest out]. simpl in *.
  destruct (heartbeatDue now w) eqn:Hdue; simpl; rewrite ?elem_of_cons.
  - intros [[= -> ->] | [? | Hin]]; [|done|].
    + split; [done|]. exists id, w. split; [by left|done].
    + destruct (IH Hin) as (Hs & id' & w' & Hin' & Hrest). split; [done|].
      exists id', w'. split; [by right|done].
  - intros Hin. destruct (IH Hin) as (Hs & id' & w' & Hin' & Hrest). split; [done|].
    exists id', w'. split; [by right|done].
Qed.

(** X28.  The only [status] broadcasts of the processor are tool-progress
    heartbeats.  Each is a [running] status about a watched tool and reads
    [Working on <tool> (<e>s elapsed, no update for <q>s)], where [q],
    the whole seconds since the tool's last update, is at least 15 and
    [e] is at least 1. *)
Theorem status_broadcasts_report_a_quiet_tool s env event status message :
  Broadcast (MsgStatus status message) ∈ (process s env event).2 →
  status = "running"
  ∧ ∃ id w elapsed quiet,
      (id, w) ∈ runningToolWatch s
      ∧ message = "Working on " +:+ toolName w +:+ " (" +:+ pretty elapsed
                  +:+ "s elapsed, no update for " +:+ pretty quiet +:+ "s)"
      ∧ 1 ≤ elapsed ∧ 15 ≤ quiet
      ∧ quiet * 1000 ≤ clock_heartbeat env - lastUpdateAt w < (quiet + 1) * 1000.
Proof.
  rewrite process_unfold. cbn zeta. cbn [snd]. rewrite !elem_of_app.
  intros [Hin | [Hin | Hin]].
  - rewrite heartbeat_loop_unfold in Hin. simpl in Hin.
    apply heartbeatLoop_status in Hin as (-> & id & w & Hin & Hdue & ->).
    split; [done|]. unfold heartbeatDue, toolProgressHeartbeatMs in Hdue.
    apply andb_prop in Hdue as [Hquiet%negb_true_iff%Z.ltb_ge _].
    set (now := clock_heartbeat env) in *.
    exists id, w, (Z.max 1 ((now - startedAt w) `div` 1000)),
      ((now - lastUpdateAt w) `div` 1000).
    assert (15 ≤ (now - lastUpdateAt w) `div` 1000) as Hq.
    { apply Z.div_le_lower_bound; lia. }
    split; [done|]. split.
    { unfold heartbeatMessage. fold now. by rewrite (Z.max_r 1 ((now - lastUpdateAt w) `div` 1000)) by lia. }
    split; [lia|]. split; [done|].
    pose proof (Z.div_mod (now - lastUpdateAt w) 1000 ltac:(lia)) as Hdiv.
    pose proof (Z.mod_pos_bound (now - lastUpdateAt w) 1000 ltac:(lia)). lia.
  - exfalso.
    pose proof (dispatch_handler_effects
                  (maybeBroadcastToolProgressHeartbeat s env).1 env event) as Hall.
    rewrite forallb_forall in Hall. by apply list_elem_of_In, Hall in Hin.
  - destruct (res_thrown _); [|by apply elem_of_nil in Hin].
    by apply list_elem_of_singleton in Hin.
Qed.

Lemma status_broadcasts_report_a_quiet_tool_witness :
  "running" = "running"
  ∧ ∃ id w elapsed quiet,
      (id, w) ∈ runningToolWatch (process initial (at_ 0) startedTool).1
      ∧ "Working on bash (20s elapsed, no update for 20s)"
        = "Working on " +:+ toolName w +:+ " (" +:+ pretty elapsed
          +:+ "s elapsed, no update for " +:+ pretty quiet +:+ "s)"
      ∧ 1 ≤ elapsed ∧ 15 ≤ quiet
      ∧ quiet * 1000 ≤ clock_heartbeat (at_ 20000) - lastUpdateAt w < (quiet + 1) * 1000.
Proof.
  apply (status_broadcasts_report_a_quiet_tool (process initial (at_ 0) startedTool).1
           (at_ 20000) serverHeartbeat "running"
           "Working on bash (20s elapsed, no update for 20s)").
  vm_compute. left.
Defined.

(** ** The provider: liveness probe, pausing, service tests *)

Lemma trimEnd_app_blank s t :
  Provider.trimEnd t = "" → Provider.trimEnd (s +:+ t) = Provider.trimEnd s.
Proof.
  intros Ht. induction s as [|c s IH]; [by rewrite string_app_nil_l|].
  rewrite string_app_cons. simpl. by rewrite IH.
Qed.

Lemma trimEnd_app_solid s t :
  Provider.trimEnd t ≠ "" → Provider.trimEnd (s +:+ t) = s +:+ Provider.trimEnd t.
Proof.
  intros Ht. induction s as [|c s IH]; [by rewrite !string_app_nil_l|].
  rewrite !string_app_cons. simpl. rewrite IH.
  destruct (s +:+ Provider.trimEnd t) eqn:Heq; [|done].
  destruct s; [by rewrite string_app_nil_l in Heq|].
  by rewrite string_app_cons in Heq.
Qed.

Lemma trimEnd_noSpace s : noSpace s = true → Provider.trimEnd s = s.
Proof.
  induction s as [|c s IH]; simpl; [done|]. intros [Hc Hs]%andb_prop.
  rewrite (IH Hs). destruct s; [|done]. by destruct (Provider.isSpace c).
Qed.

Lemma trimStart_noSpace s : noSpace s = true → Provider.trimStart s = s.
Proof. destruct s as [|c s]; simpl; [done|]. by destruct (Provider.isSpace c). Qed.

Lemma join_cons sep x y rest :
  Js.join sep (x :: y :: rest) = x +:+ sep +:+ Js.join sep (y :: rest).
Proof. done. Qed.

Lemma join_truthy sep x rest : Js.truthy x = true → Js.join sep (x :: rest) ≠ "".
Proof.
  intros Hx. destruct rest; simpl; intros Heq; destruct x; try done.
Qed.

Lemma containerId_spec rid :
  containerId rid = true → rid ≠ "" ∧ noSpace rid = true.
Proof.
  intros [[Hne Hns]%andb_prop _]%andb_prop. split; [|done]. intros ->. done.
Qed.

(** Trimming what [docker ps] printed leaves the ids joined by line feeds. *)
Lemma trim_dockerPsOutput running :
  Forall (λ rid, containerId rid = true) running →
  Provider.trim (dockerPsOutput running) = Js.join (String Provider.newline "") running.
Proof.
  intros Hids. unfold Provider.trim.
  assert (Provider.trimStart (dockerPsOutput running) = dockerPsOutput running) as ->.
  { destruct Hids as [|rid rest Hrid _]; [done|]. simpl.
    apply containerId_spec in Hrid as [Hne Hns]. destruct rid as [|c rid]; [done|].
    simpl in *. by destruct (Provider.isSpace c). }
  induction Hids as [|rid rest Hrid Hrest IH]; [done|].
  pose proof Hrid as [Hne Hns]%containerId_spec.
  destruct rest as [|rid' rest].
  - simpl. rewrite trimEnd_app_blank by done. by apply trimEnd_noSpace.
  - rewrite join_cons. change (dockerPsOutput (rid :: rid' :: rest))
      with (rid +:+ String Provider.newline (dockerPsOutput (rid' :: rest))).
    change (String Provider.newline (dockerPsOutput (rid' :: rest)))
      with (String Provider.newline "" +:+ dockerPsOutput (rid' :: rest)).
    assert (Provider.trimEnd (dockerPsOutput (rid' :: rest)) ≠ "") as Hsolid.
    { rewrite IH. apply join_truthy. inversion Hrest as [|? ? Hrid' _]; subst.
      by apply andb_prop in Hrid' as [[? _]%andb_prop _]. }
    rewrite !trimEnd_app_solid, IH; try done.
    rewrite trimEnd_app_solid by done. intros Heq. by destruct (Provider.trimEnd _).
Qed.

Lemma split_noSpace s :
  noSpace s = true → Provider.split Provider.newline s = [s].
Proof.
  induction s as [|c s IH]; simpl; [done|]. intros [Hc Hs]%andb_prop.
  rewrite (IH Hs). case_bool_decide as Hnl; [|done]. subst c. done.
Qed.

Lemma split_app_newline s t :
  noSpace s = true →
  Provider.split Provider.newline (s +:+ String Provider.newline t)
  = s :: Provider.split Provider.newline t.
Proof.
  induction s as [|c s IH]; intros Hs.
  - by rewrite string_app_nil_l.
  - rewrite string_app_cons. simpl in *. apply andb_prop in Hs as [Hc Hs].
    rewrite (IH Hs). case_bool_decide as Hnl; [|done]. subst c. done.
Qed.

Lemma split_join_lines running :
  running ≠ [] → Forall (λ rid, containerId rid = true) running →
  Provider.split Provider.newline (Js.join (String Provider.newline "") running) = running.
Proof.
  intros Hne Hids. induction Hids as [|rid rest Hrid Hrest IH]; [done|].
  apply containerId_spec in Hrid as [_ Hns].
  destruct rest as [|rid' rest]; [by apply split_noSpace|].
  rewrite join_cons, string_app_cons, string_app_nil_l.
  rewrite split_app_newline by done. by rewrite IH.
Qed.

(** X12.  The liveness probe reads back what [docker ps] prints: when the
    host answers with the ids of the running containers, one per line,
    [checkSandboxes] resolves to those of the given ids, in the given order,
    that are a prefix of the id of a running container; it reports none when
    nothing is running. *)
Theorem checkSandboxes_reports_prefixes_of_running_ids ssh result running sandboxIds :
  ssh Provider.dockerPsRunning = Provider.Resolved result →
  Provider.ssh_stdout result = dockerPsOutput running →
  Forall (λ rid, containerId rid = true) running →
  Provider.checkSandboxes ssh sandboxIds
  = Provider.Resolved
      (List.filter (λ id, existsb (λ rid, Js.startsWith rid id) running) sandboxIds).
Proof.
  intros Hssh Hout Hids. unfold Provider.checkSandboxes. rewrite Hssh, Hout.
  rewrite trim_dockerPsOutput by done.
  destruct running as [|rid rest]; [done|].
  rewrite split_join_lines by done.
  assert (List.filter Js.truthy (rid :: rest) = rid :: rest) as ->; [|done].
  clear -Hids. induction Hids as [|x l Hx _ IH]; [done|]. simpl.
  apply andb_prop in Hx as [[-> _]%andb_prop _]. by rewrite IH.
Qed.

Lemma checkSandboxes_reports_prefixes_of_running_ids_witness :
  Provider.checkSandboxes hostWithContainer ["77aa"; "dead"; "3f2a9b1c0d4e"]
  = Provider.Resolved ["77aa"; "3f2a9b1c0d4e"].
Proof.
  apply (checkSandboxes_reports_prefixes_of_running_ids hostWithContainer
           {| Provider.ssh_stdout := dockerPsOutput ["3f2a9b1c0d4e"; "77aa10b2c3d4"];
              Provider.ssh_stderr := ""; Provider.ssh_code := Some 0 |}
           ["3f2a9b1c0d4e"; "77aa10b2c3d4"] ["77aa"; "dead"; "3f2a9b1c0d4e"]);
    [reflexivity|reflexivity|].
  repeat constructor.
Defined.

Lemma stop_is_not_commit sessionId sandboxId now :
  Lifecycle.stopCommand sandboxId ≠ Lifecycle.commitCommand sessionId sandboxId now.
Proof. unfold Lifecycle.stopCommand, Lifecycle.commitCommand. simpl. discriminate. Qed.

(** X13.  [pause] never stops a container it has not saved: [docker stop]
    is only tried after [docker commit] has exited with code 0.  When the
    commit exits with another code, or with none, [pause] throws the
    retryable snapshot error and the container keeps running. *)
Theorem pause_stops_only_a_saved_container ssh now sessionId sandboxId :
  let p := Lifecycle.pause ssh now sessionId sandboxId in
  (Lifecycle.stopCommand sandboxId ∈ p.1 →
   ∃ result, ssh (Lifecycle.commitCommand sessionId sandboxId now) = Provider.Resolved result
             ∧ Provider.ssh_code result = Some 0)
  ∧ (∀ result,
       ssh (Lifecycle.commitCommand sessionId sandboxId now) = Provider.Resolved result →
       Provider.ssh_code result ≠ Some 0 →
       p.1 = [Lifecycle.commitCommand sessionId sandboxId now]
       ∧ ∃ e, p.2 = Lifecycle.Throws e ∧ Lifecycle.err_isRetryable e = true
              ∧ Lifecycle.err_operation e = "snapshot").
Proof.
  cbn zeta. unfold Lifecycle.pause, Lifecycle.snapshot. split.
  - destruct (ssh (Lifecycle.commitCommand _ _ _)) as [result|reason] eqn:Hcommit; simpl.
    + case_bool_decide as Hcode; simpl.
      * intros _. by exists result.
      * intros Hin%list_elem_of_singleton. by apply stop_is_not_commit in Hin.
    + intros Hin%list_elem_of_singleton. by apply stop_is_not_commit in Hin.
  - intros result -> Hcode. rewrite bool_decide_eq_false_2 by done. simpl.
    split; [done|]. by eexists.
Qed.

Lemma pause_stops_only_a_saved_container_witness :
  (Lifecycle.pause hostFails 1700000000000 "s1" "3f2a").1
  = ["docker commit 3f2a shadow-snapshot-s1-1700000000000"]
  ∧ ∃ e, (Lifecycle.pause hostFails 1700000000000 "s1" "3f2a").2 = Lifecycle.Throws e
         ∧ Lifecycle.err_isRetryable e = true ∧ Lifecycle.err_operation e = "snapshot".
Proof.
  apply (proj2 (pause_stops_only_a_saved_container hostFails 1700000000000 "s1" "3f2a")
           {| Provider.ssh_stdout := ""; Provider.ssh_stderr := "failed";
              Provider.ssh_code := Some 1 |}); [reflexivity|discriminate].
Defined.

(** X14.  [pause] does not look at what [docker stop] answers: once the
    commit has exited with code 0 and the stop command could be sent, it
    returns the snapshot id [shadow-snapshot-<sessionId>-<now>], whatever exit
    code the stop had, after exactly these two commands. *)
Theorem pause_returns_the_snapshot_whatever_stop_reports
    ssh now sessionId sandboxId committed stopped :
  ssh (Lifecycle.commitCommand sessionId sandboxId now) = Provider.Resolved committed →
  Provider.ssh_code committed = Some 0 →
  ssh (Lifecycle.stopCommand sandboxId) = Provider.Resolved stopped →
  Lifecycle.pause ssh now sessionId sandboxId
  = ([Lifecycle.commitCommand sessionId sandboxId now; Lifecycle.stopCommand sandboxId],
     Lifecycle.Returns ("shadow-snapshot-" +:+ sessionId +:+ "-" +:+ pretty now)).
Proof.
  intros Hcommit Hcode Hstop. unfold Lifecycle.pause, Lifecycle.snapshot.
  rewrite Hcommit, (bool_decide_eq_true_2 _ Hcode). simpl. by rewrite Hstop.
Qed.

Lemma pause_returns_the_snapshot_whatever_stop_reports_witness :
  Lifecycle.pause hostCommits 1700000000000 "s1" "3f2a"
  = (["docker commit 3f2a shadow-snapshot-s1-1700000000000"; "docker stop 3f2a"],
     Lifecycle.Returns "shadow-snapshot-s1-1700000000000").
Proof.
  apply (pause_returns_the_snapshot_whatever_stop_reports hostCommits 1700000000000
           "s1" "3f2a"
           {| Provider.ssh_stdout := ""; Provider.ssh_stderr := "";
              Provider.ssh_code := Some 0 |}
           {| Provider.ssh_stdout := ""; Provider.ssh_stderr := "";
              Provider.ssh_code := Some 1 |}); reflexivity.
Defined.

(** X15.  A service command that fails does not end the test run: when the
    host can be reached for every command, [testServiceCommands] resolves to
    one entry per command, in order, each with the command's name and
    working directory and the exit code of its own run, a missing exit code
    being reported as -1. *)
Theorem testServiceCommands_reports_every_command
    ssh shellEscape capOutput sandboxId commands timeoutMs :
  (∀ cmd, cmd ∈ commands →
     ∃ result,
       ssh (Provider.execCommandLine shellEscape sandboxId
              (Provider.split " " (Lifecycle.cmd_command cmd))
              (Lifecycle.serviceExecOpts cmd timeoutMs))
       = Provider.Resolved result) →
  ∃ entries,
    Lifecycle.testServiceCommands ssh shellEscape capOutput sandboxId commands timeoutMs
    = Provider.Resolved entries
    ∧ Forall2
        (λ cmd entry,
           Lifecycle.entry_name entry = Lifecycle.cmd_name cmd
           ∧ Lifecycle.entry_cwd entry = Lifecycle.cmd_cwd cmd
           ∧ ∃ result,
               ssh (Provider.execCommandLine shellEscape sandboxId
                      (Provider.split " " (Lifecycle.cmd_command cmd))
                      (Lifecycle.serviceExecOpts cmd timeoutMs))
               = Provider.Resolved result
               ∧ Lifecycle.entry_exitCode entry = default (-1) (Provider.ssh_code result))
        commands entries.
Proof.
  induction commands as [|cmd rest IH]; intros Hreach; simpl.
  - exists []. split; [done|constructor].
  - destruct (Hreach cmd) as [result Hcmd]; [by left|].
    destruct IH as (entries & -> & Hall); [intros c Hc; apply Hreach; by right|].
    unfold Provider.execCommand. rewrite Hcmd. simpl. eexists. split; [done|].
    constructor; [|done]. simpl. split; [done|]. split; [done|]. by exists result.
Qed.

Lemma testServiceCommands_reports_every_command_witness :
  ∃ entries,
    Lifecycle.testServiceCommands hostFails id (λ out _, out) "3f2a" serviceCommands 5000
    = Provider.Resolved entries
    ∧ Forall2
        (λ cmd entry,
           Lifecycle.entry_name entry = Lifecycle.cmd_name cmd
           ∧ Lifecycle.entry_cwd entry = Lifecycle.cmd_cwd cmd
           ∧ ∃ result,
               hostFails (Provider.execCommandLine id "3f2a"
                            (Provider.split " " (Lifecycle.cmd_command cmd))
                            (Lifecycle.serviceExecOpts cmd 5000))
               = Provider.Resolved result
               ∧ Lifecycle.entry_exitCode entry = default (-1) (Provider.ssh_code result))
        serviceCommands entries.
Proof.
  apply (testServiceCommands_reports_every_command hostFails id (λ out _, out) "3f2a"
           serviceCommands 5000).
  intros cmd _. by eexists.
Defined.

(** ** Credential-helper keys *)

Lemma noSpace_app s t : noSpace (s +:+ t) = noSpace s && noSpace t.
Proof.
  induction s as [|c s IH]; [by rewrite string_app_nil_l|].
  rewrite string_app_cons. simpl. rewrite IH. by destruct (Provider.isSpace c).
Qed.

Lemma string_app_assoc (s t u : string) : s +:+ (t +:+ u) = (s +:+ t) +:+ u.
Proof.
  induction s as [|c s IH]; [by rewrite !string_app_nil_l|].
  rewrite !string_app_cons. by rewrite IH.
Qed.

Lemma trim_noSpace s : noSpace s = true → Provider.trim s = s.
Proof.
  intros Hs. unfold Provider.trim. rewrite trimStart_noSpace by done.
  by apply trimEnd_noSpace.
Qed.

Lemma string_length_app (s t : string) :
  String.length (s +:+ t) = (String.length s + String.length t)%nat.
Proof.
  induction s as [|c s IH]; [by rewrite string_app_nil_l|].
  rewrite string_app_cons. simpl. by rewrite IH.
Qed.

Lemma dropTrailingSlashes_kept s :
  Credentials.endsWith s "/" = false → Credentials.dropTrailingSlashes s = s.
Proof.
  induction s as [|c s IH]; [done|]. simpl. intros [Hc Hs]%orb_false_elim.
  rewrite (IH Hs). destruct s; simpl; [|done].
  destruct (bool_decide (c = "/"%char)) eqn:Hslash; [|done].
  apply bool_decide_eq_true in Hslash. subst c. done.
Qed.

Lemma dropTrailingSlashes_app_slash s :
  Credentials.dropTrailingSlashes (s +:+ "/") = Credentials.dropTrailingSlashes s.
Proof.
  induction s as [|c s IH]; [done|]. rewrite string_app_cons. simpl. by rewrite IH.
Qed.

Lemma dropTrailingSlashes_app_solid s t :
  Credentials.dropTrailingSlashes t ≠ "" →
  Credentials.dropTrailingSlashes (s +:+ t) = s +:+ Credentials.dropTrailingSlashes t.
Proof.
  intros Ht. induction s as [|c s IH]; [by rewrite !string_app_nil_l|].
  rewrite !string_app_cons. simpl. rewrite IH.
  destruct (s +:+ Credentials.dropTrailingSlashes t) eqn:Heq; [|done].
  destruct s; [by rewrite string_app_nil_l in Heq|].
  by rewrite string_app_cons in Heq.
Qed.

Lemma dropGitSuffix_app s : Credentials.dropGitSuffix (s +:+ ".git") = s.
Proof.
  induction s as [|c s IH]; [done|]. rewrite string_app_cons. simpl.
  rewrite bool_decide_eq_false_2; [by rewrite IH|].
  intros Heq%(f_equal String.length). simpl in Heq.
  rewrite string_length_app in Heq. simpl in Heq. lia.
Qed.

Lemma dropGitSuffix_kept s :
  Credentials.endsWith s ".git" = false → Credentials.dropGitSuffix s = s.
Proof.
  induction s as [|c s IH]; [done|]. simpl. intros [Hc Hs]%orb_false_elim.
  by rewrite Hc, (IH Hs).
Qed.

Lemma endsWith_app_slash s : Credentials.endsWith (s +:+ ".git") "/" = false.
Proof.
  induction s as [|c s IH]; [done|]. rewrite string_app_cons. simpl. rewrite IH.
  rewrite bool_decide_eq_false_2; [done|].
  intros Heq%(f_equal String.length). simpl in Heq.
  rewrite string_length_app in Heq. simpl in Heq. lia.
Qed.

(** The keys added for any of the four forms of a bare URL include all four
    forms. *)
Lemma variants_forms base url :
  Credentials.bare base → url ∈ Credentials.forms base →
  Credentials.variants url
  = [url; base; base; base +:+ ".git"; base +:+ "/"; (base +:+ ".git") +:+ "/"]
    ∨ Credentials.variants url
      = [url; base +:+ ".git"; base; base +:+ ".git"; base +:+ "/";
         (base +:+ ".git") +:+ "/"].
Proof.
  intros (Hne & Hproto & Hns & Hascii & Hslash & Hgit) Hurl. unfold Credentials.variants.
  unfold Credentials.forms in Hurl.
  rewrite !elem_of_cons, elem_of_nil in Hurl.
  destruct Hurl as [-> | [-> | [-> | [-> | []]]]].
  - left. rewrite dropTrailingSlashes_kept, dropGitSuffix_kept, Hgit by done. done.
  - left. rewrite dropTrailingSlashes_app_slash, dropTrailingSlashes_kept,
      dropGitSuffix_kept, Hgit by done. done.
  - right. rewrite dropTrailingSlashes_kept by apply endsWith_app_slash.
    by rewrite dropGitSuffix_app, Hgit.
  - right.
    change (base +:+ ".git/") with (base +:+ (".git" +:+ "/")).
    rewrite string_app_assoc, dropTrailingSlashes_app_slash.
    rewrite dropTrailingSlashes_kept by apply endsWith_app_slash.
    by rewrite dropGitSuffix_app, Hgit.
Qed.

Lemma addCredentialVariant_lookup target url tok key :
  Credentials.addCredentialVariant target url tok !! key
  = if bool_decide (key = url) && Js.truthy url && negb (bool_decide (url = "__proto__"))
    then Some tok else target !! key.
Proof.
  unfold Credentials.addCredentialVariant.
  destruct (Js.truthy url); simpl; [|by rewrite andb_false_r].
  case_bool_decide as Hproto; simpl; [by rewrite andb_false_r|].
  rewrite andb_true_r. case_bool_decide as Hkey.
  - subst. by rewrite lookup_insert_eq.
  - by rewrite lookup_insert_ne.
Qed.

Lemma addVariants_lookup target urls tok key :
  foldl (λ target url, Credentials.addCredentialVariant target url tok) target urls !! key
  = if bool_decide (key ∈ urls) && Js.truthy key && negb (bool_decide (key = "__proto__"))
    then Some tok else target !! key.
Proof.
  induction urls as [|url urls IH] using rev_ind.
  - done.
  - rewrite foldl_app. simpl. rewrite addCredentialVariant_lookup, IH.
    destruct (decide (key = url)) as [->|Hne].
    + rewrite (bool_decide_eq_true_2 (url = url)) by done.
      rewrite (bool_decide_eq_true_2 (url ∈ urls ++ [url]))
        by (apply elem_of_app; right; by left).
      simpl.
      by destruct (Js.truthy url), (bool_decide (url = "__proto__")),
           (bool_decide (url ∈ urls)).
    + rewrite (bool_decide_eq_false_2 (key = url)) by done. simpl.
      destruct (decide (key ∈ urls)) as [Hin|Hnin].
      * rewrite (bool_decide_eq_true_2 (key ∈ urls)) by done.
        by rewrite (bool_decide_eq_true_2 (key ∈ urls ++ [url]))
          by (apply elem_of_app; by left).
      * rewrite (bool_decide_eq_false_2 (key ∈ urls)) by done.
        rewrite (bool_decide_eq_false_2 (key ∈ urls ++ [url])); [done|].
        rewrite elem_of_app, list_elem_of_singleton. tauto.
Qed.

Lemma buildGitCredentialsMap_snoc repos repo :
  Credentials.buildGitCredentialsMap (repos ++ [repo])
  = Credentials.addRepo (Credentials.buildGitCredentialsMap repos) repo.
Proof. unfold Credentials.buildGitCredentialsMap. by rewrite foldl_app. Qed.

Lemma forms_plain base key :
  Credentials.bare base → key ∈ Credentials.forms base →
  Js.truthy key = true ∧ key ≠ "__proto__" ∧ noSpace key = true.
Proof.
  intros (Hne & Hproto & Hns & Hascii & Hslash & Hgit) Hkey. unfold Credentials.forms in Hkey.
  rewrite !elem_of_cons, elem_of_nil in Hkey.
  assert (∀ sfx, sfx ≠ "" → Js.truthy (base +:+ sfx) = true) as Htruthy.
  { intros sfx Hsfx. apply truthy_ne. destruct base; [done|]. by rewrite string_app_cons. }
  assert (∀ sfx, Credentials.endsWith "__proto__" sfx = false → sfx ≠ "" →
                 base +:+ sfx ≠ "__proto__") as Hnot.
  { intros sfx Hends Hsfx Heq. clear -Hends Heq.
    assert (∀ s, Credentials.endsWith (s +:+ sfx) sfx = true) as Hend.
    { induction s as [|c s IH];
        [rewrite string_app_nil_l; destruct sfx; simpl;
         [done|by rewrite bool_decide_eq_true_2]|].
      rewrite string_app_cons. simpl. rewrite IH. by destruct (bool_decide _). }
    specialize (Hend base). rewrite Heq in Hend. congruence. }
  destruct Hkey as [-> | [-> | [-> | [-> | []]]]].
  - split; [by apply truthy_ne|done].
  - split; [by apply Htruthy|]. split; [by apply Hnot|]. by rewrite noSpace_app, Hns.
  - split; [by apply Htruthy|]. split; [by apply Hnot|]. by rewrite noSpace_app, Hns.
  - split; [by apply Htruthy|]. split; [by apply Hnot|]. by rewrite noSpace_app, Hns.
Qed.

(** X16.  Whichever of the four common forms of a repository URL a repo is
    configured with (bare, trailing slash, [.git], [.git] and slash), the
    credentials map answers all four forms with that repo's token; a repo
    listed later overwrites what earlier repos registered for these keys. *)
Theorem credentials_cover_every_form_of_the_url before base url key tok path :
  Credentials.bare base → tok ≠ "" →
  url ∈ Credentials.forms base → key ∈ Credentials.forms base →
  Credentials.buildGitCredentialsMap
    (before ++ [{| Credentials.repoUrl := url; Credentials.token := Some tok;
                   Credentials.workspacePath := path |}]) !! key
  = Some tok.
Proof.
  intros Hbare Htok Hurl Hkey. rewrite buildGitCredentialsMap_snoc.
  unfold Credentials.addRepo. cbn [Credentials.token Credentials.repoUrl].
  rewrite (truthy_ne _ Htok). cbn [negb].
  destruct (forms_plain _ _ Hbare Hurl) as (Hu1 & Hu2 & Hu3).
  destruct (forms_plain _ _ Hbare Hkey) as (Hk1 & Hk2 & Hk3).
  rewrite trim_noSpace, Hu1 by done. cbn [negb].
  rewrite addVariants_lookup, Hk1, (bool_decide_eq_false_2 _ Hk2), bool_decide_eq_true_2;
    [done|].
  unfold Credentials.forms in Hkey. rewrite !elem_of_cons, elem_of_nil in Hkey.
  destruct (variants_forms _ _ Hbare Hurl) as [-> | ->];
    rewrite !elem_of_cons; rewrite <- ?string_app_assoc;
    destruct Hkey as [-> | [-> | [-> | [-> | []]]]]; simpl; tauto.
Qed.

Lemma credentials_cover_every_form_of_the_url_witness :
  Credentials.buildGitCredentialsMap
    ([{| Credentials.repoUrl := "https://github.com/acme/app";
         Credentials.token := Some "ghs_old"; Credentials.workspacePath := "." |}]
     ++ [{| Credentials.repoUrl := "https://github.com/acme/app.git/";
            Credentials.token := Some "ghs_new"; Credentials.workspacePath := "app" |}])
  !! "https://github.com/acme/app" = Some "ghs_new".
Proof.
  apply (credentials_cover_every_form_of_the_url
           [{| Credentials.repoUrl := "https://github.com/acme/app";
               Credentials.token := Some "ghs_old"; Credentials.workspacePath := "." |}]
           "https://github.com/acme/app" "https://github.com/acme/app.git/"
           "https://github.com/acme/app" "ghs_new" "app").
  - repeat split; done.
  - discriminate.
  - unfold Credentials.forms. rewrite !elem_of_cons. tauto.
  - by left.
Defined.

(** X17.  For repos whose URLs consist of 7-bit characters, the
    credentials map holds nothing that the repos do not give: every entry
    maps a non-empty key, one of the six keys computed from the trimmed URL
    of some repo, to the non-empty token of that repo.  Repos without a
    token, or with a blank URL, contribute no entry. *)
Theorem credentials_come_from_the_repos repos key value :
  Forall (λ repo, asciiOnly (Credentials.repoUrl repo) = true) repos →
  Credentials.buildGitCredentialsMap repos !! key = Some value →
  key ≠ ""
  ∧ ∃ repo, repo ∈ repos ∧ Credentials.token repo = Some value ∧ value ≠ ""
            ∧ Provider.trim (Credentials.repoUrl repo) ≠ ""
            ∧ key ∈ Credentials.variants (Provider.trim (Credentials.repoUrl repo)).
Proof.
  intros _. revert value. induction repos as [|repo repos IH] using rev_ind; intros value.
  - unfold Credentials.buildGitCredentialsMap. simpl. by rewrite lookup_empty.
  - rewrite buildGitCredentialsMap_snoc.
    assert (Credentials.buildGitCredentialsMap repos !! key = Some value →
            key ≠ ""
            ∧ ∃ repo', repo' ∈ repos ++ [repo] ∧ Credentials.token repo' = Some value
                       ∧ value ≠ ""
                       ∧ Provider.trim (Credentials.repoUrl repo') ≠ ""
                       ∧ key ∈ Credentials.variants
                                 (Provider.trim (Credentials.repoUrl repo'))) as Hold.
    { intros Hin. destruct (IH _ Hin) as (Hkey & repo' & Hrepo' & Hrest).
      split; [done|]. exists repo'. split; [|done]. apply elem_of_app. by left. }
    unfold Credentials.addRepo.
    destruct (Credentials.token repo) as [tok|] eqn:Htok; [|done].
    destruct (Js.truthy tok) eqn:Htruthy; cbn [negb]; [|done].
    destruct (Js.truthy (Provider.trim (Credentials.repoUrl repo))) eqn:Hraw; cbn [negb];
      [|done].
    rewrite addVariants_lookup.
    destruct (bool_decide (key ∈ _)) eqn:Hin; simpl; [|done].
    destruct (Js.truthy key) eqn:Hkey; simpl; [|done].
    destruct (bool_decide (key = "__proto__")); simpl; [done|].
    intros [= <-]. split; [by intros ->|].
    exists repo. split; [apply elem_of_app; right; by left|]. split; [done|].
    split; [by intros ->|]. split; [by intros Heq; rewrite Heq in Hraw|].
    by apply bool_decide_eq_true in Hin.
Qed.

Lemma credentials_come_from_the_repos_witness :
  "https://github.com/acme/app/" ≠ ""
  ∧ ∃ repo,
      repo ∈ [{| Credentials.repoUrl := "  https://github.com/acme/app ";
                 Credentials.token := Some "ghs_1"; Credentials.workspacePath := "." |};
              {| Credentials.repoUrl := "https://github.com/acme/docs";
                 Credentials.token := None; Credentials.workspacePath := "docs" |}]
      ∧ Credentials.token repo = Some "ghs_1" ∧ "ghs_1" ≠ ""
      ∧ Provider.trim (Credentials.repoUrl repo) ≠ ""
      ∧ "https://github.com/acme/app/"
        ∈ Credentials.variants (Provider.trim (Credentials.repoUrl repo)).
Proof.
  apply (credentials_come_from_the_repos
           [{| Credentials.repoUrl := "  https://github.com/acme/app ";
               Credentials.token := Some "ghs_1"; Credentials.workspacePath := "." |};
            {| Credentials.repoUrl := "https://github.com/acme/docs";
               Credentials.token := None; Credentials.workspacePath := "docs" |}]
           "https://github.com/acme/app/" "ghs_1").
  - by repeat constructor.
  - vm_compute. reflexivity.
Defined.

(** ** Git operations: tokens *)

Lemma truthyToken_spec repo tok :
  GitOps.truthyToken repo = Some tok ↔ Credentials.token repo = Some tok ∧ tok ≠ "".
Proof.
  unfold GitOps.truthyToken. destruct (Credentials.token repo) as [t|]; [|naive_solver].
  unfold Js.truthy. case_bool_decide; naive_solver.
Qed.

Lemma truthyToken_hasToken repo :
  GitOps.hasToken repo = true → ∃ tok, GitOps.truthyToken repo = Some tok.
Proof.
  unfold GitOps.hasToken, GitOps.truthyToken.
  destruct (Credentials.token repo) as [t|]; simpl; [|done]. intros ->. by exists t.
Qed.

Lemma find_truthyToken f repos tok :
  List.find f repos ≫= GitOps.truthyToken = Some tok →
  tok ≠ "" ∧ ∃ repo, repo ∈ repos ∧ Credentials.token repo = Some tok.
Proof.
  destruct (List.find f repos) as [repo|] eqn:Hfind; simpl; [|done].
  intros [Htok Hne]%truthyToken_spec. split; [done|]. exists repo. split; [|done].
  apply List.find_some in Hfind as [Hin _]. by apply list_elem_of_In.
Qed.

Lemma getWorkspaceToken_some repos workspacePath tok :
  GitOps.getWorkspaceToken repos workspacePath = Some tok →
  tok ≠ "" ∧ ∃ repo, repo ∈ repos ∧ Credentials.token repo = Some tok.
Proof.
  unfold GitOps.getWorkspaceToken. case_bool_decide as Hlen; [done|].
  set (exact := match workspacePath with Some _ => _ | None => _ end).
  assert (∀ t, exact = Some t →
               t ≠ "" ∧ ∃ repo, repo ∈ repos ∧ Credentials.token repo = Some t) as Hexact.
  { unfold exact. destruct workspacePath as [wp|]; [|done].
    destruct (_ && _); [|done]. apply find_truthyToken. }
  destruct exact as [t|]; [intros [= <-]; by apply Hexact|].
  set (single := if bool_decide _ then _ else _).
  assert (∀ t, single = Some t →
               t ≠ "" ∧ ∃ repo, repo ∈ repos ∧ Credentials.token repo = Some t) as Hsingle.
  { unfold single. case_bool_decide; [|done]. destruct repos as [|repo rest]; [done|].
    simpl. intros t [Htok Hne]%truthyToken_spec. split; [done|].
    exists repo. split; [by left|done]. }
  destruct single as [t|]; [intros [= <-]; by apply Hsingle|].
  destruct (List.find _ repos ≫= GitOps.truthyToken) as [t|] eqn:Hroot.
  - intros [= <-]. by apply find_truthyToken in Hroot.
  - apply find_truthyToken.
Qed.

Lemma getWorkspaceToken_none repos workspacePath :
  GitOps.getWorkspaceToken repos workspacePath = None ↔
  ∀ repo, repo ∈ repos → GitOps.hasToken repo = false.
Proof.
  unfold GitOps.getWorkspaceToken. split.
  - case_bool_decide as Hlen.
    { intros _ repo Hin. destruct repos; [by apply elem_of_nil in Hin|done]. }
    destruct (match workspacePath with Some _ => _ | None => _ end); [done|].
    destruct (if bool_decide _ then _ else _); [done|].
    destruct (List.find _ repos ≫= GitOps.truthyToken); [done|].
    destruct (List.find GitOps.hasToken repos) as [repo|] eqn:Hfind; simpl.
    { apply List.find_some in Hfind as [_ Hhas].
      apply truthyToken_hasToken in Hhas as [tok ->]. done. }
    intros _ repo Hin%list_elem_of_In.
    by apply (List.find_none _ _ Hfind).
  - intros Hnone.
    assert (∀ f, List.find f repos ≫= GitOps.truthyToken = None) as Hfind.
    { intros f. destruct (List.find f repos) as [repo|] eqn:Hf; [|done]. simpl.
      apply List.find_some in Hf as [Hin%list_elem_of_In _].
      specialize (Hnone _ Hin). unfold GitOps.hasToken, GitOps.truthyToken in *.
      destruct (Credentials.token repo); simpl in *; [by rewrite Hnone|done]. }
    case_bool_decide; [done|].
    assert (match workspacePath with
            | Some wp =>
                if Js.truthy wp && negb (bool_decide (wp = "."))
                then List.find (λ repo, bool_decide (Credentials.workspacePath repo = wp))
                       repos ≫= GitOps.truthyToken
                else None
            | None => None
            end = None) as ->.
    { destruct workspacePath; [|done]. by destruct (_ && _). }
    assert ((if bool_decide (length repos = 1%nat)
             then head repos ≫= GitOps.truthyToken else None) = None) as ->.
    { case_bool_decide; [|done]. destruct repos as [|repo rest]; [done|]. simpl.
      specialize (Hnone repo ltac:(by left)).
      unfold GitOps.hasToken, GitOps.truthyToken in *.
      destruct (Credentials.token repo); simpl in *; [by rewrite Hnone|done]. }
    by rewrite !Hfind.
Qed.

(** X18.  The token [getWorkspaceToken] picks for git and gh is never empty
    and is the token of one of the configured repos; it finds none exactly
    when no repo has a token, whatever workspace path is asked for. *)
Theorem workspace_token_is_the_token_of_a_repo repos workspacePath :
  (∀ tok, GitOps.getWorkspaceToken repos workspacePath = Some tok →
          tok ≠ "" ∧ ∃ repo, repo ∈ repos ∧ Credentials.token repo = Some tok)
  ∧ (GitOps.getWorkspaceToken repos workspacePath = None ↔
     ∀ repo, repo ∈ repos → GitOps.hasToken repo = false).
Proof.
  split; [intros tok; apply getWorkspaceToken_some|apply getWorkspaceToken_none].
Qed.

(** ** Git operations: what is run, and when *)

Import GitOps.

(** Case analysis on everything an unfolded method branches on. *)
Ltac branch_in H :=
  repeat (match type of H with
          | context [match ?x with _ => _ end] =>
              lazymatch x with
              | context [match _ with _ => _ end] => fail
              | _ => destruct x eqn:?
              end
          end; cbn beta iota zeta in H; try discriminate H).

Ltac unfold_method H :=
  unfold commit, push, createPr, createBranch, determinePushArgs,
    refreshGitCredentialsFile, ignoringErrors, pushOutcome, bind, lift, exec, ret, throw,
    failure, succeeded in H;
  cbn beta iota zeta in H.

Ltac normalise_logs :=
  repeat match goal with
         | H : context [(_ ++ _) ++ _] |- _ => rewrite <- (assoc_L (++)) in H; simpl in H
         end;
  rewrite <- ?(assoc_L (++)); simpl.

(** X19.  [commit] reports success only after [git add] exited with code 0,
    [git diff --cached --quiet] found staged changes (exit code 1; a
    negative code, which stands for a check that did not exit, is taken
    for the same) and [git commit] exited with code 0; these three calls, in
    the resolved directory and with the non-interactive environment, are then
    all it ran. *)
Theorem commit_succeeds_only_with_staged_changes
    provider identity WORKSPACE_DIR pathResolve message includeUntracked files
    workspacePath log result log' :
  commit provider identity WORKSPACE_DIR pathResolve message includeUntracked files
    workspacePath log = (Provider.Resolved result, log') →
  success result = true →
  ∃ execCommand cwd added diffed committed,
    let call argv timeoutMs :=
      {| call_argv := argv; call_cwd := Some cwd; call_timeoutMs := timeoutMs;
         call_env := getMutableEnv identity |} in
    let add := call (addArgv includeUntracked files) 15000 in
    let diff := call ["git"; "diff"; "--cached"; "--quiet"] 10000 in
    let com := call ["git"; "commit"; "-m"; message] 30000 in
    provider = Some execCommand
    ∧ resolveGitDir WORKSPACE_DIR pathResolve workspacePath = Provider.Resolved cwd
    ∧ log' = log ++ [add; diff; com]
    ∧ execCommand log add = Provider.Resolved added ∧ Provider.exitCode added = 0
    ∧ execCommand (log ++ [add]) diff = Provider.Resolved diffed
    ∧ (Provider.exitCode diffed = 1 ∨ Provider.exitCode diffed < 0)
    ∧ execCommand (log ++ [add; diff]) com = Provider.Resolved committed
    ∧ Provider.exitCode committed = 0
    ∧ result = succeeded "Changes committed" None.
Proof.
  intros Hrun Hok. unfold_method Hrun.
  destruct (resolveGitDir _ _ _) as [cwd|] eqn:Hdir; [|discriminate].
  destruct provider as [execCommand|]; [|discriminate].
  cbn beta iota zeta in Hrun.
  branch_in Hrun; simplify_eq/=.
  exists execCommand, cwd. do 3 eexists. cbn zeta.
  repeat match goal with H : negb _ = false |- _ => apply negb_false_iff in H end.
  repeat match goal with H : bool_decide _ = _ |- _ =>
           first [apply bool_decide_eq_true in H | apply bool_decide_eq_false in H] end.
  normalise_logs.
  repeat split; try eassumption; try done. lia.
Qed.

Lemma commit_succeeds_only_with_staged_changes_witness :
  ∃ execCommand cwd,
    Some (scripted [(0, ""); (1, ""); (0, "")]) = Some execCommand
    ∧ resolveGitDir "/home/user/workspace" joinPath (Some "app") = Provider.Resolved cwd.
Proof.
  destruct (commit_succeeds_only_with_staged_changes
              (Some (scripted [(0, ""); (1, ""); (0, "")])) sampleIdentity
              "/home/user/workspace" joinPath "feat: add login" false None (Some "app") []
              (succeeded "Changes committed" None)
              (let call argv timeoutMs :=
                 {| call_argv := argv; call_cwd := Some "/home/user/workspace/app";
                    call_timeoutMs := timeoutMs;
                    call_env := getMutableEnv sampleIdentity |} in
               [call ["git"; "add"; "-u"] 15000;
                call ["git"; "diff"; "--cached"; "--quiet"] 10000;
                call ["git"; "commit"; "-m"; "feat: add login"] 30000])
              eq_refl eq_refl)
    as (execCommand & cwd & _ & _ & _ & Hprovider & Hdir & _).
  by exists execCommand, cwd.
Defined.

(** X20.  With repos configured but no token among them, [push] gives up
    before touching the sandbox: it runs no command at all, not even the
    credential refresh, and reports [AUTH_FAILED] (or rejects, if the
    workspace path is invalid). *)
Theorem push_without_a_token_runs_no_command
    provider identity repos shellEscape encodeCredentials WORKSPACE_DIR pathResolve
    workspacePath log :
  repos ≠ [] → (∀ repo, repo ∈ repos → hasToken repo = false) →
  push provider identity repos shellEscape encodeCredentials WORKSPACE_DIR pathResolve
    workspacePath log
  = (match resolveGitDir WORKSPACE_DIR pathResolve workspacePath with
     | Provider.Resolved _ =>
         Provider.Resolved
           (failure AUTH_FAILED
              "No push-capable token available. Check that the GitHub App has write access to this repository.")
     | Provider.Rejected reason => Provider.Rejected reason
     end, log).
Proof.
  intros Hrepos Hnone. unfold push, bind, lift.
  destruct (resolveGitDir _ _ _) as [cwd|]; [|done].
  rewrite (proj2 (getWorkspaceToken_none repos workspacePath) Hnone).
  rewrite bool_decide_eq_false_2 by (by intros []).
  rewrite bool_decide_eq_true_2; [done|]. destruct repos; [done|simpl; lia].
Qed.

Lemma push_without_a_token_runs_no_command_witness :
  push (Some (scripted [])) sampleIdentity
    [{| Credentials.repoUrl := "https://github.com/acme/app";
        Credentials.token := None; Credentials.workspacePath := "." |}]
    id (λ _, "e30=") "/home/user/workspace" joinPath None []
  = (Provider.Resolved
       (failure AUTH_FAILED
          "No push-capable token available. Check that the GitHub App has write access to this repository."),
     []).
Proof.
  apply (push_without_a_token_runs_no_command (Some (scripted [])) sampleIdentity
           [{| Credentials.repoUrl := "https://github.com/acme/app";
               Credentials.token := None; Credentials.workspacePath := "." |}]
           id (λ _, "e30=") "/home/user/workspace" joinPath None []); [done|].
  intros repo Hin%list_elem_of_singleton. by subst.
Defined.

(** ** Git operations: where commands run *)

Lemma makes_ret {A} P (a : A) : makes P (ret a).
Proof. intros log. exists []. by rewrite app_nil_r. Qed.

Lemma makes_lift {A} P (p : Provider.Promise A) : makes P (lift p).
Proof. intros log. exists []. by rewrite app_nil_r. Qed.

Lemma makes_bind {A B} P (m : M A) (f : A → M B) :
  makes P m → (∀ a, makes P (f a)) → makes P (bind m f).
Proof.
  intros Hm Hf log. unfold bind. destruct (Hm log) as (calls & Hlog & Hcalls).
  destruct (m log) as [[a|reason] log1]; simpl in *; subst log1.
  - destruct (Hf a (log ++ calls)) as (calls' & -> & Hcalls').
    exists (calls ++ calls'). rewrite (assoc_L (++)). split; [done|].
    by apply Forall_app.
  - by exists calls.
Qed.

Lemma makes_ignoringErrors P (m : M unit) : makes P m → makes P (ignoringErrors m).
Proof.
  intros Hm log. unfold ignoringErrors. destruct (Hm log) as (calls & Hlog & Hcalls).
  exists calls. by destruct (m log) as [[] ?].
Qed.

Lemma makes_exec (P : Call → Prop) provider argv cwd timeoutMs env :
  P {| call_argv := argv; call_cwd := cwd; call_timeoutMs := timeoutMs; call_env := env |} →
  makes P (exec provider argv cwd timeoutMs env).
Proof.
  intros Hcall log. unfold exec. destruct provider as [execCommand|]; simpl.
  - eexists. split; [done|]. by constructor.
  - exists []. by rewrite app_nil_r.
Qed.

Ltac makes_step :=
  first
    [ apply makes_ret
    | apply makes_lift
    | apply makes_ignoringErrors
    | apply makes_bind; [|intros ?]
    | match goal with
      | |- makes _ (if ?b then _ else _) => destruct b
      | |- makes _ (match ?x with _ => _ end) => destruct x
      end ].

Lemma confined_call dir env argv timeoutMs more :
  confined dir env
    {| call_argv := argv; call_cwd := Some dir; call_timeoutMs := timeoutMs;
       call_env := env ++ more |}.
Proof.
  split; [by left|]. simpl. intros x Hx. apply elem_of_app. by left.
Qed.

Lemma confined_call_plain dir env argv timeoutMs :
  confined dir env
    {| call_argv := argv; call_cwd := Some dir; call_timeoutMs := timeoutMs;
       call_env := env |}.
Proof. split; [by left|done]. Qed.

Lemma confined_refresh dir env command timeoutMs :
  confined dir env
    {| call_argv := ["sh"; "-c"; command]; call_cwd := None; call_timeoutMs := timeoutMs;
       call_env := env |}.
Proof. split; [by right|done]. Qed.

Lemma makes_determinePushArgs provider identity dir branch :
  makes (confined dir (getMutableEnv identity))
    (determinePushArgs provider identity dir branch).
Proof.
  unfold determinePushArgs.
  repeat first [makes_step | apply makes_exec, confined_call_plain].
Qed.

Lemma bind_lift {A B} (a : A) (f : A → M B) : bind (lift (Provider.Resolved a)) f = f a.
Proof. reflexivity. Qed.

Lemma makes_throw {A} P reason : makes P (throw (A := A) reason).
Proof. intros log. exists []. by rewrite app_nil_r. Qed.

Ltac makes_confined :=
  repeat first
    [ apply makes_determinePushArgs
    | makes_step
    | apply makes_exec;
      first [apply confined_call_plain | apply confined_call | apply confined_refresh] ].

Lemma makes_push provider identity repos shellEscape encodeCredentials WORKSPACE_DIR
    pathResolve workspacePath dir :
  resolveGitDir WORKSPACE_DIR pathResolve workspacePath = Provider.Resolved dir →
  makes (confined dir (getMutableEnv identity))
    (push provider identity repos shellEscape encodeCredentials WORKSPACE_DIR pathResolve
       workspacePath).
Proof.
  intros Hdir. unfold push, refreshGitCredentialsFile. rewrite Hdir, bind_lift.
  makes_confined.
Qed.

Lemma determinePushArgs_error provider identity cwd branch log error log' :
  determinePushArgs provider identity cwd branch log = (Provider.Resolved (inr error), log') →
  success error = false.
Proof.
  intros Hrun. unfold_method Hrun. branch_in Hrun; by simplify_eq/=.
Qed.

(** X21.  With a provider that prints 7-bit characters, [push] reports
    success only in this way: after the credentials refresh it ran
    [git rev-parse --abbrev-ref HEAD] in the resolved directory, and the
    trimmed output of that command, the branch, is neither empty nor [HEAD]
    (a detached head is never pushed); [determinePushArgs] gave the
    arguments for that branch; and the last command was [git push] with
    these arguments, in the resolved directory and with the token
    variables, which exited with code 0, either at once or after one failed
    attempt followed by [git fetch --deepen 100].  The message names the
    branch. *)
Theorem push_succeeds_only_after_git_push_succeeded
    provider identity repos shellEscape encodeCredentials WORKSPACE_DIR pathResolve
    workspacePath log result log' :
  printsAscii provider →
  push provider identity repos shellEscape encodeCredentials WORKSPACE_DIR pathResolve
    workspacePath log = (Provider.Resolved result, log') →
  success result = true →
  ∃ execCommand cwd refresh branchResult args strategyCalls retried pushed,
    let commandEnv := getMutableEnv identity ++ getAuthEnv repos workspacePath in
    let branchCall :=
      {| call_argv := ["git"; "rev-parse"; "--abbrev-ref"; "HEAD"]; call_cwd := Some cwd;
         call_timeoutMs := 10000; call_env := commandEnv |} in
    let branch := Provider.trim (Provider.stdout branchResult) in
    let call :=
      {| call_argv := ["git"; "push"] ++ args; call_cwd := Some cwd;
         call_timeoutMs := 60000; call_env := commandEnv |} in
    let fetch :=
      {| call_argv := ["git"; "fetch"; "--deepen"; "100"]; call_cwd := Some cwd;
         call_timeoutMs := 30000; call_env := commandEnv |} in
    let asked := log ++ [refresh; branchCall] in
    provider = Some execCommand
    ∧ resolveGitDir WORKSPACE_DIR pathResolve workspacePath = Provider.Resolved cwd
    ∧ execCommand (log ++ [refresh]) branchCall = Provider.Resolved branchResult
    ∧ branch ≠ "" ∧ branch ≠ "HEAD"
    ∧ determinePushArgs provider identity cwd branch asked
      = (Provider.Resolved (inl args), asked ++ strategyCalls)
    ∧ (retried = [] ∨ retried = [call; fetch])
    ∧ log' = (asked ++ strategyCalls ++ retried) ++ [call]
    ∧ execCommand (asked ++ strategyCalls ++ retried) call = Provider.Resolved pushed
    ∧ Provider.exitCode pushed = 0
    ∧ result = succeeded ("Pushed to " +:+ branch) None.
Proof.
  intros _ Hrun Hok.
  unfold push, refreshGitCredentialsFile, ignoringErrors, pushOutcome, bind, lift, exec,
    ret, throw, failure, succeeded in Hrun.
  cbn beta iota zeta in Hrun.
  destruct (resolveGitDir _ _ _) as [cwd|] eqn:Hdir; [|discriminate].
  cbn beta iota zeta in Hrun.
  destruct (negb _ && _); [by simplify_eq/=|].
  destruct provider as [execCommand|]; [|discriminate].
  cbn beta iota zeta in Hrun.
  set (env := getMutableEnv identity ++ getAuthEnv repos workspacePath) in *.
  branch_in Hrun; simplify_eq/=;
    repeat match goal with H : negb _ = false |- _ => apply negb_false_iff in H end;
    repeat match goal with H : _ || _ = false |- _ => apply orb_false_elim in H as [? ?] end;
    repeat match goal with H : negb _ = false |- _ => apply negb_false_iff in H end;
    repeat match goal with H : bool_decide _ = _ |- _ =>
             first [apply bool_decide_eq_true in H | apply bool_decide_eq_false in H] end;
    try match goal with
        | Herror : determinePushArgs _ _ _ _ _ = (Provider.Resolved (inr ?e), _),
          Hok : success ?e = true |- _ =>
            rewrite (determinePushArgs_error _ _ _ _ _ _ _ Herror) in Hok; discriminate Hok
        end;
    match goal with
    | Hbranch : execCommand (log ++ [?refresh])
                  (Build_Call ["git"; "rev-parse"; "--abbrev-ref"; "HEAD"] _ _ _)
                = Provider.Resolved ?b,
      Hstrategy : determinePushArgs _ _ _ _ ?asked = (Provider.Resolved (inl ?args), ?l)
      |- _ =>
        let calls := fresh "calls" in
        let Hcalls := fresh "Hcalls" in
        destruct (makes_determinePushArgs (Some execCommand) identity cwd
                    (Provider.trim (Provider.stdout b)) asked) as (calls & Hcalls & _);
        rewrite Hstrategy in Hcalls; simpl in Hcalls; subst l;
        exists execCommand, cwd, refresh, b, args, calls
    end;
    match goal with
    | Hpush : execCommand ?before (Build_Call ("git" :: "push" :: ?pushed) _ _ _)
              = Provider.Resolved ?r,
      Hcode : Provider.exitCode ?r = 0 |- _ =>
        first
          [ exists [], r; cbn zeta; rewrite ?app_nil_r;
            rewrite <- ?(assoc_L (++)) in *; simpl in *;
            solve [split_and!; try done; try (by left);
                   by intros Hempty; rewrite Hempty in *]
          | exists [{| call_argv := ["git"; "push"] ++ pushed; call_cwd := Some cwd;
                       call_timeoutMs := 60000; call_env := env |};
                    {| call_argv := ["git"; "fetch"; "--deepen"; "100"];
                       call_cwd := Some cwd; call_timeoutMs := 30000;
                       call_env := env |}], r;
            cbn zeta; rewrite <- ?(assoc_L (++)) in *; simpl in *;
            solve [split_and!; try done; try (by right);
                   by intros Hempty; rewrite Hempty in *] ]
    end.
Qed.

Lemma scripted_printsAscii answers :
  Forall (λ answer, asciiOnly answer.2 = true) answers →
  printsAscii (Some (scripted answers)).
Proof.
  intros Hall execCommand log call r [= <-]. unfold scripted.
  destruct (answers !! length log) as [[code out]|] eqn:Hanswer; [|done].
  intros [= <-]. simpl.
  by apply (Forall_lookup_1 _ _ _ _ Hall Hanswer).
Qed.

Lemma push_succeeds_only_after_git_push_succeeded_witness :
  ∃ execCommand cwd branchResult,
    Some (scripted [(0, ""); (0, "main"); (0, "origin/main"); (0, "")]) = Some execCommand
    ∧ resolveGitDir "/home/user/workspace" joinPath (Some "docs") = Provider.Resolved cwd
    ∧ Provider.trim (Provider.stdout branchResult) ≠ "HEAD"
    ∧ succeeded "Pushed to main" None
      = succeeded ("Pushed to " +:+ Provider.trim (Provider.stdout branchResult)) None.
Proof.
  destruct (push_succeeds_only_after_git_push_succeeded
              (Some (scripted [(0, ""); (0, "main"); (0, "origin/main"); (0, "")]))
              sampleIdentity sampleRepos id (λ _, "e30=") "/home/user/workspace" joinPath
              (Some "docs") []
              (succeeded "Pushed to main" None)
              (push (Some (scripted [(0, ""); (0, "main"); (0, "origin/main"); (0, "")]))
                 sampleIdentity sampleRepos id (λ _, "e30=") "/home/user/workspace"
                 joinPath (Some "docs") []).2)
    as (execCommand & cwd & refresh & branchResult & args & strategyCalls & retried
        & pushed & Hprovider & Hdir & _ & _ & Hhead & _ & _ & _ & _ & _ & Hresult);
    [apply scripted_printsAscii; by repeat constructor|by vm_compute|reflexivity|].
  by exists execCommand, cwd, branchResult.
Defined.

(** X22.  Every command that [createBranch], [commit], [push] and [createPr]
    run goes to the directory [resolveGitDir] gave for the workspace path,
    which is the workspace directory or lies below it, and carries the
    non-interactive git environment together with the author and committer
    variables of the git identity; the one exception is the shell command that
    refreshes the credentials file, which runs in no directory.  No method
    drops a call that was made before. *)
Theorem git_commands_run_in_the_workspace
    provider identity repos shellEscape encodeCredentials WORKSPACE_DIR pathResolve
    workspacePath dir :
  resolveGitDir WORKSPACE_DIR pathResolve workspacePath = Provider.Resolved dir →
  let inside := confined dir (GIT_BASE_ENV ++ getGitIdentityEnv identity) in
  (dir = WORKSPACE_DIR ∨ Js.startsWith dir (WORKSPACE_DIR +:+ "/") = true)
  ∧ (∀ name,
       makes inside (createBranch provider identity WORKSPACE_DIR pathResolve name
                       workspacePath))
  ∧ (∀ message includeUntracked files,
       makes inside (commit provider identity WORKSPACE_DIR pathResolve message
                       includeUntracked files workspacePath))
  ∧ makes inside (push provider identity repos shellEscape encodeCredentials
                    WORKSPACE_DIR pathResolve workspacePath)
  ∧ (∀ title body baseBranch,
       makes inside (createPr provider identity repos shellEscape encodeCredentials
                       WORKSPACE_DIR pathResolve title body baseBranch workspacePath)).
Proof.
  intros Hdir. cbn zeta. fold (getMutableEnv identity). split; [|split_and!].
  - unfold resolveGitDir in Hdir. destruct workspacePath as [wp|]; [|left; congruence].
    destruct (_ || _); [left; congruence|].
    destruct (negb (Js.startsWith _ _)) eqn:Hstarts; simpl in Hdir.
    + case_bool_decide as Heq; simpl in Hdir; [|done]. left. congruence.
    + right. apply negb_false_iff in Hstarts. congruence.
  - intros name. unfold createBranch. rewrite Hdir, bind_lift. makes_confined.
  - intros message includeUntracked files. unfold commit. rewrite Hdir, bind_lift.
    makes_confined.
  - by apply makes_push.
  - intros title body baseBranch. unfold createPr. rewrite Hdir, bind_lift.
    apply makes_bind; [by apply makes_push|]. intros pushResult.
    makes_confined.
Qed.

Lemma git_commands_run_in_the_workspace_witness :
  ("/home/user/workspace/docs" = "/home/user/workspace"
   ∨ Js.startsWith "/home/user/workspace/docs" ("/home/user/workspace" +:+ "/") = true)
  ∧ makes (confined "/home/user/workspace/docs"
             (GIT_BASE_ENV ++ getGitIdentityEnv sampleIdentity))
      (push (Some (scripted [])) sampleIdentity sampleRepos id (λ _, "e30=")
         "/home/user/workspace" joinPath (Some "docs")).
Proof.
  destruct (git_commands_run_in_the_workspace (Some (scripted [])) sampleIdentity
              sampleRepos id (λ _, "e30=") "/home/user/workspace" joinPath (Some "docs")
              "/home/user/workspace/docs" eq_refl) as (Hdir & _ & _ & Hpush & _).
  by split.
Defined.

Lemma makes_callsMade {A} P (m : M A) log :
  makes P m → Forall P (callsMade log (m log).2).
Proof.
  intros Hm. destruct (Hm log) as (calls & -> & Hcalls). unfold callsMade.
  by rewrite drop_app_length.
Qed.

Lemma push_makes_no_pull_request provider identity repos shellEscape encodeCredentials
    WORKSPACE_DIR pathResolve workspacePath :
  makes (λ c, isGhPrCreate c = false)
    (push provider identity repos shellEscape encodeCredentials WORKSPACE_DIR pathResolve
       workspacePath).
Proof.
  unfold push, refreshGitCredentialsFile, determinePushArgs.
  repeat first [makes_step | apply makes_exec; reflexivity].
Qed.

(** X23.  [createPr] runs [gh pr create] only after its own [push] has
    reported success; a failed or rejected push ends it before the GitHub
    CLI is called. *)
Theorem pull_request_is_created_only_after_a_successful_push
    provider identity repos shellEscape encodeCredentials WORKSPACE_DIR pathResolve
    title body baseBranch workspacePath log :
  Exists (λ c, isGhPrCreate c = true)
    (callsMade log
       (createPr provider identity repos shellEscape encodeCredentials WORKSPACE_DIR
          pathResolve title body baseBranch workspacePath log).2) →
  ∃ pushed after,
    push provider identity repos shellEscape encodeCredentials WORKSPACE_DIR pathResolve
      workspacePath log = (Provider.Resolved pushed, after)
    ∧ success pushed = true.
Proof.
  pose proof (makes_callsMade _ _ log
                (push_makes_no_pull_request provider identity repos shellEscape
                   encodeCredentials WORKSPACE_DIR pathResolve workspacePath)) as Hpush.
  assert (∀ calls, Forall (λ c, isGhPrCreate c = false) calls →
                   ¬ Exists (λ c, isGhPrCreate c = true) calls) as Hnone.
  { intros calls Hall Hex. apply Exists_exists in Hex as (c & Hin & Hc).
    rewrite Forall_forall in Hall. specialize (Hall c Hin). congruence. }
  unfold createPr, bind at 1, lift.
  destruct (resolveGitDir _ _ _) as [cwd|]; simpl.
  - unfold bind at 1.
    destruct (push _ _ _ _ _ _ _ _ log) as [[pushed|reason] after] eqn:Hrun; simpl in *.
    + destruct (success pushed) eqn:Hok; simpl; [by eauto|].
      intros Hex. by apply Hnone in Hex.
    + intros Hex. by apply Hnone in Hex.
  - unfold callsMade. rewrite drop_all. by intros ?%Exists_nil.
Qed.

Lemma pull_request_is_created_only_after_a_successful_push_witness :
  ∃ pushed after,
    push (Some (scripted [(0, ""); (0, "main"); (0, "origin/main"); (0, ""); (0, "")]))
      sampleIdentity sampleRepos id (λ _, "e30=") "/home/user/workspace" joinPath
      None [] = (Provider.Resolved pushed, after)
    ∧ success pushed = true.
Proof.
  apply (pull_request_is_created_only_after_a_successful_push
           (Some (scripted [(0, ""); (0, "main"); (0, "origin/main"); (0, ""); (0, "")]))
           sampleIdentity sampleRepos id (λ _, "e30=") "/home/user/workspace" joinPath
           "Add login" None None None []).
  vm_compute. do 4 right. left. reflexivity.
Defined.

(** X26.  [createBranch] first asks [git show-ref] whether the branch exists.
    If it does (exit code 0) nothing else is run and the result is
    [BRANCH_EXISTS]; otherwise [git checkout -b] is run, and the result is a
    success exactly when that exited with code 0. *)
Theorem createBranch_never_checks_out_an_existing_branch
    provider identity WORKSPACE_DIR pathResolve name workspacePath log result log' :
  createBranch provider identity WORKSPACE_DIR pathResolve name workspacePath log
  = (Provider.Resolved result, log') →
  ∃ execCommand cwd checked,
    let call argv timeoutMs :=
      {| call_argv := argv; call_cwd := Some cwd; call_timeoutMs := timeoutMs;
         call_env := getMutableEnv identity |} in
    let showRef := call ["git"; "show-ref"; "--verify"; "refs/heads/" +:+ name] 10000 in
    let checkout := call ["git"; "checkout"; "-b"; name] 15000 in
    provider = Some execCommand
    ∧ resolveGitDir WORKSPACE_DIR pathResolve workspacePath = Provider.Resolved cwd
    ∧ execCommand log showRef = Provider.Resolved checked
    ∧ if bool_decide (Provider.exitCode checked = 0)
      then log' = log ++ [showRef]
           ∧ result = failure BRANCH_EXISTS ("Branch '" +:+ name +:+ "' already exists")
      else ∃ created,
             log' = log ++ [showRef; checkout]
             ∧ execCommand (log ++ [showRef]) checkout = Provider.Resolved created
             ∧ (success result = true ↔ Provider.exitCode created = 0).
Proof.
  intros Hrun. unfold_method Hrun.
  destruct (resolveGitDir _ _ _) as [cwd|] eqn:Hdir; [|discriminate].
  destruct provider as [execCommand|]; [|discriminate].
  cbn beta iota zeta in Hrun.
  destruct (execCommand log _) as [checked|] eqn:Hcheck; [|discriminate].
  cbn beta iota zeta in Hrun.
  exists execCommand, cwd, checked. cbn zeta. split_and!; try done.
  destruct (bool_decide (Provider.exitCode checked = 0)).
  { by simplify_eq/=. }
  cbn beta iota zeta in Hrun.
  destruct (execCommand (log ++ _) _) as [created|] eqn:Hcreate; [|discriminate].
  cbn beta iota zeta in Hrun. exists created. rewrite <- (assoc_L (++)) in Hrun.
  case_bool_decide as Hcode; simpl in Hrun; simplify_eq/=; split_and!; try done.
Qed.

Lemma createBranch_never_checks_out_an_existing_branch_witness :
  ∃ execCommand cwd,
    Some (scripted [(0, "")]) = Some execCommand
    ∧ resolveGitDir "/home/user/workspace" joinPath None = Provider.Resolved cwd.
Proof.
  destruct (createBranch_never_checks_out_an_existing_branch
              (Some (scripted [(0, "")])) sampleIdentity "/home/user/workspace" joinPath
              "feature/login" None []
              (failure BRANCH_EXISTS "Branch 'feature/login' already exists")
              [{| call_argv := ["git"; "show-ref"; "--verify"; "refs/heads/feature/login"];
                  call_cwd := Some "/home/user/workspace"; call_timeoutMs := 10000;
                  call_env := getMutableEnv sampleIdentity |}]
              eq_refl)
    as (execCommand & cwd & _ & Hprovider & Hdir & _).
  by exists execCommand, cwd.
Defined.

(** X27.  When [determinePushArgs] lets the push go ahead, it pushes to the
    configured upstream, or it sets the upstream ([-u]) on a remote that
    [git remote] has listed: on [origin] if that is listed, else on the
    remote that is the only one.  It never names a remote of its own. *)
Theorem upstream_is_set_only_on_a_listed_remote
    provider identity cwd branch log args log' :
  determinePushArgs provider identity cwd branch log = (Provider.Resolved (inl args), log') →
  ∃ execCommand asked,
    let call argv :=
      {| call_argv := argv; call_cwd := Some cwd; call_timeoutMs := 10000;
         call_env := getMutableEnv identity |} in
    let upstream := call ["git"; "rev-parse"; "--abbrev-ref"; "@{upstream}"] in
    provider = Some execCommand
    ∧ execCommand log upstream = Provider.Resolved asked
    ∧ if bool_decide (Provider.exitCode asked = 0)
      then args = [] ∧ log' = log ++ [upstream]
      else ∃ listed remote,
             let remotes :=
               List.filter Js.truthy
                 (Provider.split Provider.newline
                    (Provider.trim (Provider.stdout listed))) in
             execCommand (log ++ [upstream]) (call ["git"; "remote"])
             = Provider.Resolved listed
             ∧ log' = log ++ [upstream; call ["git"; "remote"]]
             ∧ args = ["-u"; remote; branch]
             ∧ remote ∈ remotes
             ∧ (remote = "origin" ∨ remotes = [remote]).
Proof.
  intros Hrun. unfold_method Hrun.
  destruct provider as [execCommand|]; [|discriminate].
  cbn beta iota zeta in Hrun.
  destruct (execCommand log _) as [asked|] eqn:Hasked; [|discriminate].
  cbn beta iota zeta in Hrun.
  exists execCommand, asked. cbn zeta. split_and!; try done.
  destruct (bool_decide (Provider.exitCode asked = 0)).
  { by simplify_eq/=. }
  cbn beta iota zeta in Hrun.
  destruct (execCommand (log ++ _) _) as [listed|] eqn:Hlisted; [|discriminate].
  cbn beta iota zeta in Hrun. rewrite <- (assoc_L (++)) in Hrun.
  set (remotes := List.filter Js.truthy _) in *.
  destruct remotes as [|first others] eqn:Hremotes; [discriminate|].
  case_bool_decide as Horigin.
  - simplify_eq/=. exists listed, "origin". rewrite Hremotes.
    split_and!; try done. by left.
  - case_bool_decide as Hone; [|discriminate]. simplify_eq/=.
    exists listed, first. rewrite Hremotes. split_and!; try done; [by left|].
    right. by destruct others.
Qed.

Lemma upstream_is_set_only_on_a_listed_remote_witness :
  ∃ execCommand, Some (scripted [(128, ""); (0, "fork")]) = Some execCommand.
Proof.
  destruct (upstream_is_set_only_on_a_listed_remote
              (Some (scripted [(128, ""); (0, "fork")])) sampleIdentity
              "/home/user/workspace" "main" [] ["-u"; "fork"; "main"]
              (determinePushArgs (Some (scripted [(128, ""); (0, "fork")])) sampleIdentity
                 "/home/user/workspace" "main" []).2)
    as (execCommand & _ & Hprovider & _); [by vm_compute|].
  by exists execCommand.
Defined.

(** ** Parsers of git's output *)

Lemma split_noChar sep s : noChar sep s = true → Provider.split sep s = [s].
Proof.
  induction s as [|c s IH]; simpl; [done|]. intros [Hc Hs]%andb_prop.
  rewrite (IH Hs). by apply negb_true_iff in Hc as ->.
Qed.

Lemma split_app_sep sep s t :
  noChar sep s = true →
  Provider.split sep (s +:+ String sep t) = s :: Provider.split sep t.
Proof.
  induction s as [|c s IH]; intros Hs.
  - rewrite string_app_nil_l. simpl. by rewrite bool_decide_eq_true_2.
  - rewrite string_app_cons. simpl in *. apply andb_prop in Hs as [Hc Hs].
    rewrite (IH Hs). by apply negb_true_iff in Hc as ->.
Qed.

Lemma noChar_app sep s t : noChar sep (s +:+ t) = noChar sep s && noChar sep t.
Proof.
  induction s as [|c s IH]; [by rewrite string_app_nil_l|].
  rewrite string_app_cons. simpl. rewrite IH. by destruct (negb _).
Qed.

Lemma trimEnd_solid c s : Provider.isSpace c = false → Provider.trimEnd (String c s) ≠ "".
Proof. intros Hc. simpl. destruct (Provider.trimEnd s); by rewrite ?Hc. Qed.

Lemma noSpace_trimEnd s : noSpace s = true → s ≠ "" → Provider.trimEnd s ≠ "".
Proof.
  intros Hs Hne. by rewrite trimEnd_noSpace.
Qed.

Lemma printable_spec c :
  printable c = true →
  (∀ field, field ∈ [GitParse.sha c; GitParse.commit_message c; GitParse.author c;
                     GitParse.date c] →
            noChar GitParse.RS field = true ∧ noChar GitParse.US field = true)
  ∧ GitParse.sha c ≠ "" ∧ noSpace (GitParse.sha c) = true
  ∧ GitParse.date c ≠ "" ∧ noSpace (GitParse.date c) = true.
Proof.
  unfold printable. intros H.
  repeat match goal with H : _ && _ = true |- _ => apply andb_prop in H as [? ?] end.
  repeat match goal with H : containerId _ = true |- _ =>
           apply containerId_spec in H as [? ?] end.
  split; [|done]. intros field. rewrite !elem_of_cons, elem_of_nil.
  intros [-> | [-> | [-> | [-> | []]]]]; done.
Qed.

Lemma trimEnd_field s c t :
  Provider.trimEnd t = t → t ≠ "" →
  Provider.trimEnd (s +:+ String c t) = s +:+ String c t ∧ s +:+ String c t ≠ "".
Proof.
  intros Ht Hne.
  assert (Provider.trimEnd (String c t) = String c t) as Hc.
  { simpl. rewrite Ht. by destruct t. }
  split.
  - rewrite trimEnd_app_solid; rewrite Hc; done.
  - destruct s; [by rewrite string_app_nil_l|by rewrite string_app_cons].
Qed.

Lemma parseRecord_printed c :
  printable c = true →
  GitParse.parseRecord (logFields c +:+ String Provider.newline "") = Some c.
Proof.
  intros (Hplain & Hsha & Hsha' & Hdate & Hdate')%printable_spec.
  unfold GitParse.parseRecord, Provider.trim.
  assert (Provider.trimStart (logFields c +:+ String Provider.newline "")
          = logFields c +:+ String Provider.newline "") as ->.
  { unfold logFields. destruct (GitParse.sha c) as [|a sha]; [done|].
    rewrite !string_app_cons. simpl in *. by destruct (Provider.isSpace a). }
  rewrite trimEnd_app_blank by done.
  assert (Provider.trimEnd (logFields c) = logFields c ∧ logFields c ≠ "") as [-> Hne].
  { unfold logFields.
    pose proof (trimEnd_field (GitParse.author c) GitParse.US (GitParse.date c)
                  (trimEnd_noSpace _ Hdate') Hdate) as [H1 H1'].
    pose proof (trimEnd_field (GitParse.commit_message c) GitParse.US _ H1 H1') as [H2 H2'].
    exact (trimEnd_field (GitParse.sha c) GitParse.US _ H2 H2'). }
  rewrite (truthy_ne _ Hne). simpl. unfold logFields.
  rewrite !split_app_sep, split_noChar;
    try (apply Hplain; rewrite !elem_of_cons; tauto).
  by destruct c.
Qed.

Lemma string_app_nil_r (s : string) : s +:+ "" = s.
Proof.
  induction s as [|c s IH]; [done|]. by rewrite string_app_cons, IH.
Qed.

Lemma noChar_logFields c :
  printable c = true →
  noChar GitParse.RS (logFields c +:+ String Provider.newline "") = true.
Proof.
  intros (Hplain & _)%printable_spec. unfold logFields.
  rewrite !noChar_app. simpl. rewrite !noChar_app. simpl. rewrite !noChar_app. simpl.
  rewrite !(λ f H, proj1 (Hplain f H)); try done; rewrite !elem_of_cons; tauto.
Qed.

Lemma split_logOutput commits :
  Forall (λ c, printable c = true) commits →
  Provider.split GitParse.RS (logOutput commits)
  = "" :: ((λ c, logFields c +:+ String Provider.newline "") <$> commits).
Proof.
  induction 1 as [|c commits Hc _ IH]; [done|].
  cbn [logOutput foldr fmap list_fmap]. fold (logOutput commits).
  unfold logRecord at 1. rewrite string_app_cons. simpl. f_equal.
  pose proof (noChar_logFields c Hc) as Hbody.
  destruct commits as [|c' commits].
  - simpl. rewrite string_app_nil_r. by rewrite split_noChar.
  - cbn [logOutput foldr] in *. fold (logOutput commits) in *.
    unfold logRecord at 1. rewrite string_app_cons.
    rewrite split_app_sep by done. f_equal.
    unfold logRecord in IH at 1. rewrite string_app_cons in IH. simpl in IH.
    by injection IH as ->.
Qed.

(** X24.  [parseLogOutput] reads back what [git log] printed in the record
    format: for commits whose fields contain no separator character and
    whose hash and date are non-empty words, parsing the output yields the
    commits, in order, with every field intact (messages and author names
    keep their spaces). *)
Theorem parseLogOutput_reads_back_the_log commits :
  Forall (λ c, printable c = true) commits →
  GitParse.parseLogOutput (logOutput commits) = commits.
Proof.
  intros Hall. unfold GitParse.parseLogOutput.
  destruct commits as [|c commits]; [done|].
  assert (Js.truthy (Provider.trim (logOutput (c :: commits))) = true) as ->.
  { apply truthy_ne. unfold Provider.trim. cbn [logOutput foldr]. unfold logRecord at 1.
    rewrite string_app_cons. simpl Provider.trimStart. by apply trimEnd_solid. }
  simpl negb. cbn iota. rewrite split_logOutput by done.
  cbn [omap list_omap]. change (GitParse.parseRecord "") with (@None GitParse.GitCommitSummary).
  induction Hall as [|c' commits' Hc _ IH]; [done|].
  cbn [fmap list_fmap omap list_omap] in *. rewrite parseRecord_printed by done.
  by rewrite IH.
Qed.

Lemma parseLogOutput_reads_back_the_log_witness :
  GitParse.parseLogOutput
    (logOutput
       [{| GitParse.sha := "abc1234def5678"; GitParse.commit_message := "feat: add auth";
           GitParse.author := "Pablo"; GitParse.date := "2025-01-15T10:30:00-05:00" |};
        {| GitParse.sha := "def456"; GitParse.commit_message := " fix: login  bug ";
           GitParse.author := ""; GitParse.date := "2025-01-14T09:00:00-05:00" |}])
  = [{| GitParse.sha := "abc1234def5678"; GitParse.commit_message := "feat: add auth";
        GitParse.author := "Pablo"; GitParse.date := "2025-01-15T10:30:00-05:00" |};
     {| GitParse.sha := "def456"; GitParse.commit_message := " fix: login  bug ";
        GitParse.author := ""; GitParse.date := "2025-01-14T09:00:00-05:00" |}].
Proof.
  apply (parseLogOutput_reads_back_the_log
           [{| GitParse.sha := "abc1234def5678"; GitParse.commit_message := "feat: add auth";
               GitParse.author := "Pablo"; GitParse.date := "2025-01-15T10:30:00-05:00" |};
            {| GitParse.sha := "def456"; GitParse.commit_message := " fix: login  bug ";
               GitParse.author := ""; GitParse.date := "2025-01-14T09:00:00-05:00" |}]).
  repeat constructor.
Defined.

Lemma lastValue_snoc prefix lines line :
  lastValue prefix (lines ++ [line])
  = if Js.startsWith line prefix
    then Some (Provider.trim (GitParse.slice (String.length prefix) line))
    else lastValue prefix lines.
Proof.
  unfold lastValue. rewrite List.filter_app. simpl.
  destruct (Js.startsWith line prefix); [by rewrite last_snoc|by rewrite app_nil_r].
Qed.

(** A line starts with at most one of the four prefixes. *)
Lemma busy_prefixes_exclusive line :
  (Js.startsWith line "shallow:" = true →
   Js.startsWith line "lock:" = false ∧ Js.startsWith line "rebase:" = false
   ∧ Js.startsWith line "merge:" = false)
  ∧ (Js.startsWith line "lock:" = true →
     Js.startsWith line "rebase:" = false ∧ Js.startsWith line "merge:" = false)
  ∧ (Js.startsWith line "rebase:" = true → Js.startsWith line "merge:" = false).
Proof.
  destruct line as [|c line]; [done|]. simpl.
  split; [|split]; intros [Hc _]%andb_prop; apply bool_decide_eq_true in Hc;
    by subst c.
Qed.

(** X25.  On output of 7-bit characters, [parseBusyState] decides each flag
    by the last line of its kind: the repository is shallow if the last line
    that starts with [shallow:] has the value [true], and locked, rebasing or
    merging if the last [lock:], [rebase:] or [merge:] line has the value
    [1], white space around the value being ignored; a flag without such a
    line is false, and all other lines are skipped. *)
Theorem parseBusyState_takes_the_last_line_of_each_kind output :
  asciiOnly output = true →
  let lines := Provider.split Provider.newline output in
  let flag prefix yes :=
    from_option (λ value, bool_decide (value = yes)) false (lastValue prefix lines) in
  GitParse.parseBusyState output
  = {| GitParse.isShallow := flag "shallow:" "true";
       GitParse.isBusy := flag "lock:" "1";
       GitParse.rebaseInProgress := flag "rebase:" "1";
       GitParse.mergeInProgress := flag "merge:" "1" |}.
Proof.
  intros _. cbn zeta. unfold GitParse.parseBusyState.
  induction (Provider.split Provider.newline output) as [|line lines IH] using rev_ind;
    [done|].
  rewrite foldl_app, IH, !lastValue_snoc. cbn [foldl]. unfold GitParse.parseBusyLine.
  destruct (busy_prefixes_exclusive line) as (Hshallow & Hlock & Hrebase).
  destruct (Js.startsWith line "shallow:") eqn:H1.
  { destruct Hshallow as (-> & -> & ->); done. }
  destruct (Js.startsWith line "lock:") eqn:H2.
  { destruct Hlock as (-> & ->); done. }
  destruct (Js.startsWith line "rebase:") eqn:H3.
  { rewrite Hrebase; done. }
  by destruct (Js.startsWith line "merge:").
Qed.

Lemma parseBusyState_takes_the_last_line_of_each_kind_witness :
  GitParse.parseBusyState busyOutput
  = {| GitParse.isShallow := true; GitParse.isBusy := true;
       GitParse.rebaseInProgress := false; GitParse.mergeInProgress := false |}.
Proof.
  rewrite (parseBusyState_takes_the_last_line_of_each_kind busyOutput) by reflexivity.
  vm_compute. reflexivity.
Defined.
